(** * gosocksv5d: a SOCKS v5 (RFC 1928) server in Go

    A shallow embedding of the package (the per-connection protocol engine,
    the relay loop, the resolver decorator, the default ruler and the
    server's configuration mutators) together with the properties its
    specification states about them.

    Conventions of the embedding.
    - A [byte] is [Byte.byte]; a [[]byte] is a [list byte]; a nil slice is [[]].
    - Go's [panic]/[recover] is an error monad over an explicit world: a
      computation either returns a value or unwinds with the panic value.
    - The operating system is an oracle: what a peer sends, how far a write
      gets, what a dial or a lookup returns and what the clock and the random
      source say are data of the world, never chosen by the model.
    - Calls to the injected [Logger] are left out: the sink is write-only and
      no control flow of the package depends on it. *)

From Stdlib Require Import String ZArith NArith Lia Bool Arith List Permutation.
From Stdlib.Strings Require Import Byte.
Import ListNotations.

Definition byte : Type := Byte.byte.

(* ================================================================== *)
(** ** Errors and panic values *)

(** Run-time panics raised by the Go runtime itself. *)
Inductive runtimeError : Type :=
| NilDereference
| IndexOutOfRange
| SliceBoundsOutOfRange.

(** The [error] values that occur: the package's own variables, the two of
    package [io], and the failures of package [net].  [OpError] carries the
    answers of its [Timeout()] and [Temporary()] methods. *)
Inductive error : Type :=
| ErrorHandshake
| ErrorCommand
| ErrorAddress
| ErrorNotAllowed
| ErrorAlreadyListening
| EOF
| ErrUnexpectedEOF
| OpError (isTimeout isTemporary : bool)
| InvalidAddrError
| runtime (r : runtimeError)
| otherError (msg : string).

(** The type assertion [err.(net.Error)]: the errors of package [net]
    implement the interface, the others do not. *)
Definition asNetError (e : error) : option (bool * bool) :=
  match e with
  | OpError t tmp => Some (t, tmp)
  | InvalidAddrError => Some (false, false)
  | _ => None
  end.

(** [ne, ok := err.(net.Error); ok && (ne.Timeout() || ne.Temporary())] *)
Definition transient (e : error) : bool :=
  match asNetError e with
  | Some (t, tmp) => t || tmp
  | None => false
  end.

Definition isEOF (e : error) : bool :=
  match e with EOF => true | _ => false end.

(** The deadline error of a socket. *)
Definition errTimeout : error := OpError true true.

(* ================================================================== *)
(** ** Package net: addresses and connections *)

(** The functions on addresses are those of the Go standard library, which
    the package only calls. *)
Module net.

Definition IP := list byte.

Definition IPv4len : nat := 4.
Definition IPv6len : nat := 16.

Definition v4InV6Prefix : list byte :=
  [x00; x00; x00; x00; x00; x00; x00; x00; x00; x00; xff; xff].

Definition IPv4 (a b c d : byte) : IP := v4InV6Prefix ++ [a; b; c; d].

Fixpoint bytesEqual (p q : list byte) : bool :=
  match p, q with
  | [], [] => true
  | x :: p', y :: q' => Byte.eqb x y && bytesEqual p' q'
  | _, _ => false
  end.

(** [ip.To4()]; [None] is the nil result. *)
Definition To4 (ip : IP) : option IP :=
  if length ip =? IPv4len then Some ip
  else if (length ip =? IPv6len) && bytesEqual (firstn 12 ip) v4InV6Prefix
       then Some (skipn 12 ip)
       else None.

(** [ip.To16()]; [[]] is the nil result. *)
Definition To16 (ip : IP) : IP :=
  if length ip =? IPv4len
  then IPv4 (nth 0 ip x00) (nth 1 ip x00) (nth 2 ip x00) (nth 3 ip x00)
  else if length ip =? IPv6len then ip else [].

(** [ip.Equal(x)]: an IPv4 address and its IPv6 form are the same. *)
Definition Equal (ip x : IP) : bool :=
  if length ip =? length x then bytesEqual ip x
  else if (length ip =? IPv4len) && (length x =? IPv6len)
       then bytesEqual (firstn 12 x) v4InV6Prefix && bytesEqual ip (skipn 12 x)
  else if (length ip =? IPv6len) && (length x =? IPv4len)
       then bytesEqual (firstn 12 ip) v4InV6Prefix && bytesEqual (skipn 12 ip) x
  else false.

Definition IPv4zero : IP := IPv4 x00 x00 x00 x00.
Definition IPv4bcast : IP := IPv4 xff xff xff xff.
Definition IPv6unspecified : IP := repeat x00 16.
Definition IPv6loopback : IP := repeat x00 15 ++ [x01].

Definition band (a b : byte) : N := N.land (Byte.to_N a) (Byte.to_N b).

Definition IsUnspecified (ip : IP) : bool :=
  Equal ip IPv4zero || Equal ip IPv6unspecified.

Definition IsLoopback (ip : IP) : bool :=
  match To4 ip with
  | Some ip4 => Byte.eqb (nth 0 ip4 x00) x7f
  | None => Equal ip IPv6loopback
  end.

Definition IsMulticast (ip : IP) : bool :=
  match To4 ip with
  | Some ip4 => N.eqb (band (nth 0 ip4 x00) xf0) 224
  | None => (length ip =? IPv6len) && Byte.eqb (nth 0 ip x00) xff
  end.

Definition IsLinkLocalUnicast (ip : IP) : bool :=
  match To4 ip with
  | Some ip4 => Byte.eqb (nth 0 ip4 x00) xa9 && Byte.eqb (nth 1 ip4 x00) xfe
  | None => (length ip =? IPv6len) && Byte.eqb (nth 0 ip x00) xfe
            && N.eqb (band (nth 1 ip x00) xc0) 128
  end.

Definition IsGlobalUnicast (ip : IP) : bool :=
  ((length ip =? IPv4len) || (length ip =? IPv6len))
  && negb (Equal ip IPv4bcast)
  && negb (IsUnspecified ip)
  && negb (IsLoopback ip)
  && negb (IsMulticast ip)
  && negb (IsLinkLocalUnicast ip).

(** [net.IPNet]: a network number and its mask. *)
Record IPNet : Type := mkIPNet { netIP : IP; netMask : list byte }.

Definition networkNumberAndMask (n : IPNet) : option (IP * list byte) :=
  let ip := match To4 (netIP n) with Some ip4 => Some ip4
            | None => if length (netIP n) =? IPv6len then Some (netIP n) else None
            end in
  match ip with
  | None => None
  | Some ip =>
      let m := netMask n in
      if length m =? IPv4len
      then if length ip =? IPv4len then Some (ip, m) else None
      else if length m =? IPv6len
           then if length ip =? IPv4len then Some (ip, skipn 12 m) else Some (ip, m)
           else None
  end.

Fixpoint maskedEqual (nn m ip : list byte) : bool :=
  match nn, m, ip with
  | [], _, _ => true
  | a :: nn', k :: m', b :: ip' => N.eqb (band a k) (band b k) && maskedEqual nn' m' ip'
  | _, _, _ => false
  end.

(** [n.Contains(ip)] *)
Definition Contains (n : IPNet) (ip : IP) : bool :=
  let '(nn, m) := match networkNumberAndMask n with
                  | Some p => p
                  | None => ([], [])
                  end in
  let ip := match To4 ip with Some x => x | None => ip end in
  (length ip =? length nn) && maskedEqual nn m ip.

(** The dynamic types behind the interface [net.Addr]. *)
Inductive Addr : Type :=
| IPAddr (ip : IP)
| IPNetAddr (n : IPNet)
| TCPAddr (ip : IP) (port : N)
| otherAddr.

(** What the peer of a connection does next on the receiving side: a
    segment of bytes arrives, or the read fails.  An exhausted script is
    the peer having closed its sending side: every read then gives
    [io.EOF]. *)
Inductive RxItem : Type :=
| Chunk (bs : list byte)
| RxErr (e : error).

(** How a coming write ends: the count of bytes the transport takes (at
    most what is offered) and the error, if any.  An exhausted script is a
    healthy transport: every write is taken in full. *)
Definition TxOutcome : Type := (nat * option error)%type.

(** A [*net.TCPConn], as far as the package observes it. *)
Record TCPConn : Type := mkTCPConn {
  rx : list RxItem;
  txs : list TxOutcome;
  out : list (list byte);          (* the slices handed to Write, in order *)
  wire : list byte;                (* the bytes the transport took, in order *)
  readDeadline : option Z;
  writeDeadline : option Z;
  readClosed : bool;
  writeClosed : bool;
  closed : bool;
  remote : IP * N
}.

Definition RemoteAddr (c : TCPConn) : Addr := TCPAddr (fst (remote c)) (snd (remote c)).

Definition SetReadDeadline (t : Z) (c : TCPConn) : TCPConn :=
  mkTCPConn (rx c) (txs c) (out c) (wire c) (Some t) (writeDeadline c)
            (readClosed c) (writeClosed c) (closed c) (remote c).

Definition SetWriteDeadline (t : Z) (c : TCPConn) : TCPConn :=
  mkTCPConn (rx c) (txs c) (out c) (wire c) (readDeadline c) (Some t)
            (readClosed c) (writeClosed c) (closed c) (remote c).

Definition setRx (r : list RxItem) (c : TCPConn) : TCPConn :=
  mkTCPConn r (txs c) (out c) (wire c) (readDeadline c) (writeDeadline c)
            (readClosed c) (writeClosed c) (closed c) (remote c).

(** [c.Read(b)] with [len(b) = k]: at most [k] bytes of the next segment;
    what does not fit stays for the next read. *)
Definition Read (k : nat) (c : TCPConn) : (list byte * option error) * TCPConn :=
  match rx c with
  | [] => (([], Some EOF), c)
  | RxErr e :: rest => (([], Some e), setRx rest c)
  | Chunk bs :: rest =>
      if length bs <=? k
      then ((bs, None), setRx rest c)
      else ((firstn k bs, None), setRx (Chunk (skipn k bs) :: rest) c)
  end.

(** [c.Write(p)]: the transport takes a prefix of [p]. *)
Definition Write (p : list byte) (c : TCPConn) : (nat * option error) * TCPConn :=
  let '(n, e, rest) :=
    match txs c with
    | [] => (length p, None, [])
    | (n, e) :: rest => (Nat.min n (length p), e, rest)
    end in
  ((n, e),
   mkTCPConn (rx c) rest (out c ++ [p]) (wire c ++ firstn n p)
             (readDeadline c) (writeDeadline c)
             (readClosed c) (writeClosed c) (closed c) (remote c)).

Definition CloseRead (c : TCPConn) : TCPConn :=
  mkTCPConn (rx c) (txs c) (out c) (wire c) (readDeadline c) (writeDeadline c)
            true (writeClosed c) (closed c) (remote c).

Definition CloseWrite (c : TCPConn) : TCPConn :=
  mkTCPConn (rx c) (txs c) (out c) (wire c) (readDeadline c) (writeDeadline c)
            (readClosed c) true (closed c) (remote c).

Definition Close (c : TCPConn) : TCPConn :=
  mkTCPConn (rx c) (txs c) (out c) (wire c) (readDeadline c) (writeDeadline c)
            (readClosed c) (writeClosed c) true (remote c).

(** A connection nobody has used yet. *)
Definition fresh (r : list RxItem) (t : list TxOutcome) (peer : IP * N) : TCPConn :=
  mkTCPConn r t [] [] None None false false false peer.

End net.

(* ================================================================== *)
(** ** The world a connection handler runs in *)

(** A [*net.TCPConn] is a reference: the handler of one connection holds the
    accepted socket and, after a dial, the outbound one. *)
Inductive ConnId : Type := Client | Upstream.

Record DialAttempt : Type := mkDial {
  dialProto : string;
  dialLocal : net.IP * N;
  dialRemote : net.IP * N
}.

Record World : Type := mkWorld {
  client : net.TCPConn;
  upstream : net.TCPConn;
  ticks : nat;                   (* readings of time.Now() taken so far *)
  rng : list nat;                (* what the random source yields next *)
  dialed : list DialAttempt;     (* the calls of net.DialTCP, in order *)
  quit : nat                     (* values sent on the quit channel *)
}.

Definition get (id : ConnId) (w : World) : net.TCPConn :=
  match id with Client => client w | Upstream => upstream w end.

Definition set (id : ConnId) (c : net.TCPConn) (w : World) : World :=
  match id with
  | Client => mkWorld c (upstream w) (ticks w) (rng w) (dialed w) (quit w)
  | Upstream => mkWorld (client w) c (ticks w) (rng w) (dialed w) (quit w)
  end.

(** What the operating system and the Go runtime answer. *)
Record OS : Type := mkOS {
  Now : nat -> Z;                                        (* n-th reading of the clock, in ns *)
  LookupHost : string -> list net.IP * option error;     (* net.LookupIP *)
  InterfaceAddrs : list net.Addr * option error;         (* net.InterfaceAddrs *)
  DialTCP : string -> net.IP * N -> net.IP * N -> net.TCPConn + error;
  (** What a method of [*net.TCPConn] does on a nil pointer.  [false]: the
      method runs and its own test [c != nil && c.fd != nil] answers (Go
      1.0, the release the package is written for, where the methods are
      declared on [*TCPConn]).  [true]: the call panics (later releases,
      where the methods are promoted from an embedded struct and the
      runtime checks the pointer). *)
  nilChecked : bool
}.

(** The outcome of a call: a value, or a panic unwinding the goroutine. *)
Inductive result (A : Type) : Type :=
| Ok (a : A)
| Panic (e : error).
Arguments Ok {A} a.
Arguments Panic {A} e.

Definition M (A : Type) : Type := World -> result A * World.

Definition ret {A} (a : A) : M A := fun w => (Ok a, w).

Definition bind {A B} (m : M A) (k : A -> M B) : M B :=
  fun w => match m w with
           | (Ok a, w') => k a w'
           | (Panic e, w') => (Panic e, w')
           end.

Definition panic {A} (e : error) : M A := fun w => (Panic e, w).

Declare Scope go_scope.
Delimit Scope go_scope with go.
Notation "x <- c ;; k" := (bind c (fun x => k))
  (at level 61, c at next level, right associativity) : go_scope.
Notation "' p <- c ;; k" := (bind c (fun x => let 'p := x in k))
  (at level 61, p pattern, c at next level, right associativity) : go_scope.
Notation "c >> k" := (bind c (fun _ => k))
  (at level 61, right associativity) : go_scope.
Open Scope go_scope.

Definition isPanic {A} (r : result A) : bool :=
  match r with Panic _ => true | Ok _ => false end.

(** [rand.Intn(n)] of the shared source. *)
Definition Intn (n : nat) : M nat :=
  fun w => (Ok (hd 0 (rng w) mod n),
            mkWorld (client w) (upstream w) (ticks w) (tl (rng w)) (dialed w) (quit w)).

(* ================================================================== *)
(** ** resolver.go *)

Module resolver.

(** The implementations of the interface [DNSResolver]: the default one,
    the shuffling decorator, and whatever the embedding program supplies. *)
Inductive DNSResolver : Type :=
| defaultResolver
| shuffleResolver (resolver : DNSResolver)
| customResolver (lookup : string -> list net.IP * option error).

(** [l[i] = v] on a slice that has index [i]. *)
Fixpoint store {A} (i : nat) (v : A) (l : list A) : list A :=
  match l, i with
  | [], _ => []
  | _ :: l', 0 => v :: l'
  | x :: l', S i' => x :: store i' v l'
  end.

(** [addrs[r], addrs[n] = addrs[n], addrs[r]]: both operands are indexed
    before anything is stored. *)
Definition swap (r n : nat) (addrs : list net.IP) : M (list net.IP) :=
  match nth_error addrs n, nth_error addrs r with
  | Some an, Some ar => ret (store n ar (store r an addrs))
  | _, _ => panic (runtime IndexOutOfRange)
  end.

(** [for n := len(addrs); n > 1; n-- { if r := rand.Intn(n + 1); r != n { swap } }] *)
Fixpoint shuffle (n : nat) (addrs : list net.IP) : M (list net.IP) :=
  match n with
  | S (S _ as n') =>
      r <- Intn (n + 1) ;;
      addrs' <- (if r =? n then ret addrs else swap r n addrs) ;;
      shuffle n' addrs'
  | _ => ret addrs
  end.

Section Lookup.
Variable os : OS.

Fixpoint LookupIP (self : DNSResolver) (host : string)
  : M (list net.IP * option error) :=
  match self with
  | defaultResolver => ret (LookupHost os host)
  | customResolver lookup => ret (lookup host)
  | shuffleResolver resolver =>
      '(addrs, err) <- LookupIP resolver host ;;
      match err with
      | None => addrs' <- shuffle (length addrs) addrs ;; ret (addrs', None)
      | Some _ => ret (addrs, err)
      end
  end.
End Lookup.

End resolver.

(* ================================================================== *)
(** ** The ruler *)

Module ruler.

Inductive RulerResult : Type := DenyConnection | AllowConnection.

(** The implementations of the interface [Ruler]. *)
Inductive Ruler : Type :=
| defaultRuler
| customRuler (allowed : net.IP -> net.IP -> RulerResult).

(** The body of the [for _, addr := range addrs] loop of the default
    ruler: the first interface address that matches denies. *)
Fixpoint scan (addrs : list net.Addr) (requested : net.IP) : RulerResult :=
  match addrs with
  | [] => AllowConnection
  | net.IPAddr ip :: rest =>
      if net.Equal ip requested then DenyConnection else scan rest requested
  | net.IPNetAddr n :: rest =>
      if net.Contains n requested then DenyConnection else scan rest requested
  | _ :: rest => scan rest requested
  end.

Section Rules.
Variable os : OS.

Definition defaultRuler_ConnectionAllowed (requestee requested : net.IP)
  : RulerResult :=
  if negb (net.IsGlobalUnicast requested) then DenyConnection
  else match InterfaceAddrs os with
       | (_, Some _) => DenyConnection
       | (addrs, None) => scan addrs requested
       end.

Definition ConnectionAllowed (self : Ruler) (requestee requested : net.IP)
  : RulerResult :=
  match self with
  | defaultRuler => defaultRuler_ConnectionAllowed requestee requested
  | customRuler allowed => allowed requestee requested
  end.
End Rules.

End ruler.

(* ================================================================== *)
(** ** The protocol engine and the relay loop *)

Module socks.

Definition bufSize : nat := 2 ^ 16.
Definition timeoutDiff : Z := 10 * (60 * 1000000000).    (* 10 * time.Minute *)

Definition protoVersion : byte := x05.

Definition atypeIPV4 : byte := x01.
Definition atypeIPV6 : byte := x04.
Definition atypeDomain : byte := x03.

Definition cmdConnect : byte := x01.
Definition cmdBind : byte := x02.
Definition cmdAssoc : byte := x03.

Definition repSuccess : byte := x00.
Definition repFailure : byte := x01.
Definition repNotAllowed : byte := x02.
Definition repNetUnreachable : byte := x03.
Definition repHostUnreachable : byte := x04.
Definition repRefused : byte := x05.
Definition repTTL : byte := x06.
Definition repNotSupported : byte := x07.
Definition repNotAddressable : byte := x08.

(** [syscall.EINVAL], the answer of a [net] method whose receiver is not
    a usable connection. *)
Definition EINVAL : error := otherError "invalid argument".

(** [sockConn]: the connection and the embedded resolver and ruler (the
    embedded logger is left out). *)
Record sockConn : Type := mkSockConn {
  conn : option ConnId;
  DNSResolver : resolver.DNSResolver;
  Ruler : ruler.Ruler
}.

(** [binary.BigEndian.Uint16] and [PutUint16]. *)
Definition Uint16 (b : list byte) : N :=
  (Byte.to_N (nth 0 b x00) * 256 + Byte.to_N (nth 1 b x00))%N.

Definition byteOfN (n : N) : byte :=
  match Byte.of_N (n mod 256) with Some b => b | None => x00 end.

Definition PutUint16 (v : N) : list byte :=
  [byteOfN (v / 256); byteOfN v].

Section Engine.
Variable os : OS.

(** [time.Now().Add(timeoutDiff)] *)
Definition timeout : M Z :=
  fun w => (Ok (Now os (ticks w) + timeoutDiff)%Z,
            mkWorld (client w) (upstream w) (S (ticks w)) (rng w) (dialed w) (quit w)).

(** A method call [sock.conn.f(...)] through the pointer [sock.conn]. *)
Definition method {A} (sock : sockConn) (f : net.TCPConn -> A * net.TCPConn)
           (onNil : A) : M A :=
  fun w => match conn sock with
           | Some id => let '(a, c) := f (get id w) in (Ok a, set id c w)
           | None => if nilChecked os then (Panic (runtime NilDereference), w)
                     else (Ok onNil, w)
           end.

(** [sock.conn.SetReadDeadline(timeout()); return sock.conn.Read(b)], with
    [len(b) = k]. *)
Definition Read (sock : sockConn) (k : nat) : M (list byte * option error) :=
  t <- timeout ;;
  method sock (fun c => (tt, net.SetReadDeadline t c)) tt >>
  method sock (net.Read k) ([], Some EINVAL).

(** [sock.conn.SetWriteDeadline(timeout()); return sock.conn.Write(b)] *)
Definition Write (sock : sockConn) (b : list byte) : M (nat * option error) :=
  t <- timeout ;;
  method sock (fun c => (tt, net.SetWriteDeadline t c)) tt >>
  method sock (net.Write b) (0, Some EINVAL).

(** The loop of [io.ReadAtLeast]:
    [for n < min && err == nil { nn, err = r.Read(buf[n:]); n += nn }].
    Every turn without an error uses up one item of the receive script,
    so as many turns as the script has items, and one more, end it
    ([ReadAtLeast_turns]). *)
Fixpoint ReadAtLeast (turns : nat) (sock : sockConn) (min : nat) (got : list byte)
  : M (list byte * option error) :=
  if min <=? length got then ret (got, None)
  else match turns with
       | 0 => ret (got, None)
       | S turns' =>
           '(bs, err) <- Read sock (min - length got) ;;
           match err with
           | Some e => ret (got ++ bs, Some e)
           | None => ReadAtLeast turns' sock min (got ++ bs)
           end
       end.

(** [io.ReadFull(sock, rv)] with [len(rv) = count]: the bytes read and
    the error, where a short read that ends in [io.EOF] after some bytes
    is [io.ErrUnexpectedEOF]. *)
Definition ReadFull (sock : sockConn) (count : nat) : M (list byte * option error) :=
  fun w =>
    let turns := match conn sock with
                 | Some id => S (length (net.rx (get id w)))
                 | None => 1
                 end in
    ('(got, err) <- ReadAtLeast turns sock count [] ;;
     ret (got,
          if count <=? length got then None
          else match err with
               | Some e => if (0 <? length got) && isEOF e
                           then Some ErrUnexpectedEOF else Some e
               | None => None
               end)) w.

(** [readAll]: the buffer is zeroed, filled from the front, and handed
    back even when nothing at all could be read. *)
Definition readAll (sock : sockConn) (count : nat) : M (list byte) :=
  '(got, err) <- ReadFull sock count ;;
  let rv := got ++ repeat x00 (count - length got) in
  match err with
  | Some e => if isEOF e then ret rv else panic e
  | None => ret rv
  end.

Definition writeAll (sock : sockConn) (bytes : list byte) : M unit :=
  '(n, err) <- Write sock bytes ;;
  match err with
  | Some e => panic e
  | None => if n =? length bytes then ret tt else panic EOF
  end.

Definition writeError {A} (sock : sockConn) (rsp : byte) (err : error) : M A :=
  writeAll sock [protoVersion; rsp; x00; atypeIPV4; x00; x00; x00; x00; x00; x00] >>
  panic err.

Definition handshake (sock : sockConn) : M unit :=
  handshake <- readAll sock 2 ;;
  if negb (Byte.eqb (nth 0 handshake x00) protoVersion) then panic ErrorHandshake
  else
    methods <- readAll sock (Byte.to_nat (nth 1 handshake x00)) ;;
    if existsb (Byte.eqb x00) methods          (* bytes.IndexByte(methods, 0x0) >= 0 *)
    then writeAll sock [x05; x00]
    else writeAll sock [x05; xff] >> panic ErrorHandshake.

(** [sock.IP()]: the type switch knows [*net.IPAddr] only. *)
Definition IP (sock : sockConn) : M net.IP :=
  raddr <- method sock (fun c => (net.RemoteAddr c, c)) net.otherAddr ;;
  ret match raddr with
      | net.IPAddr ip => ip
      | _ => []
      end.

Definition newSockConn (conn : option ConnId) (resolver : resolver.DNSResolver)
           (ruler : ruler.Ruler) : M sockConn :=
  let sock := mkSockConn conn resolver ruler in
  (* conn.LocalAddr() and conn.RemoteAddr(), for the log prefix *)
  method sock (fun c => (tt, c)) tt >>
  method sock (fun c => (tt, c)) tt >>
  ret sock.

(** [net.DialTCP(proto, laddr, raddr)] *)
Definition dial (proto : string) (laddr raddr : net.IP * N)
  : M (option ConnId * option error) :=
  fun w =>
    let log := dialed w ++ [mkDial proto laddr raddr] in
    match DialTCP os proto laddr raddr with
    | inl c => (Ok (Some Upstream, None),
                mkWorld (client w) c (ticks w) (rng w) log (quit w))
    | inr e => (Ok (None, Some e),
                mkWorld (client w) (upstream w) (ticks w) (rng w) log (quit w))
    end.

(** The closure of [connect]: [for _, rip := range rips { ... }] over
    the named results [(rconn, err)]. *)
Fixpoint dialLoop (sock : sockConn) (lip : net.IP) (port : N) (rips : list net.IP)
         (named : option ConnId * option error)
  : M (option ConnId * option error) :=
  match rips with
  | [] => ret named
  | rip :: rips' =>
      requestee <- IP sock ;;
      match ruler.ConnectionAllowed os (Ruler sock) requestee rip with
      | ruler.AllowConnection => ret tt
      | _ => writeError sock repNotAllowed ErrorNotAllowed
      end >>
      let proto := match net.To4 rip with None => "tcp6" | Some _ => "tcp" end%string in
      named' <- dial proto (lip, 0%N) (rip, port) ;;
      match snd named' with
      | None => ret named'
      | Some _ => dialLoop sock lip port rips' named'
      end
  end.

Definition connect (sock : sockConn) (lip : net.IP) : M sockConn :=
  command <- readAll sock 4 ;;
  if negb (Byte.eqb (nth 0 command x00) protoVersion) then panic ErrorHandshake
  else
    (if Byte.eqb (nth 1 command x00) cmdConnect then ret tt
     else writeError sock repNotSupported ErrorCommand) >>
    rips <- (if Byte.eqb (nth 3 command x00) atypeIPV4 then
               rawip <- readAll sock 4 ;;
               ret [net.IPv4 (nth 0 rawip x00) (nth 1 rawip x00)
                             (nth 2 rawip x00) (nth 3 rawip x00)]
             else if Byte.eqb (nth 3 command x00) atypeIPV6 then
               ip <- readAll sock net.IPv6len ;;
               ret [ip]
             else if Byte.eqb (nth 3 command x00) atypeDomain then
               n <- readAll sock 1 ;;
               domain <- readAll sock (Byte.to_nat (nth 0 n x00)) ;;
               '(rips, err) <- resolver.LookupIP os (DNSResolver sock)
                                 (string_of_list_byte domain) ;;
               match err with
               | Some e => writeError sock repNotAddressable e
               | None => ret rips
               end
             else writeError sock repNotAddressable ErrorAddress) ;;
    portb <- readAll sock 2 ;;
    let port := Uint16 portb in
    '(rconn, err) <- dialLoop sock lip port rips (None, None) ;;
    match err with
    | Some InvalidAddrError => writeError sock repNotAddressable InvalidAddrError
    | Some e => writeError sock repFailure e
    | None => ret tt
    end >>
    rsock <- newSockConn rconn (DNSResolver sock) (Ruler sock) ;;
    writeAll sock [protoVersion; repSuccess; x00] >>
    match net.To4 lip with
    | Some lip4 => writeAll sock [atypeIPV4] >> writeAll sock lip4
    | None => writeAll sock [atypeIPV6] >> writeAll sock (net.To16 lip)
    end >>
    writeAll sock (PutUint16 port) >>
    ret rsock.

(** *** The relay loop

    [buf] is the 64 KiB array behind the slice of that name; [wbuf] is
    always a window [buf[off:]] of it, of length and capacity
    [bufSize - off], so the offset stands for it. *)

(** [wbuf[0:nr]] *)
Definition window (buf : list byte) (off nr : nat) : M (list byte) :=
  if nr <=? bufSize - off then ret (firstn nr (skipn off buf))
  else panic (runtime SliceBoundsOutOfRange).

(** [wbuf = wbuf[nr:]] *)
Definition reslice (off nr : nat) : M nat :=
  if nr <=? bufSize - off then ret (off + nr)
  else panic (runtime SliceBoundsOutOfRange).

(** [for nr > 0 { ... }].  Every turn uses up one item of the send
    script of [dst], and a write past the script is taken in full, so as
    many turns as the script has items, and one more, end the loop
    ([writeLoop_turns]). *)
Fixpoint writeLoop (turns : nat) (dst : sockConn) (buf : list byte) (off nr : nat)
  : M unit :=
  if nr =? 0 then ret tt
  else match turns with
       | 0 => ret tt
       | S turns' =>
           p <- window buf off nr ;;
           '(nw, werr) <- Write dst p ;;
           let nr := nr - nw in
           off <- reslice off nr ;;
           match werr with
           | Some e => if transient e then writeLoop turns' dst buf off nr
                       else panic e
           | None => writeLoop turns' dst buf off nr
           end
       end.

Definition sendTurns (dst : sockConn) : M nat :=
  fun w => (Ok match conn dst with
               | Some id => S (length (net.txs (get id w)))
               | None => 1
               end, w).

(** [for { nr, err := sock.Read(buf); wbuf := buf; ... }]: the loop is
    left by a panic only. *)
Fixpoint copyLoop (turns : nat) (sock dst : sockConn) (buf : list byte) : M unit :=
  match turns with
  | 0 => ret tt
  | S turns' =>
      '(data, err) <- Read sock bufSize ;;
      let buf := data ++ skipn (length data) buf in
      let nr := length data in
      wturns <- sendTurns dst ;;
      writeLoop wturns dst buf 0 nr >>
      match err with
      | Some e => if transient e then copyLoop turns' sock dst buf else panic e
      | None => copyLoop turns' sock dst buf
      end
  end.

(** Every turn of the outer loop takes an item, or [bufSize] bytes of
    one, off the receive script of [sock]: more turns than the script
    weighs see the loop panic ([copyLoop_ends], [copyLoop_turns]). *)
Fixpoint weight (script : list net.RxItem) : nat :=
  match script with
  | [] => 0
  | net.Chunk bs :: rest => S (length bs + weight rest)
  | net.RxErr _ :: rest => S (weight rest)
  end.

Definition recvTurns (sock : sockConn) (w : World) : nat :=
  match conn sock with
  | Some id => S (weight (net.rx (get id w)))
  | None => 1
  end.

Definition signal : M unit :=
  fun w => (Ok tt, mkWorld (client w) (upstream w) (ticks w) (rng w) (dialed w)
                           (S (quit w))).

(** [copyFrom]: the loop, then the deferred function.  The value
    returned is what [recover()] gave there (the source only logs it). *)
Definition copyFrom (sock dst : sockConn) : M (option error) :=
  fun w =>
    let '(r, w1) := copyLoop (recvTurns sock w) sock dst (repeat x00 bufSize) w in
    let recovered := match r with Panic e => Some e | Ok _ => None end in
    (method sock (fun c => (tt, net.CloseRead c)) tt >>
     method dst (fun c => (tt, net.CloseWrite c)) tt >>
     signal >>
     ret recovered) w1.

(** The part of [handle] that runs before the two relay goroutines are
    started. *)
Definition negotiate (sock : sockConn) (lip : net.IP) : M sockConn :=
  method sock (fun c => (tt, c)) tt >>          (* sock.conn.SetNoDelay(true) *)
  handshake sock >>
  connect sock lip.

(** [handle] as far as it runs before the relay.  [inl rsock]: the
    negotiation is done and the two relay goroutines are started next.
    [inr e]: it panicked with [e], and the deferred function has closed
    the socket and recovered. *)
Definition handleUntilRelay (sock : sockConn) (lip : net.IP) : M (sockConn + error) :=
  fun w => match negotiate sock lip w with
           | (Ok rsock, w') => (Ok (inl rsock), w')
           | (Panic e, w') =>
               (method sock (fun c => (tt, net.Close c)) tt >> ret (inr e)) w'
           end.

End Engine.
End socks.

(* ================================================================== *)
(** ** logger.go *)

Module logger.

(** The implementations of the interface [Logger]. *)
Inductive Logger : Type :=
| StdErrorLogger
| prefixLogger (prefix : string) (logger : Logger)
| nullLogger
| customLogger (name : string).

Definition NewPrefixLogger (prefix : string) (logger : Logger) : Logger :=
  prefixLogger prefix logger.

Definition DefaultLogger : Logger := NewPrefixLogger "socksv5d" StdErrorLogger.
Definition NullLogger : Logger := nullLogger.

(** Where a message ends up: the standard error stream behind
    [StdErrorLogger], or a logger of the embedding program. *)
Inductive Sink : Type := stderr | custom (name : string).

Section Output.
(** What the sink answers to a line it is given. *)
Variable answer : Sink -> Z -> string -> option error.

(** [Output(calldepth, s)]: the lines that reach a sink, and the error
    returned.  [prefixLogger] passes [fmt.Sprintf("%s - %s", prefix, s)] on
    to the logger it wraps, [nullLogger] returns nil. *)
Fixpoint Output (self : Logger) (calldepth : Z) (s : string)
  : list (Sink * Z * string) * option error :=
  match self with
  | StdErrorLogger => ([(stderr, calldepth, s)], answer stderr calldepth s)
  | customLogger name => ([(custom name, calldepth, s)], answer (custom name) calldepth s)
  | nullLogger => ([], None)
  | prefixLogger prefix logger => Output logger calldepth (prefix ++ " - " ++ s)
  end.

(** [Print], [Printf] and [Println] of [prefixLogger], on the text that
    [fmt.Sprint], [fmt.Sprintf] or [fmt.Sprintln] made of the arguments:
    [self.Output(2, text)], the error dropped. *)
Definition prefixLogger_Print (prefix : string) (logger : Logger) (text : string)
  : list (Sink * Z * string) :=
  fst (Output (prefixLogger prefix logger) 2 text).

End Output.

End logger.

(* ================================================================== *)
(** ** The server and its configuration *)

Module server.

Record server : Type := mkServer {
  running : list bool;                   (* the buffered channel, oldest first *)
  instances : Z;                         (* an int *)
  DNSResolver : resolver.DNSResolver;
  Logger : logger.Logger;
  Ruler : ruler.Ruler
}.

Definition NewServer : server :=
  mkServer [] 0 resolver.defaultResolver logger.DefaultLogger ruler.defaultRuler.

(** Arithmetic of [int] (64 bits, two's complement). *)
Definition wrap (z : Z) : Z := ((z + 2 ^ 63) mod 2 ^ 64 - 2 ^ 63)%Z.

Definition setInstances (n : Z) (self : server) : server :=
  mkServer (running self) n (DNSResolver self) (Logger self) (Ruler self).

Definition panicIfListening (self : server) : result unit :=
  if (instances self >? 0)%Z then Panic ErrorAlreadyListening else Ok tt.

Definition SetDNSResolver (resolver : resolver.DNSResolver) (self : server)
  : result unit * server :=
  match panicIfListening self with
  | Panic e => (Panic e, self)
  | Ok _ => (Ok tt, mkServer (running self) (instances self)
                             (resolver.shuffleResolver resolver)
                             (Logger self) (Ruler self))
  end.

Definition SetLogger (logger : logger.Logger) (self : server) : result unit * server :=
  match panicIfListening self with
  | Panic e => (Panic e, self)
  | Ok _ => (Ok tt, mkServer (running self) (instances self) (DNSResolver self)
                             logger (Ruler self))
  end.

Definition SetRuler (ruler : ruler.Ruler) (self : server) : result unit * server :=
  match panicIfListening self with
  | Panic e => (Panic e, self)
  | Ok _ => (Ok tt, mkServer (running self) (instances self) (DNSResolver self)
                             (Logger self) ruler)
  end.

(** What [ListenAndServe] does to the counter.  Each call owns a listener
    [l] ([true]: open, [false]: nil).  [listenOk] is whether [net.ListenTCP]
    succeeds. *)

(** The start of the call: [l, err = self.listen(...)], then
    [self.instances++].  [None]: the call returned the error. *)
Definition start (listenOk : bool) (self : server) : option (server * bool) :=
  if listenOk then Some (setInstances (wrap (instances self + 1)) self, true)
  else None.

(** [case running := <-self.running] of the [select], as far as the
    listener variable [l] and the counter go.  What [l.Close()] does to the
    goroutine that accepts on [l] is the matter of [acceptLoop]. *)
Definition onRunning (isRunning listenOk : bool) (self : server) (l : bool)
  : option (server * bool) :=
  if negb isRunning && l
  then Some (setInstances (wrap (instances self - 1)) self, false)
  else if isRunning && negb l
       then if listenOk
            then Some (setInstances (wrap (instances self + 1)) self, true)
            else None
       else Some (self, l).

(** What [l.Accept()] returns: a TCP connection, a connection of another
    kind, or an error (and then a nil connection). *)
Inductive Accepted : Type :=
| acceptedTCP (conn : net.TCPConn)
| acceptedOther
| acceptFailed (err : error).

(** [ne, ok := err.(net.Error); ok && ne.Temporary()] *)
Definition temporary (e : error) : bool :=
  match asNetError e with
  | Some (_, tmp) => tmp
  | None => false
  end.

(** The goroutine of [listen]: [for { conn, err := l.Accept(); ... }], over
    what the coming calls of [Accept] return.  [c] is what was sent on the
    channel so far, [closed] counts the connections of another kind that
    were closed.  After an error that is not temporary the type assertion
    of [conn] to a TCP connection fails on the nil connection and
    [conn.Close()] is called on it: the goroutine panics.  With the script used up the
    goroutine waits in [Accept]. *)
Fixpoint acceptLoop (script : list Accepted) (c : list net.TCPConn) (closed : nat)
  : list net.TCPConn * nat * option error :=
  match script with
  | [] => (c, closed, None)
  | acceptFailed err :: script' =>
      if temporary err then acceptLoop script' c closed
      else (c, closed, Some (runtime NilDereference))
  | acceptedOther :: script' => acceptLoop script' c (S closed)
  | acceptedTCP tconn :: script' => acceptLoop script' (c ++ [tconn]) closed
  end.

(** The accepted connection is handled with the server itself as
    resolver, logger and ruler: [newSockConn(conn, self, self, self)]. *)
Definition accepted (self : server) : socks.sockConn :=
  socks.mkSockConn (Some Client) (DNSResolver self) (Ruler self).

End server.


(* ================================================================== *)
(** * Vocabulary of the statements *)

(** The bytes a peer delivers before its first failure or its closing. *)
Fixpoint available (script : list net.RxItem) : list byte :=
  match script with
  | net.Chunk bs :: rest => bs ++ available rest
  | _ => []
  end.

(** The world after one more reading of the clock. *)
Definition tick (w : World) : World :=
  mkWorld (client w) (upstream w) (S (ticks w)) (rng w) (dialed w) (quit w).

(** The deadline [timeout()] computes in world [w]. *)
Definition deadlineAt (os : OS) (w : World) : Z :=
  (Now os (ticks w) + socks.timeoutDiff)%Z.

(** The ten bytes of a failure Reply with status [rsp]. *)
Definition failureReply (rsp : byte) : list byte :=
  [x05; rsp; x00; x01; x00; x00; x00; x00; x00; x00].

(** A view of the world that a computation leaves as it was, however the
    computation ends. *)
Definition keeps {V A} (view : World -> V) (m : M A) : Prop :=
  forall w, view (snd (m w)) = view w.

(** The slices handed to the client's [Write] so far. *)
Definition clientOut (w : World) : list (list byte) := net.out (client w).

(** Everything of the world but what reading changes: the receive scripts,
    the read deadlines and the clock. *)
Definition outside (w : World) :=
  (net.txs (client w), net.out (client w), net.wire (client w),
   net.writeDeadline (client w),
   (net.txs (upstream w), net.out (upstream w), net.wire (upstream w),
    net.writeDeadline (upstream w)),
   (rng w, dialed w, quit w)).

(** How [writeAll] ends on a connection in state [c] for a slice of [len]
    bytes: the next outcome of the send script decides. *)
Definition writeVerdict (c : net.TCPConn) (len : nat) : result unit :=
  match net.txs c with
  | [] => Ok tt
  | (_, Some e) :: _ => Panic e
  | (n, None) :: _ => if Nat.min n len =? len then Ok tt else Panic EOF
  end.

(** The world after the client socket was given [p] to write. *)
Definition written (os : OS) (p : list byte) (w : World) : World :=
  set Client
      (snd (net.Write p (net.SetWriteDeadline (deadlineAt os w) (client w))))
      (tick w).

(** The status bytes a failure Reply of the engine carries. *)
Definition statuses : list byte :=
  [socks.repFailure; socks.repNotAllowed; socks.repNotSupported;
   socks.repNotAddressable].

(** A computation that gives the client nothing, or panics having given it
    one failure Reply. *)
Definition failsProperly {A} (m : M A) : Prop :=
  forall w,
    clientOut (snd (m w)) = clientOut w \/
    (isPanic (fst (m w)) = true /\
     exists rsp, In rsp statuses /\
                 clientOut (snd (m w)) = clientOut w ++ [failureReply rsp]).

(** A computation that only ever adds to what the client was given. *)
Definition appends {A} (m : M A) : Prop :=
  forall w, exists more, clientOut (snd (m w)) = clientOut w ++ more.

(** The three ways the request phase can look from the client's side:
    nothing was sent, one failure Reply was sent and the engine panicked,
    or the success Reply was begun. *)
Definition answers {A} (m : M A) : Prop :=
  forall w,
    clientOut (snd (m w)) = clientOut w \/
    (isPanic (fst (m w)) = true /\
     exists rsp, In rsp statuses /\
                 clientOut (snd (m w)) = clientOut w ++ [failureReply rsp]) \/
    (exists more, clientOut (snd (m w)) = clientOut w ++ [x05; x00; x00] :: more).

(** The dial the closure of [connect] makes for candidate [rip]. *)
Definition attempt (lip : net.IP) (port : N) (rip : net.IP) : DialAttempt :=
  mkDial (match net.To4 rip with None => "tcp6" | Some _ => "tcp" end)
         (lip, 0%N) (rip, port).

(** The ruler's answer for candidate [rip].  The requester the engine
    passes is nil: [sock.IP()] looks for a [*net.IPAddr], and the remote
    address of a TCP connection is a [*net.TCPAddr]. *)
Definition allowed (os : OS) (sock : socks.sockConn) (rip : net.IP) : bool :=
  match ruler.ConnectionAllowed os (socks.Ruler sock) [] rip with
  | ruler.AllowConnection => true
  | ruler.DenyConnection => false
  end.

Definition dialFails (os : OS) (lip : net.IP) (port : N) (rip : net.IP) : Prop :=
  exists e, DialTCP os (dialProto (attempt lip port rip)) (lip, 0%N) (rip, port) = inr e.

(** ** A concrete deployment, for the examples

    A host with the interfaces 192.168.1.10/24 and 127.0.0.1/8.  The name
    [two.example] has the addresses 192.168.1.77 and 93.184.216.34, the name
    [down.example] the addresses 203.0.113.9 and 192.168.1.77; the lookup of
    [none.example] succeeds with no address at all, and every other name fails to
    resolve.  Nothing listens on 203.0.113.9. *)
Module example.

Definition ip (a b c d : byte) : net.IP := net.IPv4 a b c d.

Definition lan : net.IP := ip xc0 xa8 x01 x4d.          (* 192.168.1.77 *)
Definition www : net.IP := ip x5d xb8 xd8 x22.          (* 93.184.216.34 *)
Definition down : net.IP := ip xcb x00 x71 x09.         (* 203.0.113.9 *)
Definition lip : net.IP := net.IPv4zero.

Definition interfaces : list net.Addr :=
  [net.IPNetAddr (net.mkIPNet (ip xc0 xa8 x01 x0a) [xff; xff; xff; x00]);
   net.IPNetAddr (net.mkIPNet (ip x7f x00 x00 x01) [xff; x00; x00; x00])].

Definition lookup (host : string) : list net.IP * option error :=
  if String.eqb host "two.example" then ([lan; www], None)
  else if String.eqb host "down.example" then ([down; lan], None)
  else if String.eqb host "none.example" then ([], None)
  else ([], Some (otherError "no such host")).

Definition dialer (proto : string) (laddr raddr : net.IP * N) : net.TCPConn + error :=
  if net.Equal (fst raddr) down then inr (OpError false false)
  else inl (net.fresh [] [] raddr).

Definition os (nilChecked : bool) : OS :=
  mkOS (fun n => Z.of_nat n * 1000000000)%Z lookup (interfaces, None) dialer nilChecked.

(** A client from 198.51.100.7:40000 that will send [input] in one segment,
    on a healthy transport. *)
Definition clientConn (input : list byte) : net.TCPConn :=
  net.fresh [net.Chunk input] [] (ip xc6 x33 x64 x07, 40000%N).

Definition world (input : list byte) : World :=
  mkWorld (clientConn input) (net.fresh [] [] ([], 0%N)) 0 [] [] 0.

Definition sock : socks.sockConn := server.accepted server.NewServer.

(** [05 01 00 03] [len] [name] [00 50]: CONNECT to [name], port 80. *)
Definition connectTo (name : string) : list byte :=
  [x05; x01; x00; x03] ++ socks.byteOfN (N.of_nat (String.length name))
       :: list_byte_of_string name ++ [x00; x50].

(** The two sockets of a relay: the client will deliver [input], and the
    writes to the upstream side will end as [outcomes] say. *)
Definition relay (input : list net.RxItem) (outcomes : list net.TxOutcome) : World :=
  mkWorld (net.fresh input [] (ip xc6 x33 x64 x07, 40000%N))
          (net.fresh [] outcomes (www, 80%N)) 0 [] [] 0.

Definition rsock : socks.sockConn :=
  socks.mkSockConn (Some Upstream) (socks.DNSResolver sock) (socks.Ruler sock).

(** A client that stays silent: two reads in a row run into the deadline. *)
Definition stalled : World := relay [net.RxErr errTimeout; net.RxErr errTimeout] [].

(** A server with one listener open. *)
Definition busy : server.server :=
  server.mkServer [] 1 resolver.defaultResolver logger.DefaultLogger ruler.defaultRuler.

(** A world whose random source will yield [draws]. *)
Definition drawing (draws : list nat) : World :=
  mkWorld (clientConn []) (net.fresh [] [] ([], 0%N)) 0 draws [] 0.

(** A handshake offering the methods 0x01 and 0x02, then the first bytes of
    a request. *)
Definition noAuthMissing : list byte := [x05; x02; x01; x02; x05; x01].

(** BIND to an IPv6 address: [05 02 00 04], 16 address bytes, port 80. *)
Definition bindV6 : list byte :=
  [x05; x02; x00; x04] ++ repeat x00 15 ++ [x01; x00; x50].

(** A host whose clock is read every 700 seconds. *)
Definition idle : OS :=
  mkOS (fun n => Z.of_nat n * 700000000000)%Z lookup (interfaces, None) dialer true.

End example.

(** What a relay direction does not touch while it copies: what the peers
    will still deliver, and the quit channel. *)
Definition inbound (w : World) :=
  (net.rx (client w), net.rx (upstream w), quit w).

(** A computation whose panics are never a timeout or a temporary error of
    the network. *)
Definition fatalOnly {A} (m : M A) : Prop :=
  forall w, match fst (m w) with
            | Panic e => transient e = false
            | Ok _ => True
            end.

(** An interface address that does not cover the requested one: the
    default ruler compares an address with [Equal] and a network with
    [Contains], and passes over every other kind of address. *)
Definition clearOf (requested : net.IP) (a : net.Addr) : Prop :=
  match a with
  | net.IPAddr ip => net.Equal ip requested = false
  | net.IPNetAddr n => net.Contains n requested = false
  | _ => True
  end.

(** The states a server process goes through.  [ls] holds the listener of
    every call of [ListenAndServe] in progress, [true] for an open one.  A
    process runs fewer than 2^62 such calls at a time. *)
Inductive reachable : server.server -> list bool -> Prop :=
| reach_new : reachable server.NewServer []
| reach_start self ls self' l :
    reachable self ls ->
    (Z.of_nat (length ls) < 2 ^ 62)%Z ->
    server.start true self = Some (self', l) ->
    reachable self' (ls ++ [l])
| reach_running self l1 l l2 isRunning listenOk self' l' :
    reachable self (l1 ++ l :: l2) ->
    server.onRunning isRunning listenOk self l = Some (self', l') ->
    reachable self' (l1 ++ l' :: l2)
| reach_returned self l1 l l2 isRunning listenOk :
    reachable self (l1 ++ l :: l2) ->
    server.onRunning isRunning listenOk self l = None ->
    reachable self (l1 ++ l2)
| reach_resolver self ls r self' :
    reachable self ls ->
    server.SetDNSResolver r self = (Ok tt, self') ->
    reachable self' ls
| reach_logger self ls lg self' :
    reachable self ls ->
    server.SetLogger lg self = (Ok tt, self') ->
    reachable self' ls
| reach_ruler self ls ru self' :
    reachable self ls ->
    server.SetRuler ru self = (Ok tt, self') ->
    reachable self' ls.

(** The open listeners among [ls]. *)
Definition listening (ls : list bool) : Z :=
  Z.of_nat (length (filter (fun l : bool => l) ls)).

(** What one direction is to carry of a receive script: every segment up
    to the first failure that is not transient. *)
Fixpoint relayed (script : list net.RxItem) : list byte :=
  match script with
  | [] => []
  | net.Chunk bs :: rest => bs ++ relayed rest
  | net.RxErr e :: rest => if transient e then relayed rest else []
  end.

(** The lengths of the scripts of a socket, the bounds of its loops. *)
Definition recvBound (sock : socks.sockConn) (w : World) : nat :=
  match socks.conn sock with
  | Some id => length (net.rx (get id w))
  | None => 0
  end.

Definition sendBound (dst : socks.sockConn) (w : World) : nat :=
  match socks.conn dst with
  | Some id => length (net.txs (get id w))
  | None => 0
  end.

(** A receive script of segments only: the peer sends them and closes. *)
Definition segments (segs : list (list byte)) : list net.RxItem :=
  map net.Chunk segs.

(** Everything of the world but the random source. *)
Definition butRng (w : World) :=
  (client w, upstream w, ticks w, dialed w, quit w).

(** The prefixes a logger puts before a message, the outermost first, and
    the sink at the end of the chain, if there is one. *)
Fixpoint prefixes (l : logger.Logger) : list string :=
  match l with
  | logger.prefixLogger prefix inner => prefix :: prefixes inner
  | _ => []
  end.

Fixpoint sinkOf (l : logger.Logger) : option logger.Sink :=
  match l with
  | logger.prefixLogger _ inner => sinkOf inner
  | logger.StdErrorLogger => Some logger.stderr
  | logger.customLogger name => Some (logger.custom name)
  | logger.nullLogger => None
  end.

(** The text after the prefixes [ps] were put before it, one after the
    other. *)
Definition decorate (ps : list string) (s : string) : string :=
  fold_left (fun text prefix => (prefix ++ " - " ++ text)%string) ps s.

(** The TCP connections among what [Accept] returned. *)
Fixpoint tcpConns (script : list server.Accepted) : list net.TCPConn :=
  match script with
  | [] => []
  | server.acceptedTCP conn :: rest => conn :: tcpConns rest
  | _ :: rest => tcpConns rest
  end.

(** The connections of another kind among what [Accept] returned. *)
Fixpoint others (script : list server.Accepted) : nat :=
  match script with
  | [] => 0
  | server.acceptedOther :: rest => S (others rest)
  | _ :: rest => others rest
  end.

(** An outcome of [Accept] that the goroutine of [listen] gets over. *)
Definition survivable (a : server.Accepted) : Prop :=
  match a with
  | server.acceptFailed err => server.temporary err = true
  | _ => True
  end.

(** The address part of the success Reply for the local address [lip]. *)
Definition boundAddress (lip : net.IP) : list (list byte) :=
  match net.To4 lip with
  | Some lip4 => [[socks.atypeIPV4]; lip4]
  | None => [[socks.atypeIPV6]; net.To16 lip]
  end.

(** The parts of the world the direction from the client to the upstream
    side has no business with: what the upstream side delivers, what is
    written to the client, and the dials and the random source. *)
Definition reverse (w : World) :=
  (net.rx (upstream w), net.readDeadline (upstream w), net.readClosed (upstream w),
   (net.txs (client w), net.out (client w), net.wire (client w),
    net.writeDeadline (client w), net.writeClosed (client w)),
   (net.closed (client w), net.closed (upstream w), rng w, dialed w)).

(** What ends a direction on a healthy destination: the first failure of
    the receive script that is not transient, or the end of the stream. *)
Fixpoint ending (script : list net.RxItem) : error :=
  match script with
  | [] => EOF
  | net.Chunk _ :: rest => ending rest
  | net.RxErr e :: rest => if transient e then ending rest else e
  end.






(** The address classes the first test of the default ruler turns away,
    as ranges of addresses.  An IPv4 address [a.b.c.d]: 0.0.0.0,
    255.255.255.255, 127.0.0.0/8, 224.0.0.0/4 and 169.254.0.0/16. *)
Definition special4 (a b c d : byte) : Prop :=
  (a = x00 /\ b = x00 /\ c = x00 /\ d = x00) \/
  (a = xff /\ b = xff /\ c = xff /\ d = xff) \/
  a = x7f \/
  (224 <= Byte.to_N a <= 239)%N \/
  (a = xa9 /\ b = xfe).

(** An IPv6 address of sixteen bytes: [::], [::1], ff00::/8 and
    fe80::/10. *)
Definition special6 (ip : list byte) : Prop :=
  ip = repeat x00 16 \/
  ip = repeat x00 15 ++ [x01] \/
  nth 0 ip x00 = xff \/
  (nth 0 ip x00 = xfe /\ (128 <= Byte.to_N (nth 1 ip x00) <= 191)%N).

(** A value of type [net.IP] that the first test turns away: an IPv4
    address of a special class, in its form of four bytes or in its form
    of sixteen; another address of sixteen bytes of a special class; or a
    slice that is no address, of another length than four and sixteen. *)
Definition turnedAway (ip : net.IP) : Prop :=
  (exists a b c d, (ip = [a; b; c; d] \/ ip = net.IPv4 a b c d) /\ special4 a b c d) \/
  (length ip = 16 /\ firstn 12 ip <> net.v4InV6Prefix /\ special6 ip) \/
  (length ip <> 4 /\ length ip <> 16).

(** The blocks of private-use addresses: 10.0.0.0/8, 172.16.0.0/12 and
    192.168.0.0/16. *)
Definition privateUse : list net.IPNet :=
  [net.mkIPNet [x0a; x00; x00; x00] [xff; x00; x00; x00];
   net.mkIPNet [xac; x10; x00; x00] [xff; xf0; x00; x00];
   net.mkIPNet [xc0; xa8; x00; x00] [xff; xff; x00; x00]].

(** A globally routable unicast address, in the words of the
    specification: a unicast address that is, at the least, of no
    private-use block. *)
Definition globallyRoutable (ip : net.IP) : bool :=
  net.IsGlobalUnicast ip && negb (existsb (fun n => net.Contains n ip) privateUse).

(* ================================================================== *)
(** * Properties *)

(** ** The world under reads and writes *)

Lemma get_set_same id c w : get id (set id c w) = c.
Proof. destruct id; reflexivity. Qed.

Lemma set_set id c c' w : set id c' (set id c w) = set id c' w.
Proof. destruct id; reflexivity. Qed.

(** [sock.Read] is: read the clock, set the read deadline, read. *)
Lemma Read_eq os sock id k w :
  socks.conn sock = Some id ->
  socks.Read os sock k w =
    (Ok (fst (net.Read k (net.SetReadDeadline (deadlineAt os w) (get id w)))),
     set id (snd (net.Read k (net.SetReadDeadline (deadlineAt os w) (get id w))))
         (tick w)).
Proof.
  intros Hc. unfold socks.Read, socks.timeout, socks.method, bind, deadlineAt.
  rewrite Hc.
  destruct id; cbn [get set client upstream ticks rng dialed quit tick];
    destruct (net.Read k _); reflexivity.
Qed.

(** [sock.Write] is: read the clock, set the write deadline, write. *)
Lemma Write_eq os sock id b w :
  socks.conn sock = Some id ->
  socks.Write os sock b w =
    (Ok (fst (net.Write b (net.SetWriteDeadline (deadlineAt os w) (get id w)))),
     set id (snd (net.Write b (net.SetWriteDeadline (deadlineAt os w) (get id w))))
         (tick w)).
Proof.
  intros Hc. unfold socks.Write, socks.timeout, socks.method, bind, deadlineAt.
  rewrite Hc.
  destruct id; cbn [get set client upstream ticks rng dialed quit tick];
    destruct (net.Write b _); reflexivity.
Qed.

(** ** Frames *)

Lemma keeps_ret {V A} (view : World -> V) (a : A) : keeps view (ret a).
Proof. intros w. reflexivity. Qed.

Lemma keeps_panic {V A} (view : World -> V) e : keeps view (@panic A e).
Proof. intros w. reflexivity. Qed.

Lemma keeps_bind {V A B} (view : World -> V) (m : M A) (k : A -> M B) :
  keeps view m -> (forall a, keeps view (k a)) -> keeps view (bind m k).
Proof.
  intros Hm Hk w. unfold bind. specialize (Hm w).
  destruct (m w) as [[a | e] w1]; cbn [snd] in *.
  - rewrite Hk. exact Hm.
  - exact Hm.
Qed.

Lemma keeps_weaken {V V' A} (view : World -> V) (view' : World -> V') (m : M A) :
  (forall w w', view w = view w' -> view' w = view' w') ->
  keeps view m -> keeps view' m.
Proof. intros Hv Hm w. apply Hv, Hm. Qed.

Lemma outside_clientOut w w' : outside w = outside w' -> clientOut w = clientOut w'.
Proof. unfold outside, clientOut. intros H. injection H. congruence. Qed.

Lemma outside_dialed w w' : outside w = outside w' -> dialed w = dialed w'.
Proof. unfold outside. intros H. injection H. congruence. Qed.

Lemma outside_txs w w' :
  outside w = outside w' -> net.txs (client w) = net.txs (client w').
Proof. unfold outside. intros H. injection H. congruence. Qed.

Lemma keeps_timeout os : keeps outside (socks.timeout os).
Proof. intros w. reflexivity. Qed.

Lemma netRead_frame k c :
  let c' := snd (net.Read k c) in
  net.txs c' = net.txs c /\ net.out c' = net.out c /\ net.wire c' = net.wire c /\
  net.writeDeadline c' = net.writeDeadline c /\ net.readDeadline c' = net.readDeadline c.
Proof.
  unfold net.Read. destruct (net.rx c) as [|[bs | e] rest]; cbn.
  - repeat split.
  - destruct (length bs <=? k); cbn; repeat split.
  - repeat split.
Qed.

Lemma keeps_Read os sock k : keeps outside (socks.Read os sock k).
Proof.
  intros w. destruct (socks.conn sock) as [id|] eqn:Hc.
  - rewrite (Read_eq os sock id k w Hc). cbn [snd].
    destruct (netRead_frame k (net.SetReadDeadline (deadlineAt os w) (get id w)))
      as (Ht & Ho & Hw & Hd & _).
    unfold outside. destruct id; cbn [set client upstream rng dialed quit tick get] in *;
      rewrite Ht, Ho, Hw, Hd; reflexivity.
  - unfold socks.Read, socks.timeout, socks.method, bind. rewrite Hc.
    destruct (nilChecked os); reflexivity.
Qed.

Lemma keeps_ReadAtLeast os sock turns :
  forall min got, keeps outside (socks.ReadAtLeast os turns sock min got).
Proof.
  induction turns as [|turns IH]; intros min got; cbn [socks.ReadAtLeast].
  - destruct (min <=? length got); apply keeps_ret.
  - destruct (min <=? length got); [apply keeps_ret|].
    apply keeps_bind; [apply keeps_Read|].
    intros [bs [e|]]; [apply keeps_ret | apply IH].
Qed.

Lemma keeps_ReadFull os sock count : keeps outside (socks.ReadFull os sock count).
Proof.
  intros w. unfold socks.ReadFull.
  apply (keeps_bind outside); [apply keeps_ReadAtLeast|].
  intros [got err]; apply keeps_ret.
Qed.

Lemma keeps_readAll os sock count : keeps outside (socks.readAll os sock count).
Proof.
  unfold socks.readAll. apply keeps_bind; [apply keeps_ReadFull|].
  intros [got [e|]]; [destruct (isEOF e); [apply keeps_ret | apply keeps_panic]
                     | apply keeps_ret].
Qed.

(** ** Reading a whole message *)

Lemma netRead_chunk k c bs rest :
  net.rx c = net.Chunk bs :: rest ->
  net.Read k c =
    if length bs <=? k
    then ((bs, None), net.setRx rest c)
    else ((firstn k bs, None), net.setRx (net.Chunk (skipn k bs) :: rest) c).
Proof. intros H. unfold net.Read. rewrite H. reflexivity. Qed.

Lemma ReadAtLeast_done os sock turns min got w :
  min <= length got ->
  socks.ReadAtLeast os turns sock min got w = (Ok (got, None), w).
Proof.
  intros H. apply Nat.leb_le in H.
  destruct turns; cbn [socks.ReadAtLeast]; rewrite H; reflexivity.
Qed.

(** As long as the peer has delivered enough, [io.ReadAtLeast] returns the
    next bytes of the stream, however they were segmented. *)
Lemma ReadAtLeast_available os sock id :
  socks.conn sock = Some id ->
  forall turns min got w,
    length (net.rx (get id w)) < turns ->
    min <= length got + length (available (net.rx (get id w))) ->
    exists w',
      socks.ReadAtLeast os turns sock min got w =
        (Ok (got ++ firstn (min - length got) (available (net.rx (get id w))), None), w')
      /\ available (net.rx (get id w')) =
         skipn (min - length got) (available (net.rx (get id w))).
Proof.
  intros Hc. induction turns as [|turns IH]; intros min got w Hlen Hav; [lia|].
  destruct (le_lt_dec min (length got)) as [Hle | Hgt].
  - exists w. rewrite ReadAtLeast_done by exact Hle.
    replace (min - length got) with 0 by lia. cbn. rewrite app_nil_r. auto.
  - cbn [socks.ReadAtLeast].
    destruct (min <=? length got) eqn:E; [apply Nat.leb_le in E; lia|].
    unfold bind at 1. rewrite (Read_eq os sock id _ w Hc). cbn [fst snd].
    set (k := min - length got) in *.
    set (c := net.SetReadDeadline (deadlineAt os w) (get id w)).
    assert (Hrx : net.rx c = net.rx (get id w)) by reflexivity.
    destruct (net.rx (get id w)) as [|[bs | e] rest] eqn:Hs;
      cbn [available length] in Hav; try lia.
    rewrite (netRead_chunk k c bs rest Hrx).
    cbn [available]. rewrite length_app in Hav.
    destruct (length bs <=? k) eqn:Hk; cbn [fst snd].
    + apply Nat.leb_le in Hk.
      destruct (IH min (got ++ bs) (set id (net.setRx rest c) (tick w)))
        as (w' & Hrun & Hrest).
      * rewrite get_set_same. cbn. cbn in Hlen. lia.
      * rewrite get_set_same, length_app. cbn [net.setRx net.rx]. lia.
      * exists w'. rewrite Hrun. rewrite get_set_same in *. cbn [net.setRx net.rx] in *.
        rewrite length_app in *. split.
        -- rewrite firstn_app, (firstn_all2 bs) by lia. rewrite <- app_assoc.
           replace (k - length bs) with (min - (length got + length bs))
             by (unfold k; lia).
           reflexivity.
        -- rewrite Hrest. rewrite skipn_app, (skipn_all2 bs) by lia. cbn [app].
           replace (k - length bs) with (min - (length got + length bs))
             by (unfold k; lia).
           reflexivity.
    + apply Nat.leb_gt in Hk.
      exists (set id (net.setRx (net.Chunk (skipn k bs) :: rest) c) (tick w)).
      rewrite ReadAtLeast_done.
      2:{ rewrite length_app, length_firstn. lia. }
      rewrite get_set_same. cbn [net.setRx net.rx available]. split.
      * rewrite firstn_app. replace (k - length bs) with 0 by lia.
        cbn [firstn]. rewrite app_nil_r. reflexivity.
      * rewrite skipn_app. replace (k - length bs) with 0 by lia. reflexivity.
Qed.

Lemma readAll_available os sock id count w :
  socks.conn sock = Some id ->
  count <= length (available (net.rx (get id w))) ->
  exists w',
    socks.readAll os sock count w =
      (Ok (firstn count (available (net.rx (get id w)))), w')
    /\ available (net.rx (get id w')) = skipn count (available (net.rx (get id w)))
    /\ outside w' = outside w.
Proof.
  intros Hc Hav.
  pose proof (keeps_readAll os sock count w) as Hkeep.
  unfold socks.readAll, socks.ReadFull in *. rewrite Hc in *.
  destruct (ReadAtLeast_available os sock id Hc
              (S (length (net.rx (get id w)))) count [] w) as (w' & Hrun & Hrest).
  { lia. } { cbn. lia. }
  cbn [length app] in Hrun. rewrite Nat.sub_0_r in Hrun, Hrest.
  unfold bind in *. rewrite Hrun in *. cbn [ret] in *.
  assert (Hl : length (firstn count (available (net.rx (get id w)))) = count)
    by (rewrite length_firstn; lia).
  rewrite Hl in *. rewrite Nat.leb_refl in *. rewrite Nat.sub_diag in *.
  cbn [repeat] in *. rewrite app_nil_r in *.
  exists w'. auto.
Qed.

(** ** Writing to the client *)

Lemma writeAll_run os sock p w :
  socks.conn sock = Some Client ->
  socks.writeAll os sock p w = (writeVerdict (client w) (length p), written os p w).
Proof.
  intros Hc. unfold socks.writeAll, bind at 1.
  rewrite (Write_eq os sock Client p w Hc).
  unfold written, writeVerdict, net.Write. cbn [get fst snd net.SetWriteDeadline net.txs].
  destruct (net.txs (client w)) as [|[n [e|]] rest]; cbn [fst snd].
  - rewrite Nat.eqb_refl. reflexivity.
  - reflexivity.
  - destruct (Nat.min n (length p) =? length p); reflexivity.
Qed.

Lemma written_clientOut os p w : clientOut (written os p w) = clientOut w ++ [p].
Proof.
  unfold written, clientOut, net.Write. cbn.
  destruct (net.txs (client w)) as [|[n e] rest]; reflexivity.
Qed.

Lemma written_dialed os p w : dialed (written os p w) = dialed w.
Proof. reflexivity. Qed.

Lemma written_rx os p w : net.rx (client (written os p w)) = net.rx (client w).
Proof.
  unfold written, net.Write. cbn.
  destruct (net.txs (client w)) as [|[n e] rest]; reflexivity.
Qed.

Lemma writeError_run {A} os sock rsp err w :
  socks.conn sock = Some Client ->
  exists e,
    @socks.writeError os A sock rsp err w = (Panic e, written os (failureReply rsp) w)
    /\ (writeVerdict (client w) 10 = Ok tt -> e = err).
Proof.
  intros Hc. unfold socks.writeError, bind.
  rewrite (writeAll_run os sock _ w Hc).
  change (length _) with 10.
  destruct (writeVerdict (client w) 10) as [[]|e].
  - exists err. split; [reflexivity | auto].
  - exists e. split; [reflexivity | discriminate].
Qed.

Lemma existsb_zero_In (methods : list byte) :
  existsb (Byte.eqb x00) methods = true <-> In x00 methods.
Proof.
  rewrite existsb_exists. split.
  - intros (b & Hin & Hb). apply Byte.byte_dec_bl in Hb. subst. exact Hin.
  - intros Hin. exists x00. split; [exact Hin | reflexivity].
Qed.

Lemma set_get id w : set id (get id w) w = w.
Proof. destruct w, id; reflexivity. Qed.

Lemma setNoDelay_run os sock id w :
  socks.conn sock = Some id ->
  socks.method os sock (fun c => (tt, c)) tt w = (Ok tt, w).
Proof.
  intros Hc. unfold socks.method. rewrite Hc. rewrite set_get. reflexivity.
Qed.

(** ** The handshake *)

(** C7.  A complete handshake message of the supported version, that is
    the bytes [05 n m1 ... mn], is answered by its method list alone.
    Without method 0x00 in the list the server hands [05 FF] to the client
    and panics: the negotiation ends there, the handler closes the socket,
    the request bytes [rest] stay unread and nothing is dialed.  With
    method 0x00 in the list it hands [05 00] to the client, and when the
    transport takes the two bytes the handshake returns and the negotiation
    goes on with [connect] on the bytes that follow. *)
Theorem handshake_selects_method os sock lip w (n : byte) (methods rest : list byte) :
  socks.conn sock = Some Client ->
  available (net.rx (client w)) = x05 :: n :: methods ++ rest ->
  length methods = Byte.to_nat n ->
  (~ In x00 methods ->
   exists e w',
     socks.handshake os sock w = (Panic e, w') /\
     socks.negotiate os sock lip w = (Panic e, w') /\
     socks.handleUntilRelay os sock lip w
       = (Ok (inr e), set Client (net.Close (client w')) w') /\
     clientOut w' = clientOut w ++ [[x05; xff]] /\
     available (net.rx (client w')) = rest /\
     dialed w' = dialed w)
  /\
  (In x00 methods ->
   exists w',
     socks.handshake os sock w = (writeVerdict (client w) 2, w') /\
     clientOut w' = clientOut w ++ [[x05; x00]] /\
     available (net.rx (client w')) = rest /\
     (writeVerdict (client w) 2 = Ok tt ->
      socks.negotiate os sock lip w = socks.connect os sock lip w')).
Proof.
  intros Hc Hav Hlen.
  destruct (readAll_available os sock Client 2 w Hc) as (w1 & Hr1 & Ha1 & Ho1).
  { cbn [get]. rewrite Hav. cbn. lia. }
  cbn [get] in *. rewrite Hav in Hr1, Ha1. cbn [firstn skipn] in Hr1, Ha1.
  destruct (readAll_available os sock Client (Byte.to_nat n) w1 Hc)
    as (w2 & Hr2 & Ha2 & Ho2).
  { cbn [get]. rewrite Ha1, length_app. lia. }
  cbn [get] in *. rewrite Ha1, <- Hlen in Hr2, Ha2.
  rewrite firstn_app, firstn_all, Nat.sub_diag in Hr2. cbn [firstn] in Hr2.
  rewrite app_nil_r in Hr2.
  rewrite skipn_app, skipn_all, Nat.sub_diag in Ha2. cbn [skipn app] in Ha2.
  assert (Hout : clientOut w2 = clientOut w).
  { rewrite (outside_clientOut _ _ Ho2). apply outside_clientOut, Ho1. }
  assert (Hdial : dialed w2 = dialed w).
  { rewrite (outside_dialed _ _ Ho2). apply outside_dialed, Ho1. }
  assert (Htxs : net.txs (client w2) = net.txs (client w)).
  { rewrite (outside_txs _ _ Ho2). apply outside_txs, Ho1. }
  assert (Hverdict : forall len, writeVerdict (client w2) len = writeVerdict (client w) len).
  { intros len. unfold writeVerdict. rewrite Htxs. reflexivity. }
  assert (Hhs : socks.handshake os sock w =
                (if existsb (Byte.eqb x00) methods
                 then socks.writeAll os sock [x05; x00]
                 else bind (socks.writeAll os sock [x05; xff])
                           (fun _ => panic ErrorHandshake)) w2).
  { unfold socks.handshake, bind at 1. rewrite Hr1. cbn [nth].
    change (negb (Byte.eqb x05 socks.protoVersion)) with false. cbv iota.
    unfold bind at 1. rewrite <- Hlen, Hr2. reflexivity. }
  assert (Hneg : socks.negotiate os sock lip w =
                 bind (socks.handshake os sock) (fun _ => socks.connect os sock lip) w).
  { unfold socks.negotiate, bind at 1.
    rewrite (setNoDelay_run os sock Client w Hc). reflexivity. }
  split; intros Hin.
  - assert (E : existsb (Byte.eqb x00) methods = false).
    { destruct (existsb (Byte.eqb x00) methods) eqn:E; [|reflexivity].
      apply existsb_zero_In in E. contradiction. }
    rewrite E in Hhs. unfold bind in Hhs.
    rewrite (writeAll_run os sock _ w2 Hc) in Hhs.
    assert (exists e, socks.handshake os sock w = (Panic e, written os [x05; xff] w2))
      as (e & He).
    { rewrite Hhs. unfold panic. destruct (writeVerdict (client w2) _) as [[]|e]; eauto. }
    assert (Hn : socks.negotiate os sock lip w = (Panic e, written os [x05; xff] w2)).
    { rewrite Hneg. unfold bind. rewrite He. reflexivity. }
    exists e, (written os [x05; xff] w2). split; [exact He|]. split; [exact Hn|]. split.
    + unfold socks.handleUntilRelay. rewrite Hn.
      unfold bind, socks.method, ret. rewrite Hc. reflexivity.
    + rewrite written_clientOut, written_rx, written_dialed, Hout. auto.
  - apply existsb_zero_In in Hin. rewrite Hin in Hhs.
    rewrite (writeAll_run os sock _ w2 Hc) in Hhs.
    change (length [x05; x00]) with 2 in Hhs. rewrite Hverdict in Hhs.
    exists (written os [x05; x00] w2). split; [exact Hhs|]. split; [|split].
    + rewrite written_clientOut, Hout. reflexivity.
    + rewrite written_rx. exact Ha2.
    + intros Hok. rewrite Hneg. unfold bind. rewrite Hhs, Hok. reflexivity.
Qed.

Lemma handshake_selects_method_witness :
  socks.conn example.sock = Some Client /\
  available (net.rx (client (example.world example.noAuthMissing)))
    = x05 :: x02 :: [x01; x02] ++ [x05; x01] /\
  length [x01; x02] = Byte.to_nat x02 /\
  ((~ In x00 [x01; x02] ->
    exists e w',
      socks.handshake (example.os true) example.sock
                      (example.world example.noAuthMissing) = (Panic e, w') /\
      socks.negotiate (example.os true) example.sock example.lip
                      (example.world example.noAuthMissing) = (Panic e, w') /\
      socks.handleUntilRelay (example.os true) example.sock example.lip
                             (example.world example.noAuthMissing)
        = (Ok (inr e), set Client (net.Close (client w')) w') /\
      clientOut w' = clientOut (example.world example.noAuthMissing) ++ [[x05; xff]] /\
      available (net.rx (client w')) = [x05; x01] /\
      dialed w' = dialed (example.world example.noAuthMissing))
   /\
   (In x00 [x01; x02] ->
    exists w',
      socks.handshake (example.os true) example.sock
                      (example.world example.noAuthMissing)
        = (writeVerdict (client (example.world example.noAuthMissing)) 2, w') /\
      clientOut w' = clientOut (example.world example.noAuthMissing) ++ [[x05; x00]] /\
      available (net.rx (client w')) = [x05; x01] /\
      (writeVerdict (client (example.world example.noAuthMissing)) 2 = Ok tt ->
       socks.negotiate (example.os true) example.sock example.lip
                       (example.world example.noAuthMissing)
         = socks.connect (example.os true) example.sock example.lip w'))).
Proof.
  split; [reflexivity|]. split; [reflexivity|]. split; [reflexivity|].
  apply (handshake_selects_method (example.os true) example.sock example.lip
           (example.world example.noAuthMissing) x02 [x01; x02] [x05; x01]);
    reflexivity.
Defined.

(** The handshake of the specification's scenario: [05 01 00] is answered
    with [05 00]. *)
Example handshake_no_auth :
  fst (socks.handshake (example.os true) example.sock (example.world [x05; x01; x00]))
    = Ok tt /\
  clientOut (snd (socks.handshake (example.os true) example.sock
                                  (example.world [x05; x01; x00])))
    = [[x05; x00]].
Proof. split; reflexivity. Qed.

(** A message cut short is not one of the messages of C7.  When the client
    announces two methods and closes without sending them, [readAll] gets
    [io.EOF] from the first read, does not panic, and returns its zeroed
    buffer: the engine finds method 0x00 in it.  When the client sends one
    of the two, the read ends in [io.ErrUnexpectedEOF] and nothing is
    replied. *)
Example handshake_cut_short :
  socks.readAll (example.os true) example.sock 2 (example.world [])
    = (Ok [x00; x00],
       snd (socks.readAll (example.os true) example.sock 2 (example.world []))) /\
  fst (socks.handshake (example.os true) example.sock (example.world [x05; x02]))
    = Ok tt /\
  clientOut (snd (socks.handshake (example.os true) example.sock
                                  (example.world [x05; x02])))
    = [[x05; x00]] /\
  fst (socks.handshake (example.os true) example.sock (example.world [x05; x02; x01]))
    = Panic ErrUnexpectedEOF /\
  clientOut (snd (socks.handshake (example.os true) example.sock
                                  (example.world [x05; x02; x01])))
    = [].
Proof. repeat split. Qed.

(** ** What the request phase gives the client *)

Lemma failsProperly_keeps {A} (m : M A) : keeps clientOut m -> failsProperly m.
Proof. intros H w. left. apply H. Qed.

Lemma failsProperly_bind {A B} (m : M A) (k : A -> M B) :
  failsProperly m -> (forall a, failsProperly (k a)) -> failsProperly (bind m k).
Proof.
  intros Hm Hk w. unfold bind. specialize (Hm w).
  destruct (m w) as [[a | e] w1]; cbn [fst snd isPanic] in *.
  - destruct Hm as [Hm | [Hm _]]; [|discriminate].
    specialize (Hk a w1). rewrite Hm in Hk. exact Hk.
  - exact Hm.
Qed.

Lemma failsProperly_writeError {A} os sock rsp err :
  socks.conn sock = Some Client -> In rsp statuses ->
  failsProperly (@socks.writeError os A sock rsp err).
Proof.
  intros Hc Hin w. right.
  destruct (@writeError_run A os sock rsp err w Hc) as (e & Hrun & _).
  rewrite Hrun. cbn [fst snd isPanic]. split; [reflexivity|].
  exists rsp. split; [exact Hin | apply written_clientOut].
Qed.

Lemma answers_fails {A} (m : M A) : failsProperly m -> answers m.
Proof. intros H w. destruct (H w) as [H1 | H1]; auto. Qed.

Lemma answers_bind {A B} (m : M A) (k : A -> M B) :
  failsProperly m -> (forall a, answers (k a)) -> answers (bind m k).
Proof.
  intros Hm Hk w. unfold bind. specialize (Hm w).
  destruct (m w) as [[a | e] w1]; cbn [fst snd isPanic] in *.
  - destruct Hm as [Hm | [Hm _]]; [|discriminate].
    specialize (Hk a w1). rewrite Hm in Hk. exact Hk.
  - destruct Hm as [Hm | Hm]; auto.
Qed.

Lemma appends_keeps {A} (m : M A) : keeps clientOut m -> appends m.
Proof. intros H w. exists []. rewrite app_nil_r. apply H. Qed.

Lemma appends_bind {A B} (m : M A) (k : A -> M B) :
  appends m -> (forall a, appends (k a)) -> appends (bind m k).
Proof.
  intros Hm Hk w. unfold bind. destruct (Hm w) as (more & Hmore).
  destruct (m w) as [[a | e] w1]; cbn [snd] in *.
  - destruct (Hk a w1) as (more' & Hmore'). exists (more ++ more').
    rewrite Hmore', Hmore, app_assoc. reflexivity.
  - exists more. exact Hmore.
Qed.

Lemma appends_writeAll os sock p :
  socks.conn sock = Some Client -> appends (socks.writeAll os sock p).
Proof.
  intros Hc w. exists [p]. rewrite (writeAll_run os sock p w Hc).
  apply written_clientOut.
Qed.

(** Once [writeAll] was called with the head of the success Reply, the
    client has been given it, whatever follows. *)
Lemma answers_success {A} os sock (m : M A) :
  socks.conn sock = Some Client -> appends m ->
  answers (bind (socks.writeAll os sock [x05; x00; x00]) (fun _ => m)).
Proof.
  intros Hc Hm w. right. right. unfold bind.
  rewrite (writeAll_run os sock _ w Hc).
  destruct (writeVerdict (client w) _) as [[]|e]; cbn [snd].
  - destruct (Hm (written os [x05; x00; x00] w)) as (more & Hmore).
    exists more. rewrite Hmore, written_clientOut, <- app_assoc. reflexivity.
  - exists []. apply written_clientOut.
Qed.

Lemma keeps_method_id {V A} os (view : World -> V) sock (f : net.TCPConn -> A) d :
  keeps view (socks.method os sock (fun c => (f c, c)) d).
Proof.
  intros w. unfold socks.method. destruct (socks.conn sock) as [id|].
  - cbn [snd]. rewrite set_get. reflexivity.
  - destruct (nilChecked os); reflexivity.
Qed.

Lemma keeps_IP {V} os (view : World -> V) sock : keeps view (socks.IP os sock).
Proof.
  unfold socks.IP. apply keeps_bind; [apply keeps_method_id|].
  intros a. apply keeps_ret.
Qed.

Lemma keeps_newSockConn {V} os (view : World -> V) c r u :
  keeps view (socks.newSockConn os c r u).
Proof.
  unfold socks.newSockConn.
  apply keeps_bind; [apply keeps_method_id|]. intros _.
  apply keeps_bind; [apply keeps_method_id|]. intros _.
  apply keeps_ret.
Qed.

Lemma keeps_dial os proto l r : keeps clientOut (socks.dial os proto l r).
Proof.
  intros w. unfold socks.dial. destruct (DialTCP os proto l r); reflexivity.
Qed.

Lemma keeps_Intn n : keeps clientOut (Intn n).
Proof. intros w. reflexivity. Qed.

Lemma keeps_swap {V} (view : World -> V) r n addrs : keeps view (resolver.swap r n addrs).
Proof.
  unfold resolver.swap.
  destruct (nth_error addrs n), (nth_error addrs r);
    first [apply keeps_ret | apply keeps_panic].
Qed.

Lemma keeps_shuffle n : forall addrs, keeps clientOut (resolver.shuffle n addrs).
Proof.
  induction n as [|n IH]; intros addrs; [apply keeps_ret|].
  destruct n as [|n]; [apply keeps_ret|].
  change (resolver.shuffle (S (S n)) addrs)
    with (bind (Intn (S (S n) + 1))
               (fun r => bind (if r =? S (S n) then ret addrs
                               else resolver.swap r (S (S n)) addrs)
                              (fun addrs' => resolver.shuffle (S n) addrs'))).
  apply keeps_bind; [apply keeps_Intn|]. intros r.
  apply keeps_bind; [|apply IH].
  destruct (r =? S (S n)); [apply keeps_ret | apply keeps_swap].
Qed.

Lemma keeps_LookupIP os self host : keeps clientOut (resolver.LookupIP os self host).
Proof.
  induction self as [|self IH|lookup]; cbn [resolver.LookupIP].
  - apply keeps_ret.
  - apply keeps_bind; [exact IH|]. intros [addrs [e|]].
    + apply keeps_ret.
    + apply keeps_bind; [apply keeps_shuffle|]. intros a. apply keeps_ret.
  - apply keeps_ret.
Qed.

Lemma keeps_readAll_out os sock count : keeps clientOut (socks.readAll os sock count).
Proof.
  apply (keeps_weaken outside); [apply outside_clientOut | apply keeps_readAll].
Qed.

Lemma In_statuses_failure : In socks.repFailure statuses.
Proof. cbn. auto. Qed.
Lemma In_statuses_notAllowed : In socks.repNotAllowed statuses.
Proof. cbn. auto. Qed.
Lemma In_statuses_notSupported : In socks.repNotSupported statuses.
Proof. cbn. auto. Qed.
Lemma In_statuses_notAddressable : In socks.repNotAddressable statuses.
Proof. cbn. auto 6. Qed.

Lemma failsProperly_dialLoop os sock lip port rips :
  socks.conn sock = Some Client ->
  forall named, failsProperly (socks.dialLoop os sock lip port rips named).
Proof.
  intros Hc. induction rips as [|rip rips IH]; intros named; cbn [socks.dialLoop].
  - apply failsProperly_keeps, keeps_ret.
  - apply failsProperly_bind; [apply failsProperly_keeps, keeps_IP|]. intros requestee.
    apply failsProperly_bind.
    { destruct (ruler.ConnectionAllowed os (socks.Ruler sock) requestee rip).
      - apply failsProperly_writeError; [exact Hc | apply In_statuses_notAllowed].
      - apply failsProperly_keeps, keeps_ret. }
    intros _. apply failsProperly_bind; [apply failsProperly_keeps, keeps_dial|].
    intros [c [e|]]; cbn [snd]; [apply IH | apply failsProperly_keeps, keeps_ret].
Qed.

Lemma answers_connect os sock lip :
  socks.conn sock = Some Client -> answers (socks.connect os sock lip).
Proof.
  intros Hc. unfold socks.connect.
  apply answers_bind; [apply failsProperly_keeps, keeps_readAll_out|]. intros command.
  destruct (negb _); [apply answers_fails, failsProperly_keeps, keeps_panic|].
  apply answers_bind.
  { destruct (Byte.eqb _ socks.cmdConnect).
    - apply failsProperly_keeps, keeps_ret.
    - apply failsProperly_writeError; [exact Hc | apply In_statuses_notSupported]. }
  intros _. apply answers_bind.
  { destruct (Byte.eqb _ socks.atypeIPV4).
    { apply failsProperly_bind; [apply failsProperly_keeps, keeps_readAll_out|].
      intros a. apply failsProperly_keeps, keeps_ret. }
    destruct (Byte.eqb _ socks.atypeIPV6).
    { apply failsProperly_bind; [apply failsProperly_keeps, keeps_readAll_out|].
      intros a. apply failsProperly_keeps, keeps_ret. }
    destruct (Byte.eqb _ socks.atypeDomain).
    { apply failsProperly_bind; [apply failsProperly_keeps, keeps_readAll_out|].
      intros n.
      apply failsProperly_bind; [apply failsProperly_keeps, keeps_readAll_out|].
      intros domain.
      apply failsProperly_bind; [apply failsProperly_keeps, keeps_LookupIP|].
      intros [rips [e|]].
      - apply failsProperly_writeError; [exact Hc | apply In_statuses_notAddressable].
      - apply failsProperly_keeps, keeps_ret. }
    apply failsProperly_writeError; [exact Hc | apply In_statuses_notAddressable]. }
  intros rips.
  apply answers_bind; [apply failsProperly_keeps, keeps_readAll_out|]. intros portb.
  cbv zeta.
  apply answers_bind; [apply failsProperly_dialLoop, Hc|]. intros [rconn err].
  apply answers_bind.
  { destruct err as [e|]; [|apply failsProperly_keeps, keeps_ret].
    destruct e; apply failsProperly_writeError;
      first [exact Hc | apply In_statuses_failure | apply In_statuses_notAddressable]. }
  intros _.
  apply answers_bind; [apply failsProperly_keeps, keeps_newSockConn|]. intros rsock.
  apply answers_success; [exact Hc|].
  apply appends_bind.
  { destruct (net.To4 lip);
      (apply appends_bind; [apply appends_writeAll, Hc|]);
      intros _; apply appends_writeAll, Hc. }
  intros _. apply appends_bind; [apply appends_writeAll, Hc|].
  intros _. apply appends_keeps, keeps_ret.
Qed.

(** C10.  Whatever the client's request (command, address type, address)
    and whatever the resolver, the ruler and the dialer answer: when the
    first thing [connect] hands to the client is not the head [05 00 00] of
    the success Reply, it is the ten bytes [05 rsp 00 01 00 00 00 00 00 00]
    with [rsp] one of 0x01, 0x02, 0x07 and 0x08, nothing follows it, and the
    engine has panicked. *)
Theorem failure_reply_fixed_form os sock lip w (p : list byte) (ps : list (list byte)) :
  socks.conn sock = Some Client ->
  clientOut (snd (socks.connect os sock lip w)) = clientOut w ++ p :: ps ->
  p <> [x05; x00; x00] ->
  exists rsp,
    In rsp statuses /\
    p = [x05; rsp; x00; x01; x00; x00; x00; x00; x00; x00] /\
    ps = [] /\
    isPanic (fst (socks.connect os sock lip w)) = true.
Proof.
  intros Hc Hout Hp.
  destruct (answers_connect os sock lip Hc w) as [H | [(Hpanic & rsp & Hin & H) | (more & H)]];
    rewrite Hout in H.
  - exfalso. rewrite <- (app_nil_r (clientOut w)) in H at 2.
    apply app_inv_head in H. discriminate.
  - apply app_inv_head in H. injection H as -> ->.
    exists rsp. auto.
  - apply app_inv_head in H. injection H as -> _. contradiction.
Qed.

Lemma failure_reply_fixed_form_witness :
  socks.conn example.sock = Some Client /\
  clientOut (snd (socks.connect (example.os true) example.sock example.lip
                                (example.world example.bindV6)))
    = clientOut (example.world example.bindV6) ++ failureReply x07 :: [] /\
  failureReply x07 <> [x05; x00; x00] /\
  exists rsp,
    In rsp statuses /\
    failureReply x07 = [x05; rsp; x00; x01; x00; x00; x00; x00; x00; x00] /\
    @nil (list byte) = [] /\
    isPanic (fst (socks.connect (example.os true) example.sock example.lip
                                (example.world example.bindV6))) = true.
Proof.
  assert (Hout : clientOut (snd (socks.connect (example.os true) example.sock example.lip
                                               (example.world example.bindV6)))
                 = clientOut (example.world example.bindV6) ++ failureReply x07 :: [])
    by (vm_compute; reflexivity).
  assert (Hne : failureReply x07 <> [x05; x00; x00]) by discriminate.
  split; [reflexivity|]. split; [exact Hout|]. split; [exact Hne|].
  apply (failure_reply_fixed_form (example.os true) example.sock example.lip
           (example.world example.bindV6) (failureReply x07) [] eq_refl Hout Hne).
Defined.

(** The five causes, on the example host: an unsupported command, an
    unsupported address type, a name that does not resolve, a destination
    the ruler denies (the loopback scenario of the specification), and a
    destination that cannot be dialed. *)
Example failure_replies_by_cause :
  clientOut (snd (socks.connect (example.os true) example.sock example.lip
                    (example.world example.bindV6)))
    = [failureReply x07] /\
  clientOut (snd (socks.connect (example.os true) example.sock example.lip
                    (example.world [x05; x01; x00; x09; x00; x50])))
    = [failureReply x08] /\
  clientOut (snd (socks.connect (example.os true) example.sock example.lip
                    (example.world (example.connectTo "gone.example"))))
    = [failureReply x08] /\
  clientOut (snd (socks.connect (example.os true) example.sock example.lip
                    (example.world [x05; x01; x00; x01; x7f; x00; x00; x01; x00; x50])))
    = [failureReply x02] /\
  clientOut (snd (socks.connect (example.os true) example.sock example.lip
                    (example.world [x05; x01; x00; x01; xcb; x00; x71; x09; x00; x50])))
    = [failureReply x01].
Proof. repeat split; vm_compute; reflexivity. Qed.

(** And a destination that is allowed and answers: the success Reply
    carries the server's local address and the port of the request. *)
Example success_reply :
  fst (socks.connect (example.os true) example.sock example.lip
         (example.world [x05; x01; x00; x01; x5d; xb8; xd8; x22; x00; x50]))
    = Ok example.rsock /\
  clientOut (snd (socks.connect (example.os true) example.sock example.lip
         (example.world [x05; x01; x00; x01; x5d; xb8; xd8; x22; x00; x50])))
    = [[x05; x00; x00]; [x01]; [x00; x00; x00; x00]; [x00; x50]] /\
  dialed (snd (socks.connect (example.os true) example.sock example.lip
         (example.world [x05; x01; x00; x01; x5d; xb8; xd8; x22; x00; x50])))
    = [attempt example.lip 80 example.www].
Proof. repeat split; vm_compute; reflexivity. Qed.

(** ** The dial phase *)

Lemma IP_run os sock w :
  socks.conn sock = Some Client -> socks.IP os sock w = (Ok [], w).
Proof.
  intros Hc. unfold socks.IP, bind, socks.method. rewrite Hc.
  cbn [get set]. destruct w; reflexivity.
Qed.

Lemma dial_fails os lip port rip w :
  dialFails os lip port rip ->
  exists e w',
    socks.dial os (dialProto (attempt lip port rip)) (lip, 0%N) (rip, port) w
      = (Ok (None, Some e), w')
    /\ client w' = client w
    /\ dialed w' = dialed w ++ [attempt lip port rip].
Proof.
  intros (e & He). unfold socks.dial. rewrite He.
  eexists _, _. split; [reflexivity|]. split; reflexivity.
Qed.

Lemma dialLoop_denied_run os sock lip port :
  socks.conn sock = Some Client ->
  forall (pre : list net.IP) (d : net.IP) (post : list net.IP) named w,
    Forall (fun rip => allowed os sock rip = true /\ dialFails os lip port rip) pre ->
    allowed os sock d = false ->
    exists e w',
      socks.dialLoop os sock lip port (pre ++ d :: post) named w = (Panic e, w') /\
      clientOut w' = clientOut w ++ [failureReply socks.repNotAllowed] /\
      dialed w' = dialed w ++ map (attempt lip port) pre /\
      (writeVerdict (client w) 10 = Ok tt -> e = ErrorNotAllowed).
Proof.
  intros Hc. induction pre as [|rip pre IH]; intros d post named w Hpre Hd.
  - cbn [app socks.dialLoop map]. unfold bind at 1. rewrite (IP_run os sock w Hc).
    unfold allowed in Hd.
    destruct (ruler.ConnectionAllowed os (socks.Ruler sock) [] d); [|discriminate].
    unfold bind at 1.
    destruct (@writeError_run unit os sock socks.repNotAllowed ErrorNotAllowed w Hc)
      as (e & Hrun & He).
    rewrite Hrun. exists e, (written os (failureReply socks.repNotAllowed) w).
    rewrite written_clientOut, written_dialed, app_nil_r. auto.
  - inversion Hpre as [|? ? [Hallow Hfail] Hrest]; subst.
    cbn [app socks.dialLoop map]. unfold bind at 1. rewrite (IP_run os sock w Hc).
    unfold allowed in Hallow.
    destruct (ruler.ConnectionAllowed os (socks.Ruler sock) [] rip); [discriminate|].
    unfold bind at 1. cbn [ret]. unfold bind at 1.
    destruct (dial_fails os lip port rip w Hfail) as (e1 & w1 & Hdial & Hcl & Hlog).
    unfold attempt, dialProto in Hdial. rewrite Hdial. cbn [snd].
    destruct (IH d post (None, Some e1) w1 Hrest Hd) as (e & w' & Hrun & Hout & Hdials & He).
    exists e, w'. split; [exact Hrun|].
    unfold clientOut in *. rewrite Hcl in *. rewrite Hlog, <- app_assoc in Hdials.
    auto.
Qed.

(** C1, as the code has it.  The closure takes the candidates in order.
    While the candidates are allowed and their dials fail it goes on; at
    the first candidate the ruler denies it hands the client the failure
    Reply with status 0x02 and panics.  The dials made are those of the
    candidates before the denied one: it is not dialed, and the candidates
    after it are neither put to the ruler nor dialed.  With no candidate
    before it, so in particular when every candidate of the list is denied,
    nothing at all is dialed. *)
Theorem dialLoop_aborts_at_first_denied os sock lip port
        (pre : list net.IP) (d : net.IP) (post : list net.IP) named w :
  socks.conn sock = Some Client ->
  Forall (fun rip => allowed os sock rip = true /\ dialFails os lip port rip) pre ->
  allowed os sock d = false ->
  exists e w',
    socks.dialLoop os sock lip port (pre ++ d :: post) named w = (Panic e, w') /\
    clientOut w' = clientOut w ++ [failureReply socks.repNotAllowed] /\
    dialed w' = dialed w ++ map (attempt lip port) pre /\
    (writeVerdict (client w) 10 = Ok tt -> e = ErrorNotAllowed).
Proof.
  intros Hc Hpre Hd. apply dialLoop_denied_run; assumption.
Qed.

(** For a list of candidates that are all denied (and there is one), the
    Reply is 0x02 and nothing is dialed. *)
Corollary dialLoop_all_denied os sock lip port d post named w :
  socks.conn sock = Some Client ->
  Forall (fun rip => allowed os sock rip = false) (d :: post) ->
  exists e w',
    socks.dialLoop os sock lip port (d :: post) named w = (Panic e, w') /\
    clientOut w' = clientOut w ++ [failureReply socks.repNotAllowed] /\
    dialed w' = dialed w.
Proof.
  intros Hc Hall. inversion Hall; subst.
  destruct (dialLoop_denied_run os sock lip port Hc [] d post named w)
    as (e & w' & Hrun & Hout & Hdial & _); auto.
  exists e, w'. cbn [map] in Hdial. rewrite app_nil_r in Hdial. auto.
Qed.

(** The other way out of the loop: the first allowed candidate whose dial
    succeeds ends it, and the candidates after it are not looked at. *)
Lemma dialLoop_first_success os sock lip port :
  socks.conn sock = Some Client ->
  forall (pre : list net.IP) (rip : net.IP) (post : list net.IP) named w c,
    Forall (fun rip => allowed os sock rip = true /\ dialFails os lip port rip) pre ->
    allowed os sock rip = true ->
    DialTCP os (dialProto (attempt lip port rip)) (lip, 0%N) (rip, port) = inl c ->
    exists w',
      socks.dialLoop os sock lip port (pre ++ rip :: post) named w
        = (Ok (Some Upstream, None), w') /\
      upstream w' = c /\
      clientOut w' = clientOut w /\
      dialed w' = dialed w ++ map (attempt lip port) (pre ++ [rip]).
Proof.
  intros Hc. induction pre as [|cand pre IH]; intros rip post named w c Hpre Hok Hdial.
  - cbn [app socks.dialLoop map]. unfold bind at 1. rewrite (IP_run os sock w Hc).
    unfold allowed in Hok.
    destruct (ruler.ConnectionAllowed os (socks.Ruler sock) [] rip); [discriminate|].
    unfold bind at 1. cbn [ret]. unfold bind at 1, socks.dial.
    unfold attempt, dialProto in Hdial. rewrite Hdial. cbn [snd].
    eexists. split; [reflexivity|]. cbn. auto.
  - inversion Hpre as [|? ? [Hallow Hfail] Hrest]; subst.
    cbn [app socks.dialLoop map]. unfold bind at 1. rewrite (IP_run os sock w Hc).
    unfold allowed in Hallow.
    destruct (ruler.ConnectionAllowed os (socks.Ruler sock) [] cand); [discriminate|].
    unfold bind at 1. cbn [ret]. unfold bind at 1.
    destruct (dial_fails os lip port cand w Hfail) as (e1 & w1 & Hrun1 & Hcl & Hlog).
    unfold attempt, dialProto in Hrun1. rewrite Hrun1. cbn [snd].
    destruct (IH rip post (None, Some e1) w1 c Hrest Hok Hdial)
      as (w' & Hrun & Hup & Hout & Hdials).
    exists w'. split; [exact Hrun|]. split; [exact Hup|].
    unfold clientOut in *. rewrite Hcl in Hout. rewrite Hlog, <- app_assoc in Hdials.
    auto.
Qed.

(** The same, read off a run on the example host: [down.example] has an
    allowed address nobody answers on, then a denied one. *)
Lemma dialLoop_aborts_at_first_denied_witness :
  socks.conn example.sock = Some Client /\
  Forall (fun rip => allowed (example.os true) example.sock rip = true /\
                     dialFails (example.os true) example.lip 80 rip) [example.down] /\
  allowed (example.os true) example.sock example.lan = false /\
  exists e w',
    socks.dialLoop (example.os true) example.sock example.lip 80
                   ([example.down] ++ example.lan :: [example.www]) (None, None)
                   (example.world []) = (Panic e, w') /\
    clientOut w' = clientOut (example.world []) ++ [failureReply socks.repNotAllowed] /\
    dialed w' = dialed (example.world [])
                ++ map (attempt example.lip 80) [example.down] /\
    (writeVerdict (client (example.world [])) 10 = Ok tt -> e = ErrorNotAllowed).
Proof.
  assert (Hpre : Forall (fun rip => allowed (example.os true) example.sock rip = true /\
                                    dialFails (example.os true) example.lip 80 rip)
                        [example.down]).
  { constructor; [|constructor]. split; [reflexivity|].
    exists (OpError false false). reflexivity. }
  split; [reflexivity|]. split; [exact Hpre|]. split; [reflexivity|].
  apply (dialLoop_aborts_at_first_denied (example.os true) example.sock example.lip 80
           [example.down] example.lan [example.www] (None, None)
           (example.world []) eq_refl Hpre eq_refl).
Defined.

(** C1 as stated fails.  A CONNECT to [two.example], whose first address
    the default ruler denies and whose second it allows (and which can be
    dialed): the engine answers 0x02 and panics without a single dial.  The
    denied candidate was not skipped, and 0x02 was sent although not every
    candidate is denied. *)
Lemma denied_candidate_not_skipped :
  LookupHost (example.os true) "two.example" = ([example.lan; example.www], None) /\
  allowed (example.os true) example.sock example.lan = false /\
  allowed (example.os true) example.sock example.www = true /\
  (exists c, DialTCP (example.os true) "tcp" (example.lip, 0%N) (example.www, 80%N)
             = inl c) /\
  fst (socks.connect (example.os true) example.sock example.lip
                     (example.world (example.connectTo "two.example")))
    = Panic ErrorNotAllowed /\
  clientOut (snd (socks.connect (example.os true) example.sock example.lip
                                (example.world (example.connectTo "two.example"))))
    = [failureReply x02] /\
  dialed (snd (socks.connect (example.os true) example.sock example.lip
                             (example.world (example.connectTo "two.example"))))
    = [].
Proof.
  split; [reflexivity|]. split; [reflexivity|]. split; [reflexivity|].
  split; [eexists; reflexivity|].
  split; [vm_compute; reflexivity|]. split; vm_compute; reflexivity.
Qed.

(** ** A lookup without addresses *)

(** A resolver that fails makes the engine answer 0x08 and panic, with no
    dial: the bytes of the request that follow the name stay unread. *)
Lemma connect_lookup_fails :
  fst (socks.connect (example.os true) example.sock example.lip
                     (example.world (example.connectTo "gone.example")))
    = Panic (otherError "no such host") /\
  clientOut (snd (socks.connect (example.os true) example.sock example.lip
                                (example.world (example.connectTo "gone.example"))))
    = [failureReply x08] /\
  dialed (snd (socks.connect (example.os true) example.sock example.lip
                             (example.world (example.connectTo "gone.example"))))
    = [].
Proof. split; [|split]; vm_compute; reflexivity. Qed.

(** C4 fails on the code.  A CONNECT to [none.example], whose lookup
    returns no address and no error: the loop over the candidates has no
    turn, its results stay [(nil, nil)], and the engine takes the path of a
    dial that succeeded.  Where the runtime checks the nil pointer,
    [newSockConn] panics and the client is sent no Reply at all; where it
    does not, the client gets the success Reply (status 0x00).  Either way
    no Reply with status 0x04 or 0x08 is sent. *)
Theorem connect_no_candidates :
  LookupHost (example.os true) "none.example" = ([], None) /\
  fst (socks.connect (example.os true) example.sock example.lip
                     (example.world (example.connectTo "none.example")))
    = Panic (runtime NilDereference) /\
  clientOut (snd (socks.connect (example.os true) example.sock example.lip
                                (example.world (example.connectTo "none.example"))))
    = [] /\
  fst (socks.connect (example.os false) example.sock example.lip
                     (example.world (example.connectTo "none.example")))
    = Ok (socks.mkSockConn None resolver.defaultResolver ruler.defaultRuler) /\
  clientOut (snd (socks.connect (example.os false) example.sock example.lip
                                (example.world (example.connectTo "none.example"))))
    = [[x05; x00; x00]; [x01]; [x00; x00; x00; x00]; [x00; x50]] /\
  dialed (snd (socks.connect (example.os false) example.sock example.lip
                             (example.world (example.connectTo "none.example"))))
    = [].
Proof.
  split; [reflexivity|]. split; [vm_compute; reflexivity|].
  split; [vm_compute; reflexivity|].
  split; [|split]; vm_compute; reflexivity.
Qed.

(** ** The relay loop *)

Lemma bufSize_pos : 0 < socks.bufSize.
Proof. unfold socks.bufSize. apply Nat.neq_0_lt_0, Nat.pow_nonzero. discriminate. Qed.

(** The size of the buffer is 65536; the proofs only need that it is not
    zero, and never run through the number. *)
Opaque socks.bufSize.



Lemma fatalOnly_bind {A B} (m : M A) (k : A -> M B) :
  fatalOnly m -> (forall a, fatalOnly (k a)) -> fatalOnly (bind m k).
Proof.
  intros Hm Hk w. unfold bind. specialize (Hm w).
  destruct (m w) as [[a | e] w1]; cbn [fst] in *.
  - apply Hk.
  - exact Hm.
Qed.

Lemma fatalOnly_method {A} os sock (f : net.TCPConn -> A * net.TCPConn) d :
  fatalOnly (socks.method os sock f d).
Proof.
  intros w. unfold socks.method. destruct (socks.conn sock) as [id|].
  - destruct (f (get id w)). exact I.
  - destruct (nilChecked os); cbn; auto.
Qed.

Lemma fatalOnly_Read os sock k : fatalOnly (socks.Read os sock k).
Proof.
  unfold socks.Read. apply fatalOnly_bind; [intros w; exact I|]. intros t.
  apply fatalOnly_bind; [apply fatalOnly_method|]. intros _. apply fatalOnly_method.
Qed.





Lemma netWrite_rx p c : net.rx (snd (net.Write p c)) = net.rx c.
Proof.
  unfold net.Write. destruct (net.txs c) as [|[n e] rest]; reflexivity.
Qed.

Lemma keeps_Write_inbound os sock b : keeps inbound (socks.Write os sock b).
Proof.
  intros w. destruct (socks.conn sock) as [id|] eqn:Hc.
  - rewrite (Write_eq os sock id b w Hc). cbn [snd].
    pose proof (netWrite_rx b (net.SetWriteDeadline (deadlineAt os w) (get id w))) as H.
    unfold inbound.
    destruct id; cbn [set client upstream quit tick get] in *; rewrite H; reflexivity.
  - unfold socks.Write, socks.timeout, socks.method, bind. rewrite Hc.
    destruct (nilChecked os); reflexivity.
Qed.

Lemma keeps_writeLoop os dst buf turns :
  forall off nr, keeps inbound (socks.writeLoop os turns dst buf off nr).
Proof.
  induction turns as [|turns IH]; intros off nr; cbn [socks.writeLoop].
  - destruct (nr =? 0); apply keeps_ret.
  - destruct (nr =? 0); [apply keeps_ret|].
    apply keeps_bind.
    { unfold socks.window. destruct (nr <=? _); [apply keeps_ret | apply keeps_panic]. }
    intros p. apply keeps_bind; [apply keeps_Write_inbound|]. intros [nw werr].
    apply keeps_bind.
    { unfold socks.reslice. destruct (_ <=? _); [apply keeps_ret | apply keeps_panic]. }
    intros off'. destruct werr as [e|]; [|apply IH].
    destruct (transient e); [apply IH | apply keeps_panic].
Qed.

Lemma inbound_rx id w w' : inbound w = inbound w' -> net.rx (get id w) = net.rx (get id w').
Proof. unfold inbound. intros H. injection H. destruct id; cbn [get]; congruence. Qed.


(** One turn of the outer loop takes weight off the receive script. *)
Lemma netRead_weight c :
  net.rx c <> [] ->
  socks.weight (net.rx (snd (net.Read socks.bufSize c))) < socks.weight (net.rx c).
Proof.
  intros Hne. unfold net.Read. pose proof bufSize_pos as Hpos.
  destruct (net.rx c) as [|[bs | e] rest]; [contradiction| |].
  - destruct (length bs <=? socks.bufSize) eqn:E;
      cbn [snd net.setRx net.rx socks.weight].
    + lia.
    + apply Nat.leb_gt in E. rewrite length_skipn. lia.
  - cbn [snd net.setRx net.rx socks.weight]. lia.
Qed.

Lemma netRead_end k c :
  net.rx c = [] -> net.Read k c = (([], Some EOF), c).
Proof. intros H. unfold net.Read. rewrite H. reflexivity. Qed.



(** C3 fails on the code.  Ten bytes are read; the first write takes four
    of them and runs into its deadline.  The loop then computes the count
    left, six, and moves the window by that count, not by the four bytes
    written: the second write starts at the seventh byte and runs two
    bytes past the data.  The destination gets bytes 1-4, 7-10 and two
    stale bytes of the buffer; bytes 5 and 6 are lost. *)
Theorem partial_write_loses_bytes :
  net.wire (upstream (snd (socks.copyFrom (example.os true) example.sock example.rsock
      (example.relay [net.Chunk [x01; x02; x03; x04; x05; x06; x07; x08; x09; x0a]]
                     [(4, Some errTimeout)]))))
    = [x01; x02; x03; x04; x07; x08; x09; x0a; x00; x00] /\
  net.out (upstream (snd (socks.copyFrom (example.os true) example.sock example.rsock
      (example.relay [net.Chunk [x01; x02; x03; x04; x05; x06; x07; x08; x09; x0a]]
                     [(4, Some errTimeout)]))))
    = [[x01; x02; x03; x04; x05; x06; x07; x08; x09; x0a];
       [x07; x08; x09; x0a; x00; x00]].
Proof. split; vm_compute; reflexivity. Qed.

(** The same slip on a full buffer: the read fills all of [buf], the first
    write takes nothing and runs into its deadline, the window moves by the
    whole count and the next [wbuf[0:nr]] is out of range. *)
Example stalled_write_overruns_buffer :
  fst (socks.copyFrom (example.os true) example.sock example.rsock
         (example.relay [net.Chunk (repeat x01 (2 ^ 16))] [(0, Some errTimeout)]))
    = Ok (Some (runtime SliceBoundsOutOfRange)).
Proof. vm_compute. reflexivity. Qed.

(** ** Deadlines *)

Lemma netWrite_frame p c :
  net.readDeadline (snd (net.Write p c)) = net.readDeadline c /\
  net.writeDeadline (snd (net.Write p c)) = net.writeDeadline c.
Proof.
  unfold net.Write. destruct (net.txs c) as [|[n e] rest]; split; reflexivity.
Qed.

(** C6, as the code has it.  Every call of [sock.Read] sets the read
    deadline of the connection to the time of the call plus ten minutes,
    before the attempt and whatever its outcome, and leaves the write
    deadline alone; every call of [sock.Write] does the same to the write
    deadline and leaves the read deadline alone. *)
Theorem deadline_set_at_every_attempt os sock id k b w :
  socks.conn sock = Some id ->
  (net.readDeadline (get id (snd (socks.Read os sock k w))) = Some (deadlineAt os w) /\
   net.writeDeadline (get id (snd (socks.Read os sock k w)))
     = net.writeDeadline (get id w)) /\
  (net.writeDeadline (get id (snd (socks.Write os sock b w))) = Some (deadlineAt os w) /\
   net.readDeadline (get id (snd (socks.Write os sock b w)))
     = net.readDeadline (get id w)).
Proof.
  intros Hc. rewrite (Read_eq os sock id k w Hc), (Write_eq os sock id b w Hc).
  cbn [snd]. rewrite !get_set_same.
  destruct (netRead_frame k (net.SetReadDeadline (deadlineAt os w) (get id w)))
    as (_ & _ & _ & Hw & Hr).
  destruct (netWrite_frame b (net.SetWriteDeadline (deadlineAt os w) (get id w)))
    as (Hr' & Hw').
  rewrite Hw, Hr, Hr', Hw'. repeat split.
Qed.

Lemma deadline_set_at_every_attempt_witness :
  socks.conn example.sock = Some Client /\
  (net.readDeadline (get Client (snd (socks.Read example.idle example.sock 1
                                                 example.stalled)))
     = Some (deadlineAt example.idle example.stalled) /\
   net.writeDeadline (get Client (snd (socks.Read example.idle example.sock 1
                                                  example.stalled)))
     = net.writeDeadline (get Client example.stalled)) /\
  (net.writeDeadline (get Client (snd (socks.Write example.idle example.sock [x00]
                                                   example.stalled)))
     = Some (deadlineAt example.idle example.stalled) /\
   net.readDeadline (get Client (snd (socks.Write example.idle example.sock [x00]
                                                  example.stalled)))
     = net.readDeadline (get Client example.stalled)).
Proof.
  split; [reflexivity|].
  apply (deadline_set_at_every_attempt example.idle example.sock Client 1 [x00]
           example.stalled eq_refl).
Defined.

(** C6 as stated fails.  The client stays silent.  The first read, at time
    0, gets the deadline 600 s and fails with a timeout; the second read,
    at 700 s, fails as well, and has moved the deadline to 1300 s. *)
Lemma failed_read_moves_deadline :
  fst (socks.Read example.idle example.sock socks.bufSize example.stalled)
    = Ok ([], Some errTimeout) /\
  net.readDeadline (client (snd (socks.Read example.idle example.sock socks.bufSize
                                            example.stalled)))
    = Some 600000000000%Z /\
  fst (socks.Read example.idle example.sock socks.bufSize
         (snd (socks.Read example.idle example.sock socks.bufSize example.stalled)))
    = Ok ([], Some errTimeout) /\
  net.readDeadline (client (snd (socks.Read example.idle example.sock socks.bufSize
         (snd (socks.Read example.idle example.sock socks.bufSize example.stalled)))))
    = Some 1300000000000%Z.
Proof.
  split; [reflexivity|]. split; [reflexivity|]. split; reflexivity.
Qed.

(** ** The default ruler *)

Lemma scan_allows addrs requested :
  ruler.scan addrs requested = ruler.AllowConnection <->
  Forall (clearOf requested) addrs.
Proof.
  induction addrs as [|a addrs IH]; cbn [ruler.scan].
  - split; [constructor | reflexivity].
  - destruct a as [ip | n | ip port |]; cbn [ruler.scan].
    + destruct (net.Equal ip requested) eqn:E.
      * split; [discriminate|]. intros H. inversion H as [|? ? Ha _]; subst.
        cbn in Ha. congruence.
      * rewrite IH. split; [intros H; constructor; [exact E | exact H]|].
        intros H. inversion H; assumption.
    + destruct (net.Contains n requested) eqn:E.
      * split; [discriminate|]. intros H. inversion H as [|? ? Ha _]; subst.
        cbn in Ha. congruence.
      * rewrite IH. split; [intros H; constructor; [exact E | exact H]|].
        intros H. inversion H; assumption.
    + rewrite IH. split; [intros H; constructor; [exact I | exact H]|].
      intros H. inversion H; assumption.
    + rewrite IH. split; [intros H; constructor; [exact I | exact H]|].
      intros H. inversion H; assumption.
Qed.

(** The default ruler in terms of its three tests: [IsGlobalUnicast], the
    enumeration of the interfaces, and the scan of what was enumerated.
    The requester plays no part. *)
Lemma defaultRuler_tests os requestee requested :
  (ruler.ConnectionAllowed os ruler.defaultRuler requestee requested
     = ruler.AllowConnection
   <-> net.IsGlobalUnicast requested = true /\
       snd (InterfaceAddrs os) = None /\
       Forall (clearOf requested) (fst (InterfaceAddrs os)))
  /\
  (ruler.ConnectionAllowed os ruler.defaultRuler requestee requested
     = ruler.DenyConnection
   <-> ~ (net.IsGlobalUnicast requested = true /\
          snd (InterfaceAddrs os) = None /\
          Forall (clearOf requested) (fst (InterfaceAddrs os)))).
Proof.
  assert (Hallow :
    ruler.ConnectionAllowed os ruler.defaultRuler requestee requested
      = ruler.AllowConnection
    <-> net.IsGlobalUnicast requested = true /\
        snd (InterfaceAddrs os) = None /\
        Forall (clearOf requested) (fst (InterfaceAddrs os))).
  { cbn [ruler.ConnectionAllowed]. unfold ruler.defaultRuler_ConnectionAllowed.
    destruct (net.IsGlobalUnicast requested); cbn [negb].
    - destruct (InterfaceAddrs os) as [addrs [e|]]; cbn [fst snd].
      + split; [discriminate | intros (_ & H & _); discriminate].
      + rewrite scan_allows. tauto.
    - split; [discriminate | intros (H & _); discriminate]. }
  split; [exact Hallow|].
  rewrite <- Hallow.
  destruct (ruler.ConnectionAllowed os ruler.defaultRuler requestee requested);
    split; congruence.
Qed.

(** The scenario of the specification: with the default ruler a request for
    127.0.0.1 is denied, and so is an address of the local network. *)
Example loopback_is_denied :
  ruler.ConnectionAllowed (example.os true) ruler.defaultRuler []
                          (example.ip x7f x00 x00 x01) = ruler.DenyConnection /\
  ruler.ConnectionAllowed (example.os true) ruler.defaultRuler [] example.lan
    = ruler.DenyConnection /\
  ruler.ConnectionAllowed (example.os true) ruler.defaultRuler [] example.www
    = ruler.AllowConnection.
Proof. repeat split. Qed.

(** ** The configuration of the server *)

Lemma wrap_small z : (- 2 ^ 63 <= z < 2 ^ 63)%Z -> server.wrap z = z.
Proof.
  intros H. unfold server.wrap. rewrite Z.mod_small by lia. lia.
Qed.

Lemma listening_app ls ls' : listening (ls ++ ls') = (listening ls + listening ls')%Z.
Proof. unfold listening. rewrite filter_app, length_app. lia. Qed.

Lemma listening_bound ls : (0 <= listening ls <= Z.of_nat (length ls))%Z.
Proof.
  unfold listening. pose proof (filter_length_le (fun l : bool => l) ls). lia.
Qed.

(** The counter is the number of open listeners, so it is never negative. *)
Lemma reachable_instances self ls :
  reachable self ls ->
  server.instances self = listening ls /\ (Z.of_nat (length ls) <= 2 ^ 62)%Z.
Proof.
  induction 1 as [ | self ls self' l _ [IH Hb] Hlt Hstart
                 | self l1 l l2 isRunning listenOk self' l' _ [IH Hb] Hstep
                 | self l1 l l2 isRunning listenOk _ [IH Hb] Hstep
                 | self ls r self' _ [IH Hb] Hset
                 | self ls lg self' _ [IH Hb] Hset
                 | self ls ru self' _ [IH Hb] Hset ].
  - split; [reflexivity | cbn; lia].
  - unfold server.start in Hstart. injection Hstart as <- <-.
    pose proof (listening_bound ls) as Hl.
    cbn [server.setInstances server.instances].
    rewrite listening_app, length_app, wrap_small by lia.
    cbn. split; lia.
  - rewrite listening_app in IH. rewrite listening_app.
    rewrite length_app in *. cbn [length] in *.
    pose proof (listening_bound l1). pose proof (listening_bound l2).
    unfold server.onRunning in Hstep.
    destruct isRunning, l, listenOk; cbn in Hstep; inversion Hstep; subst;
      cbn [server.setInstances server.instances];
      try rewrite wrap_small by (unfold listening in *; cbn in *; lia);
      unfold listening in *; cbn in *; split; lia.
  - rewrite listening_app in IH. rewrite listening_app.
    rewrite length_app in *. cbn [length] in *.
    unfold server.onRunning in Hstep.
    destruct isRunning, l, listenOk; cbn in Hstep; try discriminate.
    unfold listening in *; cbn in *; split; lia.
  - unfold server.SetDNSResolver in Hset.
    destruct (server.panicIfListening self); inversion Hset; subst. auto.
  - unfold server.SetLogger in Hset.
    destruct (server.panicIfListening self); inversion Hset; subst. auto.
  - unfold server.SetRuler in Hset.
    destruct (server.panicIfListening self); inversion Hset; subst. auto.
Qed.

Lemma reachable_instances_nonneg self ls :
  reachable self ls -> (0 <= server.instances self)%Z.
Proof.
  intros H. destruct (reachable_instances self ls H) as [-> _].
  apply listening_bound.
Qed.

(** C9.  On a server whose counter of active instances is not zero (the
    counter counts listeners, so it is not negative), each of the three
    mutators panics with [ErrorAlreadyListening] and leaves the server as
    it was.  On a server whose counter is zero each one stores the new
    value, [SetDNSResolver] wrapped in the shuffling decorator. *)
Theorem mutators_refuse_while_listening (self : server.server) r lg ru :
  (0 <= server.instances self)%Z ->
  (server.instances self <> 0%Z ->
   server.SetDNSResolver r self = (Panic ErrorAlreadyListening, self) /\
   server.SetLogger lg self = (Panic ErrorAlreadyListening, self) /\
   server.SetRuler ru self = (Panic ErrorAlreadyListening, self))
  /\
  (server.instances self = 0%Z ->
   server.SetDNSResolver r self
     = (Ok tt, server.mkServer (server.running self) 0 (resolver.shuffleResolver r)
                               (server.Logger self) (server.Ruler self)) /\
   server.SetLogger lg self
     = (Ok tt, server.mkServer (server.running self) 0 (server.DNSResolver self)
                               lg (server.Ruler self)) /\
   server.SetRuler ru self
     = (Ok tt, server.mkServer (server.running self) 0 (server.DNSResolver self)
                               (server.Logger self) ru)).
Proof.
  intros Hnn. unfold server.SetDNSResolver, server.SetLogger, server.SetRuler,
    server.panicIfListening.
  split; intros H.
  - assert (E : (server.instances self >? 0)%Z = true) by (apply Z.gtb_lt; lia).
    rewrite E. auto.
  - rewrite H. cbn. auto.
Qed.

Lemma mutators_refuse_while_listening_witness :
  (0 <= server.instances example.busy)%Z /\
  ((server.instances example.busy <> 0%Z ->
    server.SetDNSResolver (resolver.customResolver example.lookup) example.busy
      = (Panic ErrorAlreadyListening, example.busy) /\
    server.SetLogger logger.NullLogger example.busy
      = (Panic ErrorAlreadyListening, example.busy) /\
    server.SetRuler (ruler.customRuler (fun _ _ => ruler.AllowConnection)) example.busy
      = (Panic ErrorAlreadyListening, example.busy))
   /\
   (server.instances example.busy = 0%Z ->
    server.SetDNSResolver (resolver.customResolver example.lookup) example.busy
      = (Ok tt, server.mkServer (server.running example.busy) 0
                  (resolver.shuffleResolver (resolver.customResolver example.lookup))
                  (server.Logger example.busy) (server.Ruler example.busy)) /\
    server.SetLogger logger.NullLogger example.busy
      = (Ok tt, server.mkServer (server.running example.busy) 0
                  (server.DNSResolver example.busy)
                  logger.NullLogger (server.Ruler example.busy)) /\
    server.SetRuler (ruler.customRuler (fun _ _ => ruler.AllowConnection)) example.busy
      = (Ok tt, server.mkServer (server.running example.busy) 0
                  (server.DNSResolver example.busy)
                  (server.Logger example.busy)
                  (ruler.customRuler (fun _ _ => ruler.AllowConnection))))).
Proof.
  split; [cbn; lia|].
  apply (mutators_refuse_while_listening example.busy
           (resolver.customResolver example.lookup) logger.NullLogger
           (ruler.customRuler (fun _ _ => ruler.AllowConnection))).
  cbn. lia.
Defined.

Example busy_is_reachable : reachable example.busy [true].
Proof.
  apply (reach_start server.NewServer [] example.busy true reach_new); [|reflexivity].
  cbn. lia.
Qed.

(** ** The shuffling resolver *)

(** With two addresses or more, the first turn of the loop indexes the
    slice at its length, unless the draw happens to be that very number. *)
Lemma shuffle_first_turn_panics addrs w :
  2 <= length addrs ->
  hd 0 (rng w) mod (length addrs + 1) <> length addrs ->
  fst (resolver.shuffle (length addrs) addrs w) = Panic (runtime IndexOutOfRange).
Proof.
  intros Hlen Hdraw.
  destruct (length addrs) as [|[|n]] eqn:E; [lia | lia |].
  cbn [resolver.shuffle]. unfold bind, Intn, ret. cbn beta iota.
  apply Nat.eqb_neq in Hdraw. rewrite Hdraw.
  unfold resolver.swap.
  assert (Hnone : nth_error addrs (S (S n)) = None)
    by (apply nth_error_None; lia).
  rewrite Hnone. reflexivity.
Qed.

(** Two addresses are never put in the other order: the only turn of the
    loop either panics or leaves the slice alone. *)
Lemma shuffle_pair_never_swapped (a b : net.IP) w :
  fst (resolver.shuffle 2 [a; b] w) = Panic (runtime IndexOutOfRange) \/
  fst (resolver.shuffle 2 [a; b] w) = Ok [a; b].
Proof.
  cbn [resolver.shuffle]. unfold bind, Intn, ret. cbn beta iota.
  destruct (hd 0 (rng w) mod (2 + 1) =? 2) eqn:E.
  - right. reflexivity.
  - left. unfold resolver.swap. cbn [nth_error]. reflexivity.
Qed.

(** A single address, or none, is returned as it is. *)
Lemma shuffle_short addrs w :
  length addrs <= 1 -> resolver.shuffle (length addrs) addrs w = (Ok addrs, w).
Proof.
  intros H. destruct (length addrs) as [|[|n]]; [reflexivity | reflexivity | lia].
Qed.

(** An error of the wrapped resolver comes back as it is, with the
    addresses as they are. *)
Lemma shuffleResolver_passes_errors os r host w addrs e w' :
  resolver.LookupIP os r host w = (Ok (addrs, Some e), w') ->
  resolver.LookupIP os (resolver.shuffleResolver r) host w = (Ok (addrs, Some e), w').
Proof.
  intros H. cbn [resolver.LookupIP]. unfold bind. rewrite H. reflexivity.
Qed.

(** C5 fails on the code.  The wrapped resolver returns the two addresses
    of [two.example] and the random source draws 0: the loop starts at
    [n = len(addrs) = 2] and swaps [addrs[0]] with [addrs[2]], which is out
    of range.  When the draw is 2 the slice comes back in the order it
    had. *)
Theorem shuffle_indexes_out_of_range :
  LookupHost (example.os true) "two.example" = ([example.lan; example.www], None) /\
  fst (resolver.LookupIP (example.os true)
         (resolver.shuffleResolver resolver.defaultResolver) "two.example"
         (example.drawing [0]))
    = Panic (runtime IndexOutOfRange) /\
  fst (resolver.LookupIP (example.os true)
         (resolver.shuffleResolver resolver.defaultResolver) "two.example"
         (example.drawing [2]))
    = Ok ([example.lan; example.www], None).
Proof. split; [reflexivity|]. split; reflexivity. Qed.

(** ** The bounds of the loops are never reached

    The three loops are written with a count of turns.  Any count above
    the length of the script in question gives the same run: the count
    does not cut a loop short. *)

Lemma netRead_cases k c :
  (exists e, fst (net.Read k c) = ([], Some e) /\
             length (net.rx (snd (net.Read k c))) <= length (net.rx c)) \/
  (exists bs, fst (net.Read k c) = (bs, None) /\
              S (length (net.rx (snd (net.Read k c)))) = length (net.rx c)) \/
  (exists bs, fst (net.Read k c) = (bs, None) /\ length bs = k).
Proof.
  unfold net.Read. destruct (net.rx c) as [|[bs | e] rest] eqn:Hs.
  - left. exists EOF. cbn. rewrite Hs. auto.
  - destruct (length bs <=? k) eqn:E.
    + right. left. exists bs. cbn. auto.
    + right. right. exists (firstn k bs). apply Nat.leb_gt in E.
      cbn. rewrite length_firstn. split; [reflexivity | lia].
  - left. exists e. cbn. auto.
Qed.

Lemma Read_nil os sock k w :
  socks.conn sock = None ->
  socks.Read os sock k w =
    if nilChecked os then (Panic (runtime NilDereference), tick w)
    else (Ok ([], Some socks.EINVAL), tick w).
Proof.
  intros Hc. unfold socks.Read, socks.timeout, socks.method, bind. rewrite Hc.
  destruct (nilChecked os); reflexivity.
Qed.

Lemma ReadAtLeast_turns os sock :
  forall t1 t2 min got w,
    recvBound sock w < t1 -> recvBound sock w < t2 ->
    socks.ReadAtLeast os t1 sock min got w = socks.ReadAtLeast os t2 sock min got w.
Proof.
  induction t1 as [|t1 IH]; intros t2 min got w H1 H2; [lia|].
  destruct t2 as [|t2]; [lia|].
  cbn [socks.ReadAtLeast]. destruct (min <=? length got) eqn:Emin; [reflexivity|].
  apply Nat.leb_gt in Emin. unfold bind.
  destruct (socks.conn sock) as [id|] eqn:Hc.
  - rewrite (Read_eq os sock id _ w Hc).
    set (c := net.SetReadDeadline (deadlineAt os w) (get id w)).
    assert (Hrx : net.rx c = net.rx (get id w)) by reflexivity.
    unfold recvBound in H1, H2. rewrite Hc in H1, H2. rewrite <- Hrx in H1, H2.
    destruct (netRead_cases (min - length got) c)
      as [(e & He & _) | [(bs & Hbs & Hlen) | (bs & Hbs & Hlen)]].
    + rewrite He. reflexivity.
    + rewrite Hbs. apply IH; unfold recvBound; rewrite Hc, get_set_same; lia.
    + rewrite Hbs. rewrite !ReadAtLeast_done by (rewrite length_app; lia).
      reflexivity.
  - rewrite (Read_nil os sock _ w Hc). destruct (nilChecked os); reflexivity.
Qed.

Lemma Write_nil os sock b w :
  socks.conn sock = None ->
  socks.Write os sock b w =
    if nilChecked os then (Panic (runtime NilDereference), tick w)
    else (Ok (0, Some socks.EINVAL), tick w).
Proof.
  intros Hc. unfold socks.Write, socks.timeout, socks.method, bind. rewrite Hc.
  destruct (nilChecked os); reflexivity.
Qed.

Lemma writeLoop_zero os turns dst buf off w :
  socks.writeLoop os turns dst buf off 0 w = (Ok tt, w).
Proof. destruct turns; reflexivity. Qed.

Lemma netWrite_cases p c :
  (net.txs c = [] /\ fst (net.Write p c) = (length p, None) /\
   net.txs (snd (net.Write p c)) = []) \/
  S (length (net.txs (snd (net.Write p c)))) = length (net.txs c).
Proof.
  unfold net.Write. destruct (net.txs c) as [|[n e] rest].
  - left. cbn. auto.
  - right. reflexivity.
Qed.

Lemma bind_cong {A B} (m : M A) (k1 k2 : A -> M B) w :
  (forall a w', m w = (Ok a, w') -> k1 a w' = k2 a w') ->
  bind m k1 w = bind m k2 w.
Proof.
  intros H. unfold bind. destruct (m w) as [[a | e] w']; [apply H|]; reflexivity.
Qed.

Lemma window_run buf off nr w p w' :
  length buf = socks.bufSize ->
  socks.window buf off nr w = (Ok p, w') ->
  w' = w /\ p = firstn nr (skipn off buf) /\ length p = nr /\ nr <= socks.bufSize - off.
Proof.
  intros Hbuf. unfold socks.window. destruct (nr <=? socks.bufSize - off) eqn:E;
    [|discriminate].
  apply Nat.leb_le in E. intros H. injection H as <- <-.
  rewrite length_firstn, length_skipn, Hbuf. repeat split; lia.
Qed.

Lemma reslice_run off nr w off' w' :
  socks.reslice off nr w = (Ok off', w') -> w' = w /\ off' = off + nr.
Proof.
  unfold socks.reslice. destruct (nr <=? socks.bufSize - off); [|discriminate].
  intros H. injection H as <- <-. auto.
Qed.

Lemma writeLoop_turns os dst buf :
  length buf = socks.bufSize ->
  forall t1 t2 off nr w,
    sendBound dst w < t1 -> sendBound dst w < t2 ->
    socks.writeLoop os t1 dst buf off nr w = socks.writeLoop os t2 dst buf off nr w.
Proof.
  intros Hbuf. induction t1 as [|t1 IH]; intros t2 off nr w H1 H2; [lia|].
  destruct t2 as [|t2]; [lia|].
  cbn [socks.writeLoop]. destruct (nr =? 0) eqn:Enr; [reflexivity|].
  apply bind_cong. intros p w0 Hwin.
  destruct (window_run buf off nr w p w0 Hbuf Hwin) as (-> & _ & Hp & _).
  apply bind_cong. intros [nw werr] w1 Hwrite.
  apply bind_cong. intros off' w2 Hre.
  destruct (reslice_run _ _ _ _ _ Hre) as (-> & _).
  destruct (socks.conn dst) as [id|] eqn:Hc.
  - rewrite (Write_eq os dst id p w Hc) in Hwrite.
    set (c := net.SetWriteDeadline (deadlineAt os w) (get id w)) in *.
    assert (Htx : net.txs c = net.txs (get id w)) by reflexivity.
    unfold sendBound in H1, H2. rewrite Hc in H1, H2. rewrite <- Htx in H1, H2.
    injection Hwrite as Hres <-.
    destruct (netWrite_cases p c) as [(_ & Hfull & _) | Hless].
    + rewrite Hfull in Hres. injection Hres as <- <-.
      rewrite Hp, Nat.sub_diag, !writeLoop_zero. reflexivity.
    + assert (Hb : sendBound dst (set id (snd (net.Write p c)) (tick w)) < t1 /\
                   sendBound dst (set id (snd (net.Write p c)) (tick w)) < t2).
      { unfold sendBound. rewrite Hc, get_set_same. lia. }
      destruct werr as [e|]; [destruct (transient e)|];
        first [reflexivity | apply IH; apply Hb].
  - rewrite (Write_nil os dst p w Hc) in Hwrite.
    destruct (nilChecked os); [discriminate|].
    injection Hwrite as <- <- <-. reflexivity.
Qed.

Lemma netRead_length k c : length (fst (fst (net.Read k c))) <= k.
Proof.
  unfold net.Read. destruct (net.rx c) as [|[bs | e] rest]; cbn; try lia.
  destruct (length bs <=? k) eqn:E; cbn.
  - apply Nat.leb_le in E. exact E.
  - rewrite length_firstn. lia.
Qed.

(** The array behind [buf] keeps its size under the reads into it. *)
Lemma relay_buffer_length k c buf :
  k = length buf ->
  length (fst (fst (net.Read k c)) ++ skipn (length (fst (fst (net.Read k c)))) buf)
    = length buf.
Proof.
  intros ->. pose proof (netRead_length (length buf) c).
  rewrite length_app, length_skipn. lia.
Qed.

Lemma copyLoop_turns os sock dst s :
  socks.conn sock = Some s ->
  forall t1 t2 buf w,
    socks.weight (net.rx (get s w)) < t1 -> socks.weight (net.rx (get s w)) < t2 ->
    socks.copyLoop os t1 sock dst buf w = socks.copyLoop os t2 sock dst buf w.
Proof.
  intros Hs. induction t1 as [|t1 IH]; intros t2 buf w H1 H2; [lia|].
  destruct t2 as [|t2]; [lia|].
  cbn [socks.copyLoop]. apply bind_cong. intros [data err] w1 Hread.
  rewrite (Read_eq os sock s _ w Hs) in Hread.
  set (c := net.SetReadDeadline (deadlineAt os w) (get s w)) in *.
  assert (Hrx : net.rx c = net.rx (get s w)) by reflexivity.
  injection Hread as Hres <-.
  apply bind_cong. intros wturns w2 Hturns.
  unfold socks.sendTurns in Hturns. injection Hturns as _ <-.
  apply bind_cong. intros [] w3 Hwl.
  pose proof (keeps_writeLoop os dst (data ++ skipn (length data) buf) wturns 0
                (length data) (set s (snd (net.Read socks.bufSize c)) (tick w))) as Hkeep.
  rewrite Hwl in Hkeep. cbn [snd] in Hkeep.
  assert (Hrx3 : net.rx (get s w3) = net.rx (snd (net.Read socks.bufSize c))).
  { rewrite (inbound_rx s _ _ Hkeep). apply f_equal, get_set_same. }
  destruct (net.rx (get s w)) as [|item rest] eqn:Hscript.
  - rewrite (netRead_end _ c Hrx) in Hres. injection Hres as <- <-. reflexivity.
  - assert (Hlt : socks.weight (net.rx (get s w3)) < socks.weight (item :: rest)).
    { rewrite Hrx3. rewrite <- Hrx. apply netRead_weight. rewrite Hrx. discriminate. }
    destruct err as [e|]; [destruct (transient e)|];
      first [reflexivity | apply IH; lia].
Qed.

(** ** The relay when no write is partial *)

Lemma netRead_err k c e rest :
  net.rx c = net.RxErr e :: rest -> net.Read k c = (([], Some e), net.setRx rest c).
Proof. intros H. unfold net.Read. rewrite H. reflexivity. Qed.

(** A read that fails with a timeout or a temporary error costs the loop
    one turn and nothing else: it reads again, with a deadline set anew. *)
Lemma copyLoop_retries_read os sock dst s turns buf w e rest :
  socks.conn sock = Some s ->
  net.rx (get s w) = net.RxErr e :: rest ->
  transient e = true ->
  socks.copyLoop os (S turns) sock dst buf w
    = socks.copyLoop os turns sock dst buf (snd (socks.Read os sock socks.bufSize w)).
Proof.
  intros Hs Hrx He. cbn [socks.copyLoop]. unfold bind at 1.
  rewrite (Read_eq os sock s _ w Hs).
  rewrite (netRead_err _ (net.SetReadDeadline (deadlineAt os w) (get s w)) e rest Hrx).
  cbn [fst snd length app skipn]. unfold bind at 1, socks.sendTurns.
  unfold bind at 1. rewrite writeLoop_zero. rewrite He. reflexivity.
Qed.

Lemma firstn_length_app {A} (l l' : list A) : firstn (length l) (l ++ l') = l.
Proof.
  rewrite firstn_app, Nat.sub_diag, firstn_all. cbn. apply app_nil_r.
Qed.

(** On a destination that takes every write in full, the inner loop hands
    over the bytes just read, once. *)
Lemma writeLoop_full os dst turns data rest w :
  socks.conn dst = Some Upstream ->
  net.txs (upstream w) = [] ->
  length data <= socks.bufSize ->
  0 < turns ->
  exists w',
    socks.writeLoop os turns dst (data ++ rest) 0 (length data) w = (Ok tt, w') /\
    net.wire (upstream w') = net.wire (upstream w) ++ data /\
    net.txs (upstream w') = [] /\
    client w' = client w.
Proof.
  intros Hd Htx Hlen Hturns.
  destruct data as [|b data].
  { exists w. rewrite writeLoop_zero, app_nil_r. auto. }
  destruct turns as [|turns]; [lia|].
  cbn [socks.writeLoop]. change (length (b :: data) =? 0) with false. cbv iota.
  unfold bind at 1, socks.window. rewrite Nat.sub_0_r.
  apply Nat.leb_le in Hlen. rewrite Hlen. unfold ret at 1.
  change (skipn 0 ((b :: data) ++ rest)) with ((b :: data) ++ rest).
  rewrite firstn_length_app.
  unfold bind at 1. rewrite (Write_eq os dst Upstream _ w Hd).
  unfold net.Write. cbn [get net.SetWriteDeadline net.txs]. rewrite Htx.
  cbn [fst snd]. rewrite Nat.sub_diag.
  unfold bind at 1, socks.reslice. cbn [Nat.leb]. unfold ret at 1.
  rewrite writeLoop_zero.
  eexists. split; [reflexivity|]. cbn. rewrite firstn_all. auto.
Qed.

Lemma copyLoop_relays os sock dst :
  socks.conn sock = Some Client ->
  socks.conn dst = Some Upstream ->
  forall turns buf w,
    socks.weight (net.rx (client w)) < turns ->
    net.txs (upstream w) = [] ->
    net.wire (upstream (snd (socks.copyLoop os turns sock dst buf w)))
      = net.wire (upstream w) ++ relayed (net.rx (client w)).
Proof.
  intros Hs Hd. induction turns as [|turns IH]; intros buf w Hw Htx; [lia|].
  cbn [socks.copyLoop]. unfold bind at 1. rewrite (Read_eq os sock Client _ w Hs).
  cbn [get].
  set (c := net.SetReadDeadline (deadlineAt os w) (client w)).
  assert (Hrx : net.rx c = net.rx (client w)) by reflexivity.
  pose proof (netRead_length socks.bufSize c) as Hlen.
  pose proof (netRead_weight c) as Hlt. rewrite Hrx in Hlt.
  destruct (net.Read socks.bufSize c) as [[data err] c'] eqn:Hread.
  cbn [fst snd] in *.
  set (w1 := set Client c' (tick w)).
  unfold bind at 1, socks.sendTurns. rewrite Hd. cbn [get].
  assert (Htx1 : net.txs (upstream w1) = []) by exact Htx.
  rewrite Htx1. cbn [length].
  destruct (writeLoop_full os dst 1 data (skipn (length data) buf) w1 Hd Htx1 Hlen)
    as (w2 & Hrun & Hwire & Htx2 & Hcl); [lia|].
  unfold bind at 1. rewrite Hrun.
  assert (Hwire2 : net.wire (upstream w2) = net.wire (upstream w) ++ data) by exact Hwire.
  assert (Hrx2 : net.rx (client w2) = net.rx c') by (rewrite Hcl; reflexivity).
  destruct (net.rx (client w)) as [|[bs | e] rest] eqn:Hscript.
  - rewrite (netRead_end _ c Hrx) in Hread. injection Hread as <- <- <-.
    cbn [transient asNetError]. unfold panic. cbn [snd relayed].
    rewrite Hwire2. reflexivity.
  - assert (Hgo : net.wire (upstream (snd (socks.copyLoop os turns sock dst
                     (data ++ skipn (length data) buf) w2)))
                  = net.wire (upstream w) ++ bs ++ relayed rest).
    { rewrite IH; [|rewrite Hrx2; specialize (Hlt ltac:(discriminate)); lia | exact Htx2].
      rewrite Hwire2, Hrx2, <- app_assoc. f_equal.
      rewrite (netRead_chunk _ c bs rest Hrx) in Hread.
      destruct (length bs <=? socks.bufSize); injection Hread as <- <- <-;
        cbn [net.setRx net.rx relayed].
      - reflexivity.
      - rewrite app_assoc, firstn_skipn. reflexivity. }
    cbn [relayed]. rewrite (netRead_chunk _ c bs rest Hrx) in Hread.
    assert (err = None) as -> by (destruct (length bs <=? socks.bufSize); congruence).
    exact Hgo.
  - rewrite (netRead_err _ c e rest Hrx) in Hread. injection Hread as <- <- <-.
    cbn [relayed]. destruct (transient e).
    + rewrite IH; [|rewrite Hrx2; cbn in *; specialize (Hlt ltac:(discriminate)); lia
                   | exact Htx2].
      rewrite Hwire2, Hrx2, app_nil_r. reflexivity.
    + unfold panic. cbn [snd]. rewrite Hwire2. reflexivity.
Qed.

(** On a destination that takes every write in full, a direction hands
    over the bytes of its source, all of them and in their order, up to
    the end of the stream or the first failure that is not transient. *)
Lemma copyFrom_relays_intact os sock dst w :
  socks.conn sock = Some Client ->
  socks.conn dst = Some Upstream ->
  net.txs (upstream w) = [] ->
  net.wire (upstream (snd (socks.copyFrom os sock dst w)))
    = net.wire (upstream w) ++ relayed (net.rx (client w)).
Proof.
  intros Hs Hd Htx. unfold socks.copyFrom, socks.recvTurns. rewrite Hs. cbn [get].
  pose proof (copyLoop_relays os sock dst Hs Hd
                (S (socks.weight (net.rx (client w)))) (repeat x00 socks.bufSize) w
                (Nat.lt_succ_diag_r _) Htx) as Hrel.
  destruct (socks.copyLoop os _ sock dst _ w) as [r w1]. cbn [snd] in Hrel.
  unfold bind, socks.method, socks.signal, ret. rewrite Hs, Hd.
  cbn. exact Hrel.
Qed.

(* ================================================================== *)
(** * Further properties of the package *)

(** ** [readAll] *)

Lemma Read_length os sock k w bs err w' :
  socks.Read os sock k w = (Ok (bs, err), w') -> length bs <= k.
Proof.
  destruct (socks.conn sock) as [id|] eqn:Hc.
  - rewrite (Read_eq os sock id k w Hc). intros H. injection H as H _.
    pose proof (netRead_length k (net.SetReadDeadline (deadlineAt os w) (get id w))) as Hl.
    rewrite H in Hl. exact Hl.
  - rewrite (Read_nil os sock k w Hc). destruct (nilChecked os); [discriminate|].
    intros H. injection H as <- _ _. cbn. lia.
Qed.

Lemma ReadAtLeast_length os sock :
  forall turns min got w got' err w',
    length got <= min ->
    socks.ReadAtLeast os turns sock min got w = (Ok (got', err), w') ->
    length got' <= min.
Proof.
  induction turns as [|turns IH]; intros min got w got' err w' Hlen; cbn [socks.ReadAtLeast].
  - destruct (min <=? length got); intros H; injection H as <- _ _; exact Hlen.
  - destruct (min <=? length got) eqn:E.
    { intros H; injection H as <- _ _; exact Hlen. }
    apply Nat.leb_gt in E. unfold bind.
    destruct (socks.Read os sock (min - length got) w) as [[[bs e] | e] w1] eqn:Hread;
      [|discriminate].
    pose proof (Read_length os sock _ w bs e w1 Hread) as Hbs.
    destruct e as [e|].
    + intros H. injection H as <- _ _. rewrite length_app. lia.
    + apply IH. rewrite length_app. lia.
Qed.

Lemma readAll_length os sock count w rv w' :
  socks.readAll os sock count w = (Ok rv, w') -> length rv = count.
Proof.
  unfold socks.readAll, socks.ReadFull, bind.
  destruct (socks.ReadAtLeast os _ sock count [] w) as [[[got err] | e] w1] eqn:Hrun;
    [|discriminate].
  assert (Hgot : length got <= count).
  { eapply (ReadAtLeast_length os sock); [|exact Hrun]. cbn; lia. }
  cbn [ret].
  assert (Hrv : length (got ++ repeat x00 (count - length got)) = count).
  { rewrite length_app, repeat_length. lia. }
  destruct (count <=? length got).
  - intros H. injection H as <- _. exact Hrv.
  - destruct err as [e|].
    + destruct ((0 <? length got) && isEOF e).
      * cbn. discriminate.
      * destruct (isEOF e); [|discriminate]. intros H. injection H as <- _. exact Hrv.
    + intros H. injection H as <- _. exact Hrv.
Qed.

(** X1.  Whenever [readAll] returns, the slice it returns has exactly the
    [count] bytes asked for: the callers index it without a check. *)
Theorem readAll_returns_count os sock count w rv w' :
  socks.readAll os sock count w = (Ok rv, w') -> length rv = count.
Proof. apply readAll_length. Qed.

Lemma readAll_returns_count_witness :
  socks.readAll (example.os true) example.sock 4 (example.world [x05; x01; x00; x01; x7f])
    = (Ok [x05; x01; x00; x01],
       snd (socks.readAll (example.os true) example.sock 4
                          (example.world [x05; x01; x00; x01; x7f]))) /\
  length [x05; x01; x00; x01] = 4.
Proof.
  split; [reflexivity|].
  apply (readAll_returns_count (example.os true) example.sock 4
           (example.world [x05; x01; x00; x01; x7f]) [x05; x01; x00; x01]
           (snd (socks.readAll (example.os true) example.sock 4
                               (example.world [x05; x01; x00; x01; x7f])))).
  reflexivity.
Defined.

(** When the stream starts with the bytes [bs], [readAll] of their number
    returns them and leaves what follows. *)
Lemma readAll_stream os sock id bs rest w :
  socks.conn sock = Some id ->
  available (net.rx (get id w)) = bs ++ rest ->
  exists w',
    socks.readAll os sock (length bs) w = (Ok bs, w') /\
    available (net.rx (get id w')) = rest /\
    outside w' = outside w.
Proof.
  intros Hc Hav.
  destruct (readAll_available os sock id (length bs) w Hc) as (w' & Hrun & Hrest & Hout).
  { rewrite Hav, length_app. lia. }
  rewrite Hav in Hrun, Hrest.
  rewrite firstn_app, firstn_all, Nat.sub_diag in Hrun. cbn [firstn] in Hrun.
  rewrite app_nil_r in Hrun.
  rewrite skipn_app, skipn_all, Nat.sub_diag in Hrest. cbn [skipn app] in Hrest.
  exists w'. auto.
Qed.

(** X2.  [readAll] reads the stream, not the segments: as long as the peer
    has delivered [count] bytes before its first failure, they are what is
    returned, however the transport cut them up; the bytes after them stay
    for the next read, and nothing but the receiving side of the socket and
    the clock has changed. *)
Theorem readAll_ignores_segmentation os sock id count w :
  socks.conn sock = Some id ->
  count <= length (available (net.rx (get id w))) ->
  exists w',
    socks.readAll os sock count w
      = (Ok (firstn count (available (net.rx (get id w)))), w') /\
    available (net.rx (get id w')) = skipn count (available (net.rx (get id w))) /\
    outside w' = outside w.
Proof. apply readAll_available. Qed.

Lemma readAll_ignores_segmentation_witness :
  socks.conn example.sock = Some Client /\
  3 <= length (available (net.rx (get Client
         (example.relay [net.Chunk [x05]; net.Chunk []; net.Chunk [x01; x00; x03];
                         net.RxErr errTimeout] [])))) /\
  exists w',
    socks.readAll (example.os true) example.sock 3
       (example.relay [net.Chunk [x05]; net.Chunk []; net.Chunk [x01; x00; x03];
                       net.RxErr errTimeout] [])
      = (Ok (firstn 3 (available (net.rx (get Client
             (example.relay [net.Chunk [x05]; net.Chunk []; net.Chunk [x01; x00; x03];
                             net.RxErr errTimeout] []))))), w') /\
    available (net.rx (get Client w'))
      = skipn 3 (available (net.rx (get Client
             (example.relay [net.Chunk [x05]; net.Chunk []; net.Chunk [x01; x00; x03];
                             net.RxErr errTimeout] [])))) /\
    outside w'
      = outside (example.relay [net.Chunk [x05]; net.Chunk []; net.Chunk [x01; x00; x03];
                                net.RxErr errTimeout] []).
Proof.
  split; [reflexivity|]. split; [cbn; lia|].
  apply (readAll_ignores_segmentation (example.os true) example.sock Client 3
           (example.relay [net.Chunk [x05]; net.Chunk []; net.Chunk [x01; x00; x03];
                           net.RxErr errTimeout] []) eq_refl).
  cbn. lia.
Defined.

Lemma firstn_add {A} (a b : nat) (l : list A) :
  firstn (a + b) l = firstn a l ++ firstn b (skipn a l).
Proof.
  revert l. induction a as [|a IH]; intros l; [reflexivity|].
  destruct l as [|x l]; cbn.
  - rewrite firstn_nil. reflexivity.
  - rewrite IH. reflexivity.
Qed.

(** X3.  Two reads in a row return what one read of both counts returns,
    piece after piece, and leave the same stream behind. *)
Theorem readAll_twice os sock id a b w :
  socks.conn sock = Some id ->
  a + b <= length (available (net.rx (get id w))) ->
  exists x y w1 w2 w12,
    socks.readAll os sock a w = (Ok x, w1) /\
    socks.readAll os sock b w1 = (Ok y, w2) /\
    socks.readAll os sock (a + b) w = (Ok (x ++ y), w12) /\
    available (net.rx (get id w2)) = available (net.rx (get id w12)).
Proof.
  intros Hc Hav.
  destruct (readAll_available os sock id a w Hc) as (w1 & H1 & R1 & _); [lia|].
  destruct (readAll_available os sock id b w1 Hc) as (w2 & H2 & R2 & _).
  { rewrite R1, length_skipn. lia. }
  destruct (readAll_available os sock id (a + b) w Hc) as (w12 & H12 & R12 & _); [lia|].
  rewrite R1 in H2, R2. rewrite skipn_skipn in R2.
  rewrite firstn_add in H12.
  eexists _, _, w1, w2, w12. split; [exact H1|]. split; [exact H2|].
  split; [exact H12|]. rewrite R2, R12. f_equal. lia.
Qed.

Lemma readAll_twice_witness :
  socks.conn example.sock = Some Client /\
  2 + 4 <= length (available (net.rx (get Client
                      (example.world [x05; x01; x00; x05; x01; x00; x01])))) /\
  exists x y w1 w2 w12,
    socks.readAll (example.os true) example.sock 2
                  (example.world [x05; x01; x00; x05; x01; x00; x01]) = (Ok x, w1) /\
    socks.readAll (example.os true) example.sock 4 w1 = (Ok y, w2) /\
    socks.readAll (example.os true) example.sock (2 + 4)
                  (example.world [x05; x01; x00; x05; x01; x00; x01])
      = (Ok (x ++ y), w12) /\
    available (net.rx (get Client w2)) = available (net.rx (get Client w12)).
Proof.
  split; [reflexivity|]. split; [cbn; lia|].
  apply (readAll_twice (example.os true) example.sock Client 2 4
           (example.world [x05; x01; x00; x05; x01; x00; x01]) eq_refl).
  cbn. lia.
Defined.

(** X4.  The end of the stream before the first byte is no failure for
    [readAll]: it returns its buffer as it was made, [count] zero bytes. *)
Theorem readAll_at_end_of_stream os sock id count w :
  socks.conn sock = Some id ->
  net.rx (get id w) = [] ->
  exists w', socks.readAll os sock count w = (Ok (repeat x00 count), w').
Proof.
  intros Hc Hrx. unfold socks.readAll, socks.ReadFull, bind. rewrite Hc, Hrx.
  cbn [length socks.ReadAtLeast].
  destruct count as [|count].
  - cbn. eexists. reflexivity.
  - cbn [Nat.leb]. unfold bind. rewrite (Read_eq os sock id _ w Hc).
    rewrite netRead_end by exact Hrx. cbn. eexists. reflexivity.
Qed.

Lemma readAll_at_end_of_stream_witness :
  socks.conn example.sock = Some Client /\
  net.rx (get Client (example.relay [] [])) = [] /\
  exists w', socks.readAll (example.os true) example.sock 4 (example.relay [] [])
             = (Ok (repeat x00 4), w').
Proof.
  split; [reflexivity|]. split; [reflexivity|].
  apply (readAll_at_end_of_stream (example.os true) example.sock Client 4
           (example.relay [] []) eq_refl eq_refl).
Defined.

Lemma ReadAtLeast_short os sock id :
  socks.conn sock = Some id ->
  forall segs turns min got w,
    net.rx (get id w) = segments segs ->
    length segs < turns ->
    length got + length (concat segs) < min ->
    exists w',
      socks.ReadAtLeast os turns sock min got w = (Ok (got ++ concat segs, Some EOF), w').
Proof.
  intros Hc. induction segs as [|seg segs IH]; intros turns min got w Hrx Hturns Hlen;
    (destruct turns as [|turns]; [cbn in Hturns; lia|]);
    cbn [socks.ReadAtLeast concat length] in *;
    (destruct (min <=? length got) eqn:E; [apply Nat.leb_le in E; lia|]);
    unfold bind; rewrite (Read_eq os sock id _ w Hc).
  - rewrite netRead_end by exact Hrx. cbn. eexists. reflexivity.
  - rewrite length_app in Hlen.
    rewrite (netRead_chunk _ _ seg (segments segs)) by exact Hrx.
    assert (Hk : (length seg <=? min - length got) = true) by (apply Nat.leb_le; lia).
    rewrite Hk. cbn [fst snd].
    destruct (IH turns min (got ++ seg)
                (set id (net.setRx (segments segs)
                           (net.SetReadDeadline (deadlineAt os w) (get id w))) (tick w)))
      as (w' & Hrun).
    + rewrite get_set_same. reflexivity.
    + lia.
    + rewrite length_app. lia.
    + exists w'. rewrite Hrun, <- app_assoc. reflexivity.
Qed.

(** X5.  A stream that ends after some, but not all, of the bytes asked
    for makes [readAll] panic with [io.ErrUnexpectedEOF]. *)
Theorem readAll_short_stream os sock id segs count w :
  socks.conn sock = Some id ->
  net.rx (get id w) = segments segs ->
  0 < length (concat segs) < count ->
  exists w', socks.readAll os sock count w = (Panic ErrUnexpectedEOF, w').
Proof.
  intros Hc Hrx [Hpos Hlt]. unfold socks.readAll, socks.ReadFull, bind. rewrite Hc.
  destruct (ReadAtLeast_short os sock id Hc segs (S (length (net.rx (get id w))))
              count [] w Hrx) as (w' & Hrun).
  { rewrite Hrx. unfold segments. rewrite length_map. lia. }
  { cbn. lia. }
  rewrite Hrun. cbn [app ret].
  assert (E1 : (count <=? length (concat segs)) = false) by (apply Nat.leb_gt; lia).
  assert (E2 : (0 <? length (concat segs)) = true) by (apply Nat.ltb_lt; lia).
  rewrite E1, E2. cbn. eexists. reflexivity.
Qed.

Lemma readAll_short_stream_witness :
  socks.conn example.sock = Some Client /\
  net.rx (get Client (example.relay [net.Chunk [x05]; net.Chunk [x01; x00]] []))
    = segments [[x05]; [x01; x00]] /\
  0 < length (concat [[x05]; [x01; x00]]) < 4 /\
  exists w', socks.readAll (example.os true) example.sock 4
               (example.relay [net.Chunk [x05]; net.Chunk [x01; x00]] [])
             = (Panic ErrUnexpectedEOF, w').
Proof.
  split; [reflexivity|]. split; [reflexivity|]. split; [cbn; lia|].
  apply (readAll_short_stream (example.os true) example.sock Client [[x05]; [x01; x00]] 4
           (example.relay [net.Chunk [x05]; net.Chunk [x01; x00]] []) eq_refl eq_refl).
  cbn. lia.
Defined.

(** ** The handshake and the request *)

Lemma eqb_neq (a b : byte) : a <> b -> Byte.eqb a b = false.
Proof.
  intros H. destruct (Byte.eqb a b) eqn:E; [|reflexivity].
  apply Byte.byte_dec_bl in E. contradiction.
Qed.

(** X6.  A handshake of another protocol version is not answered: the
    engine panics with [ErrorHandshake] after the first two bytes, having
    written nothing and dialed nothing. *)
Theorem handshake_wrong_version os sock w (v n : byte) (rest : list byte) :
  socks.conn sock = Some Client ->
  available (net.rx (client w)) = v :: n :: rest ->
  v <> x05 ->
  exists w',
    socks.handshake os sock w = (Panic ErrorHandshake, w') /\
    clientOut w' = clientOut w /\
    available (net.rx (client w')) = rest /\
    dialed w' = dialed w.
Proof.
  intros Hc Hav Hv.
  destruct (readAll_stream os sock Client [v; n] rest w Hc Hav) as (w1 & Hr & Ha & Ho).
  cbn [length get] in *. exists w1.
  unfold socks.handshake, bind. rewrite Hr. cbn [nth].
  unfold socks.protoVersion. rewrite (eqb_neq v x05 Hv). cbn [negb].
  split; [reflexivity|]. split; [symmetry; apply outside_clientOut; auto|].
  split; [exact Ha|]. symmetry; apply outside_dialed; auto.
Qed.

Lemma handshake_wrong_version_witness :
  socks.conn example.sock = Some Client /\
  available (net.rx (client (example.world [x04; x01; x00; x50]))) = x04 :: x01 :: [x00; x50] /\
  x04 <> x05 /\
  exists w',
    socks.handshake (example.os true) example.sock (example.world [x04; x01; x00; x50])
      = (Panic ErrorHandshake, w') /\
    clientOut w' = clientOut (example.world [x04; x01; x00; x50]) /\
    available (net.rx (client w')) = [x00; x50] /\
    dialed w' = dialed (example.world [x04; x01; x00; x50]).
Proof.
  assert (Hv : x04 <> x05) by discriminate.
  split; [reflexivity|]. split; [reflexivity|]. split; [exact Hv|].
  apply (handshake_wrong_version (example.os true) example.sock
           (example.world [x04; x01; x00; x50]) x04 x01 [x00; x50] eq_refl eq_refl Hv).
Defined.

Lemma bind_ok {A B} (m : M A) (k : A -> M B) w a w' :
  m w = (Ok a, w') -> bind m k w = k a w'.
Proof. intros H. unfold bind. rewrite H. reflexivity. Qed.

Lemma bind_panic {A B} (m : M A) (k : A -> M B) w e w' :
  m w = (Panic e, w') -> bind m k w = (Panic e, w').
Proof. intros H. unfold bind. rewrite H. reflexivity. Qed.

Lemma writeVerdict_outside w w' len :
  outside w' = outside w -> writeVerdict (client w') len = writeVerdict (client w) len.
Proof. intros H. unfold writeVerdict. rewrite (outside_txs _ _ H). reflexivity. Qed.

(** The first four bytes of a request of version 5, read. *)
Lemma connect_header os sock w (cmd rsv atyp : byte) rest :
  socks.conn sock = Some Client ->
  available (net.rx (client w)) = x05 :: cmd :: rsv :: atyp :: rest ->
  exists w1,
    socks.readAll os sock 4 w = (Ok [x05; cmd; rsv; atyp], w1) /\
    available (net.rx (client w1)) = rest /\
    outside w1 = outside w.
Proof.
  intros Hc Hav.
  apply (readAll_stream os sock Client [x05; cmd; rsv; atyp] rest w Hc Hav).
Qed.

(** X7.  A request for another command than CONNECT is answered with the
    failure Reply of status 0x07 and the engine panics, with
    [ErrorCommand] when the Reply could be written: the rest of the
    request stays unread and nothing is dialed. *)
Theorem connect_unsupported_command os sock lip w (cmd rsv atyp : byte) rest :
  socks.conn sock = Some Client ->
  available (net.rx (client w)) = x05 :: cmd :: rsv :: atyp :: rest ->
  cmd <> x01 ->
  exists e w',
    socks.connect os sock lip w = (Panic e, w') /\
    clientOut w' = clientOut w ++ [failureReply x07] /\
    available (net.rx (client w')) = rest /\
    dialed w' = dialed w /\
    (writeVerdict (client w) 10 = Ok tt -> e = ErrorCommand).
Proof.
  intros Hc Hav Hcmd.
  destruct (connect_header os sock w cmd rsv atyp rest Hc Hav) as (w1 & Hr & Ha & Ho).
  destruct (@writeError_run unit os sock socks.repNotSupported ErrorCommand w1 Hc)
    as (e & Hrun & He).
  exists e, (written os (failureReply socks.repNotSupported) w1).
  split.
  - unfold socks.connect. rewrite (bind_ok _ _ _ _ _ Hr). cbn [nth].
    change (negb (Byte.eqb x05 socks.protoVersion)) with false. cbv iota.
    unfold socks.cmdConnect. rewrite (eqb_neq cmd x01 Hcmd).
    apply bind_panic. exact Hrun.
  - rewrite written_clientOut, written_rx, written_dialed.
    rewrite (outside_clientOut _ _ Ho), (outside_dialed _ _ Ho).
    rewrite (writeVerdict_outside _ _ 10 Ho) in He. auto.
Qed.

Lemma connect_unsupported_command_witness :
  socks.conn example.sock = Some Client /\
  available (net.rx (client (example.world [x05; x03; x00; x01; x7f; x00])))
    = x05 :: x03 :: x00 :: x01 :: [x7f; x00] /\
  x03 <> x01 /\
  exists e w',
    socks.connect (example.os true) example.sock example.lip
                  (example.world [x05; x03; x00; x01; x7f; x00]) = (Panic e, w') /\
    clientOut w' = clientOut (example.world [x05; x03; x00; x01; x7f; x00])
                   ++ [failureReply x07] /\
    available (net.rx (client w')) = [x7f; x00] /\
    dialed w' = dialed (example.world [x05; x03; x00; x01; x7f; x00]) /\
    (writeVerdict (client (example.world [x05; x03; x00; x01; x7f; x00])) 10 = Ok tt ->
     e = ErrorCommand).
Proof.
  assert (Hcmd : x03 <> x01) by discriminate.
  split; [reflexivity|]. split; [reflexivity|]. split; [exact Hcmd|].
  apply (connect_unsupported_command (example.os true) example.sock example.lip
           (example.world [x05; x03; x00; x01; x7f; x00]) x03 x00 x01 [x7f; x00]
           eq_refl eq_refl Hcmd).
Defined.

(** X8.  A CONNECT request with an address type other than 0x01, 0x03 and
    0x04 is answered with the failure Reply of status 0x08 and the engine
    panics, with [ErrorAddress] when the Reply could be written: nothing
    more is read and nothing is dialed. *)
Theorem connect_unsupported_address_type os sock lip w (rsv atyp : byte) rest :
  socks.conn sock = Some Client ->
  available (net.rx (client w)) = x05 :: x01 :: rsv :: atyp :: rest ->
  atyp <> x01 -> atyp <> x03 -> atyp <> x04 ->
  exists e w',
    socks.connect os sock lip w = (Panic e, w') /\
    clientOut w' = clientOut w ++ [failureReply x08] /\
    available (net.rx (client w')) = rest /\
    dialed w' = dialed w /\
    (writeVerdict (client w) 10 = Ok tt -> e = ErrorAddress).
Proof.
  intros Hc Hav H1 H3 H4.
  destruct (connect_header os sock w x01 rsv atyp rest Hc Hav) as (w1 & Hr & Ha & Ho).
  destruct (@writeError_run (list net.IP) os sock socks.repNotAddressable ErrorAddress
                            w1 Hc) as (e & Hrun & He).
  exists e, (written os (failureReply socks.repNotAddressable) w1).
  split.
  - unfold socks.connect. rewrite (bind_ok _ _ _ _ _ Hr). cbn [nth].
    change (negb (Byte.eqb x05 socks.protoVersion)) with false. cbv iota.
    change (Byte.eqb x01 socks.cmdConnect) with true. cbv iota.
    rewrite (bind_ok (ret tt) _ w1 tt w1 eq_refl).
    unfold socks.atypeIPV4, socks.atypeIPV6, socks.atypeDomain.
    rewrite (eqb_neq atyp x01 H1), (eqb_neq atyp x04 H4), (eqb_neq atyp x03 H3).
    apply bind_panic. exact Hrun.
  - rewrite written_clientOut, written_rx, written_dialed.
    rewrite (outside_clientOut _ _ Ho), (outside_dialed _ _ Ho).
    rewrite (writeVerdict_outside _ _ 10 Ho) in He. auto.
Qed.

Lemma connect_unsupported_address_type_witness :
  socks.conn example.sock = Some Client /\
  available (net.rx (client (example.world [x05; x01; x00; x02; x00; x50])))
    = x05 :: x01 :: x00 :: x02 :: [x00; x50] /\
  x02 <> x01 /\ x02 <> x03 /\ x02 <> x04 /\
  exists e w',
    socks.connect (example.os true) example.sock example.lip
                  (example.world [x05; x01; x00; x02; x00; x50]) = (Panic e, w') /\
    clientOut w' = clientOut (example.world [x05; x01; x00; x02; x00; x50])
                   ++ [failureReply x08] /\
    available (net.rx (client w')) = [x00; x50] /\
    dialed w' = dialed (example.world [x05; x01; x00; x02; x00; x50]) /\
    (writeVerdict (client (example.world [x05; x01; x00; x02; x00; x50])) 10 = Ok tt ->
     e = ErrorAddress).
Proof.
  assert (H1 : x02 <> x01) by discriminate.
  assert (H3 : x02 <> x03) by discriminate.
  assert (H4 : x02 <> x04) by discriminate.
  split; [reflexivity|]. split; [reflexivity|].
  split; [exact H1|]. split; [exact H3|]. split; [exact H4|].
  apply (connect_unsupported_address_type (example.os true) example.sock example.lip
           (example.world [x05; x01; x00; x02; x00; x50]) x00 x02 [x00; x50]
           eq_refl eq_refl H1 H3 H4).
Defined.

(** X9.  A request of another protocol version gets no Reply: [connect]
    panics with [ErrorHandshake] after its first four bytes. *)
Theorem connect_wrong_version os sock lip w (v cmd rsv atyp : byte) rest :
  socks.conn sock = Some Client ->
  available (net.rx (client w)) = v :: cmd :: rsv :: atyp :: rest ->
  v <> x05 ->
  exists w',
    socks.connect os sock lip w = (Panic ErrorHandshake, w') /\
    clientOut w' = clientOut w /\
    dialed w' = dialed w.
Proof.
  intros Hc Hav Hv.
  destruct (readAll_stream os sock Client [v; cmd; rsv; atyp] rest w Hc Hav)
    as (w1 & Hr & Ha & Ho).
  cbn [length] in Hr. exists w1. split.
  - unfold socks.connect. rewrite (bind_ok _ _ _ _ _ Hr). cbn [nth].
    unfold socks.protoVersion. rewrite (eqb_neq v x05 Hv). reflexivity.
  - rewrite (outside_clientOut _ _ Ho), (outside_dialed _ _ Ho). auto.
Qed.

Lemma connect_wrong_version_witness :
  socks.conn example.sock = Some Client /\
  available (net.rx (client (example.world [x04; x01; x00; x50; x7f; x00])))
    = x04 :: x01 :: x00 :: x50 :: [x7f; x00] /\
  x04 <> x05 /\
  exists w',
    socks.connect (example.os true) example.sock example.lip
                  (example.world [x04; x01; x00; x50; x7f; x00])
      = (Panic ErrorHandshake, w') /\
    clientOut w' = clientOut (example.world [x04; x01; x00; x50; x7f; x00]) /\
    dialed w' = dialed (example.world [x04; x01; x00; x50; x7f; x00]).
Proof.
  assert (Hv : x04 <> x05) by discriminate.
  split; [reflexivity|]. split; [reflexivity|]. split; [exact Hv|].
  apply (connect_wrong_version (example.os true) example.sock example.lip
           (example.world [x04; x01; x00; x50; x7f; x00]) x04 x01 x00 x50 [x7f; x00]
           eq_refl eq_refl Hv).
Defined.

Lemma keeps_shuffle_butRng n : forall addrs, keeps butRng (resolver.shuffle n addrs).
Proof.
  induction n as [|n IH]; intros addrs; [apply keeps_ret|].
  destruct n as [|n]; [apply keeps_ret|].
  change (resolver.shuffle (S (S n)) addrs)
    with (bind (Intn (S (S n) + 1))
               (fun r => bind (if r =? S (S n) then ret addrs
                               else resolver.swap r (S (S n)) addrs)
                              (fun addrs' => resolver.shuffle (S n) addrs'))).
  apply keeps_bind; [intros w; reflexivity|]. intros r.
  apply keeps_bind; [|apply IH].
  destruct (r =? S (S n)); [apply keeps_ret | apply keeps_swap].
Qed.

(** A lookup leaves the sockets, the clock and the dials alone. *)
Lemma keeps_LookupIP_butRng os self host : keeps butRng (resolver.LookupIP os self host).
Proof.
  induction self as [|self IH|lookup]; cbn [resolver.LookupIP].
  - apply keeps_ret.
  - apply keeps_bind; [exact IH|]. intros [addrs [e|]].
    + apply keeps_ret.
    + apply keeps_bind; [apply keeps_shuffle_butRng|]. intros a. apply keeps_ret.
  - apply keeps_ret.
Qed.

Lemma butRng_client w w' : butRng w' = butRng w -> client w' = client w.
Proof. unfold butRng. intros H. injection H. auto. Qed.

Lemma butRng_dialed w w' : butRng w' = butRng w -> dialed w' = dialed w.
Proof. unfold butRng. intros H. injection H. auto. Qed.

(** X10.  A CONNECT request for a name the resolver fails on is answered
    with the failure Reply of status 0x08 and the engine panics, with the
    resolver's error when the Reply could be written: the port of the
    request stays unread and nothing is dialed. *)
Theorem connect_resolution_error os sock lip w (rsv len : byte) (name rest : list byte)
        addrs err :
  socks.conn sock = Some Client ->
  available (net.rx (client w)) = x05 :: x01 :: rsv :: x03 :: len :: name ++ rest ->
  length name = Byte.to_nat len ->
  (forall w0, fst (resolver.LookupIP os (socks.DNSResolver sock)
                     (string_of_list_byte name) w0) = Ok (addrs, Some err)) ->
  exists e w',
    socks.connect os sock lip w = (Panic e, w') /\
    clientOut w' = clientOut w ++ [failureReply x08] /\
    available (net.rx (client w')) = rest /\
    dialed w' = dialed w /\
    (writeVerdict (client w) 10 = Ok tt -> e = err).
Proof.
  intros Hc Hav Hlen Hlook.
  destruct (connect_header os sock w x01 rsv x03 (len :: name ++ rest) Hc Hav)
    as (w1 & Hr1 & Ha1 & Ho1).
  destruct (readAll_stream os sock Client [len] (name ++ rest) w1 Hc Ha1)
    as (w2 & Hr2 & Ha2 & Ho2).
  destruct (readAll_stream os sock Client name rest w2 Hc Ha2) as (w3 & Hr3 & Ha3 & Ho3).
  cbn [length get] in *. rewrite Hlen in Hr3.
  pose proof (Hlook w3) as Hl.
  pose proof (keeps_LookupIP_butRng os (socks.DNSResolver sock)
                (string_of_list_byte name) w3) as Hk.
  destruct (resolver.LookupIP os (socks.DNSResolver sock) (string_of_list_byte name) w3)
    as [r w4] eqn:Hrun.
  cbn [fst snd] in Hl, Hk. subst r.
  destruct (@writeError_run (list net.IP) os sock socks.repNotAddressable err w4 Hc)
    as (e & Hw & He).
  assert (Hout : outside w3 = outside w) by congruence.
  exists e, (written os (failureReply socks.repNotAddressable) w4).
  split.
  - unfold socks.connect. rewrite (bind_ok _ _ _ _ _ Hr1). cbn [nth].
    change (negb (Byte.eqb x05 socks.protoVersion)) with false. cbv iota.
    change (Byte.eqb x01 socks.cmdConnect) with true. cbv iota.
    rewrite (bind_ok (ret tt) _ w1 tt w1 eq_refl).
    change (Byte.eqb x03 socks.atypeIPV4) with false.
    change (Byte.eqb x03 socks.atypeIPV6) with false.
    change (Byte.eqb x03 socks.atypeDomain) with true. cbv iota.
    apply bind_panic.
    rewrite (bind_ok _ _ _ _ _ Hr2). cbn [nth].
    rewrite (bind_ok _ _ _ _ _ Hr3).
    rewrite (bind_ok _ _ _ _ _ Hrun). exact Hw.
  - rewrite written_clientOut, written_rx, written_dialed.
    unfold clientOut. rewrite (butRng_client _ _ Hk), (butRng_dialed _ _ Hk).
    pose proof (outside_clientOut _ _ Hout) as Hco. unfold clientOut in Hco.
    rewrite Hco, (outside_dialed _ _ Hout).
    unfold writeVerdict in *. rewrite (butRng_client _ _ Hk) in He.
    rewrite (outside_txs _ _ Hout) in He. auto.
Qed.

Lemma connect_resolution_error_witness :
  socks.conn example.sock = Some Client /\
  available (net.rx (client (example.world (example.connectTo "gone.example"))))
    = x05 :: x01 :: x00 :: x03 :: x0c :: list_byte_of_string "gone.example" ++ [x00; x50] /\
  length (list_byte_of_string "gone.example") = Byte.to_nat x0c /\
  (forall w0, fst (resolver.LookupIP (example.os true) (socks.DNSResolver example.sock)
                     (string_of_list_byte (list_byte_of_string "gone.example")) w0)
              = Ok ([], Some (otherError "no such host"))) /\
  exists e w',
    socks.connect (example.os true) example.sock example.lip
                  (example.world (example.connectTo "gone.example")) = (Panic e, w') /\
    clientOut w' = clientOut (example.world (example.connectTo "gone.example"))
                   ++ [failureReply x08] /\
    available (net.rx (client w')) = [x00; x50] /\
    dialed w' = dialed (example.world (example.connectTo "gone.example")) /\
    (writeVerdict (client (example.world (example.connectTo "gone.example"))) 10 = Ok tt ->
     e = otherError "no such host").
Proof.
  assert (Hlook : forall w0,
            fst (resolver.LookupIP (example.os true) (socks.DNSResolver example.sock)
                   (string_of_list_byte (list_byte_of_string "gone.example")) w0)
            = Ok ([], Some (otherError "no such host")))
    by (intros w0; reflexivity).
  split; [reflexivity|]. split; [reflexivity|]. split; [reflexivity|].
  split; [exact Hlook|].
  apply (connect_resolution_error (example.os true) example.sock example.lip
           (example.world (example.connectTo "gone.example")) x00 x0c
           (list_byte_of_string "gone.example") [x00; x50] []
           (otherError "no such host") eq_refl eq_refl eq_refl Hlook).
Defined.

(** The port of a request is written back as it was read. *)
Lemma port_round_trip (p1 p2 : byte) :
  socks.PutUint16 (socks.Uint16 [p1; p2]) = [p1; p2].
Proof.
  unfold socks.PutUint16, socks.Uint16, socks.byteOfN. cbn [nth].
  pose proof (Byte.to_N_bounded p1) as H1. pose proof (Byte.to_N_bounded p2) as H2.
  assert (Hdiv : ((Byte.to_N p1 * 256 + Byte.to_N p2) / 256 = Byte.to_N p1)%N).
  { rewrite N.div_add_l by discriminate. rewrite N.div_small by lia. lia. }
  assert (Hmod : ((Byte.to_N p1 * 256 + Byte.to_N p2) mod 256 = Byte.to_N p2)%N).
  { rewrite N.add_comm, N.Div0.mod_add. apply N.mod_small. lia. }
  rewrite Hdiv, Hmod, (N.mod_small (Byte.to_N p1)) by lia.
  rewrite !Byte.of_to_N. reflexivity.
Qed.

Lemma written_txs_nil os p w :
  net.txs (client w) = [] -> net.txs (client (written os p w)) = [].
Proof. intros H. unfold written, net.Write. cbn. rewrite H. reflexivity. Qed.

Lemma written_upstream os p w : upstream (written os p w) = upstream w.
Proof. reflexivity. Qed.

Lemma writeAll_healthy os sock p w :
  socks.conn sock = Some Client ->
  net.txs (client w) = [] ->
  socks.writeAll os sock p w = (Ok tt, written os p w).
Proof.
  intros Hc Htx. rewrite (writeAll_run os sock p w Hc).
  unfold writeVerdict. rewrite Htx. reflexivity.
Qed.

(** The success Reply on a transport that takes every write. *)
Lemma successReply_run os sock lip port (rsock : socks.sockConn) w :
  socks.conn sock = Some Client ->
  net.txs (client w) = [] ->
  exists w',
    (socks.writeAll os sock [socks.protoVersion; socks.repSuccess; x00] >>
     match net.To4 lip with
     | Some lip4 => socks.writeAll os sock [socks.atypeIPV4] >> socks.writeAll os sock lip4
     | None => socks.writeAll os sock [socks.atypeIPV6] >>
               socks.writeAll os sock (net.To16 lip)
     end >>
     socks.writeAll os sock (socks.PutUint16 port) >>
     ret rsock) w = (Ok rsock, w') /\
    clientOut w' = clientOut w ++ [x05; x00; x00] :: boundAddress lip
                                ++ [socks.PutUint16 port] /\
    net.rx (client w') = net.rx (client w) /\
    upstream w' = upstream w /\
    dialed w' = dialed w.
Proof.
  intros Hc Htx.
  set (w1 := written os [socks.protoVersion; socks.repSuccess; x00] w).
  assert (H1 : net.txs (client w1) = []) by (apply written_txs_nil, Htx).
  rewrite (bind_ok _ _ w tt w1 (writeAll_healthy os sock _ w Hc Htx)).
  unfold boundAddress.
  destruct (net.To4 lip) as [lip4|].
  - set (w2 := written os [socks.atypeIPV4] w1).
    assert (H2 : net.txs (client w2) = []) by (apply written_txs_nil, H1).
    set (w3 := written os lip4 w2).
    assert (H3 : net.txs (client w3) = []) by (apply written_txs_nil, H2).
    assert (Hmid : (socks.writeAll os sock [socks.atypeIPV4] >>
                    socks.writeAll os sock lip4) w1 = (Ok tt, w3)).
    { rewrite (bind_ok _ _ w1 tt w2 (writeAll_healthy os sock _ w1 Hc H1)).
      apply (writeAll_healthy os sock lip4 w2 Hc H2). }
    rewrite (bind_ok _ _ w1 tt w3 Hmid).
    rewrite (bind_ok _ _ w3 tt _ (writeAll_healthy os sock _ w3 Hc H3)).
    eexists. split; [reflexivity|].
    rewrite !written_clientOut, !written_rx, !written_upstream, !written_dialed.
    subst w1 w2 w3.
    rewrite !written_clientOut, !written_rx, !written_upstream, !written_dialed.
    rewrite <- !app_assoc. auto.
  - set (w2 := written os [socks.atypeIPV6] w1).
    assert (H2 : net.txs (client w2) = []) by (apply written_txs_nil, H1).
    set (w3 := written os (net.To16 lip) w2).
    assert (H3 : net.txs (client w3) = []) by (apply written_txs_nil, H2).
    assert (Hmid : (socks.writeAll os sock [socks.atypeIPV6] >>
                    socks.writeAll os sock (net.To16 lip)) w1 = (Ok tt, w3)).
    { rewrite (bind_ok _ _ w1 tt w2 (writeAll_healthy os sock _ w1 Hc H1)).
      apply (writeAll_healthy os sock _ w2 Hc H2). }
    rewrite (bind_ok _ _ w1 tt w3 Hmid).
    rewrite (bind_ok _ _ w3 tt _ (writeAll_healthy os sock _ w3 Hc H3)).
    eexists. split; [reflexivity|].
    rewrite !written_clientOut, !written_rx, !written_upstream, !written_dialed.
    subst w1 w2 w3.
    rewrite !written_clientOut, !written_rx, !written_upstream, !written_dialed.
    rewrite <- !app_assoc. auto.
Qed.

(** The world after a dial was put on record and, when it succeeded, the
    new connection taken as the upstream side. *)
Lemma dialLoop_single os sock lip port rip named w :
  socks.conn sock = Some Client ->
  allowed os sock rip = true ->
  socks.dialLoop os sock lip port [rip] named w =
    match DialTCP os (dialProto (attempt lip port rip)) (lip, 0%N) (rip, port) with
    | inl up => (Ok (Some Upstream, None),
                 mkWorld (client w) up (ticks w) (rng w)
                         (dialed w ++ [attempt lip port rip]) (quit w))
    | inr err => (Ok (None, Some err),
                  mkWorld (client w) (upstream w) (ticks w) (rng w)
                          (dialed w ++ [attempt lip port rip]) (quit w))
    end.
Proof.
  intros Hc Hok. cbn [socks.dialLoop]. rewrite (bind_ok _ _ _ _ _ (IP_run os sock w Hc)).
  unfold allowed in Hok.
  destruct (ruler.ConnectionAllowed os (socks.Ruler sock) [] rip); [discriminate|].
  rewrite (bind_ok (ret tt) _ w tt w eq_refl).
  unfold bind, socks.dial, attempt, dialProto.
  destruct (DialTCP os _ (lip, 0%N) (rip, port)); reflexivity.
Qed.

(** A CONNECT request with an IPv4 address, read up to the dial phase. *)
Lemma connect_ipv4_request os sock lip w (rsv a b c d p1 p2 : byte) rest :
  socks.conn sock = Some Client ->
  available (net.rx (client w))
    = x05 :: x01 :: rsv :: x01 :: a :: b :: c :: d :: p1 :: p2 :: rest ->
  exists w3,
    outside w3 = outside w /\
    available (net.rx (client w3)) = rest /\
    socks.connect os sock lip w =
      ('(rconn, err) <- socks.dialLoop os sock lip (socks.Uint16 [p1; p2])
                                       [net.IPv4 a b c d] (None, None) ;;
       match err with
       | Some InvalidAddrError =>
           socks.writeError os sock socks.repNotAddressable InvalidAddrError
       | Some e => socks.writeError os sock socks.repFailure e
       | None => ret tt
       end >>
       rsock <- socks.newSockConn os rconn (socks.DNSResolver sock) (socks.Ruler sock) ;;
       socks.writeAll os sock [socks.protoVersion; socks.repSuccess; x00] >>
       match net.To4 lip with
       | Some lip4 => socks.writeAll os sock [socks.atypeIPV4] >>
                      socks.writeAll os sock lip4
       | None => socks.writeAll os sock [socks.atypeIPV6] >>
                 socks.writeAll os sock (net.To16 lip)
       end >>
       socks.writeAll os sock (socks.PutUint16 (socks.Uint16 [p1; p2])) >>
       ret rsock) w3.
Proof.
  intros Hc Hav.
  destruct (connect_header os sock w x01 rsv x01 (a :: b :: c :: d :: p1 :: p2 :: rest)
              Hc Hav) as (w1 & Hr1 & Ha1 & Ho1).
  destruct (readAll_stream os sock Client [a; b; c; d] (p1 :: p2 :: rest) w1 Hc Ha1)
    as (w2 & Hr2 & Ha2 & Ho2).
  destruct (readAll_stream os sock Client [p1; p2] rest w2 Hc Ha2) as (w3 & Hr3 & Ha3 & Ho3).
  cbn [length get] in *.
  exists w3. split; [congruence|]. split; [exact Ha3|].
  unfold socks.connect. rewrite (bind_ok _ _ _ _ _ Hr1). cbn [nth].
  change (negb (Byte.eqb x05 socks.protoVersion)) with false. cbv iota.
  change (Byte.eqb x01 socks.cmdConnect) with true. cbv iota.
  rewrite (bind_ok (ret tt) _ w1 tt w1 eq_refl).
  change (Byte.eqb x01 socks.atypeIPV4) with true. cbv iota.
  assert (Hblock : (rawip <- socks.readAll os sock 4 ;;
                    ret [net.IPv4 (nth 0 rawip x00) (nth 1 rawip x00)
                                  (nth 2 rawip x00) (nth 3 rawip x00)]) w1
                   = (Ok [net.IPv4 a b c d], w2)).
  { rewrite (bind_ok _ _ _ _ _ Hr2). reflexivity. }
  rewrite (bind_ok _ _ _ _ _ Hblock).
  rewrite (bind_ok _ _ _ _ _ Hr3). reflexivity.
Qed.

Lemma newSockConn_run os id r u w :
  socks.newSockConn os (Some id) r u w = (Ok (socks.mkSockConn (Some id) r u), w).
Proof.
  unfold socks.newSockConn, bind, socks.method. cbn [socks.conn].
  rewrite !set_get. reflexivity.
Qed.

(** X11.  A CONNECT request with an IPv4 address the ruler allows and the
    dialer reaches, from a client whose transport takes every write: one
    dial is made, over "tcp", from port 0 of the server's local address to
    the address and port of the request; the client is given the success
    Reply, whose address part is the server's local address and whose port
    is the port of the request, byte for byte; and [connect] returns the
    socket of the new connection, with the resolver and the ruler of the
    client's. *)
Theorem connect_ipv4_success os sock lip w (rsv a b c d p1 p2 : byte) rest up :
  socks.conn sock = Some Client ->
  available (net.rx (client w))
    = x05 :: x01 :: rsv :: x01 :: a :: b :: c :: d :: p1 :: p2 :: rest ->
  net.txs (client w) = [] ->
  allowed os sock (net.IPv4 a b c d) = true ->
  DialTCP os "tcp" (lip, 0%N) (net.IPv4 a b c d, socks.Uint16 [p1; p2]) = inl up ->
  exists w',
    socks.connect os sock lip w
      = (Ok (socks.mkSockConn (Some Upstream) (socks.DNSResolver sock) (socks.Ruler sock)),
         w') /\
    clientOut w' = clientOut w ++ [x05; x00; x00] :: boundAddress lip ++ [[p1; p2]] /\
    upstream w' = up /\
    dialed w' = dialed w ++ [mkDial "tcp" (lip, 0%N)
                               (net.IPv4 a b c d, socks.Uint16 [p1; p2])] /\
    available (net.rx (client w')) = rest.
Proof.
  intros Hc Hav Htx Hok Hdial.
  destruct (connect_ipv4_request os sock lip w rsv a b c d p1 p2 rest Hc Hav)
    as (w3 & Ho & Ha & Hrun).
  rewrite Hrun. clear Hrun.
  pose proof (dialLoop_single os sock lip (socks.Uint16 [p1; p2]) (net.IPv4 a b c d)
                (None, None) w3 Hc Hok) as Hloop.
  change (dialProto (attempt lip (socks.Uint16 [p1; p2]) (net.IPv4 a b c d)))
    with "tcp"%string in Hloop.
  rewrite Hdial in Hloop.
  rewrite (bind_ok _ _ _ _ _ Hloop). cbv beta iota.
  set (w4 := mkWorld (client w3) up (ticks w3) (rng w3)
                     (dialed w3 ++ [attempt lip (socks.Uint16 [p1; p2]) (net.IPv4 a b c d)])
                     (quit w3)).
  rewrite (bind_ok (ret tt) _ w4 tt w4 eq_refl).
  rewrite (bind_ok _ _ _ _ _ (newSockConn_run os Upstream _ _ w4)).
  assert (Htx4 : net.txs (client w4) = []).
  { cbn. rewrite (outside_txs _ _ Ho). exact Htx. }
  destruct (successReply_run os sock lip (socks.Uint16 [p1; p2])
              (socks.mkSockConn (Some Upstream) (socks.DNSResolver sock) (socks.Ruler sock))
              w4 Hc Htx4) as (w' & Hrun & Hout & Hrx & Hup & Hdl).
  exists w'. split; [exact Hrun|].
  rewrite Hout, Hrx, Hup, Hdl, port_round_trip.
  unfold clientOut in *. cbn [w4 client upstream dialed].
  pose proof (outside_clientOut _ _ Ho) as Hco. unfold clientOut in Hco.
  rewrite Hco, (outside_dialed _ _ Ho). auto.
Qed.

Lemma connect_ipv4_success_witness :
  socks.conn example.sock = Some Client /\
  available (net.rx (client (example.world
       [x05; x01; x00; x01; x5d; xb8; xd8; x22; x00; x50; x47; x45; x54])))
    = x05 :: x01 :: x00 :: x01 :: x5d :: xb8 :: xd8 :: x22 :: x00 :: x50 :: [x47; x45; x54] /\
  net.txs (client (example.world
       [x05; x01; x00; x01; x5d; xb8; xd8; x22; x00; x50; x47; x45; x54])) = [] /\
  allowed (example.os true) example.sock (net.IPv4 x5d xb8 xd8 x22) = true /\
  DialTCP (example.os true) "tcp" (example.lip, 0%N)
          (net.IPv4 x5d xb8 xd8 x22, socks.Uint16 [x00; x50])
    = inl (net.fresh [] [] (example.www, 80%N)) /\
  exists w',
    socks.connect (example.os true) example.sock example.lip
       (example.world [x05; x01; x00; x01; x5d; xb8; xd8; x22; x00; x50; x47; x45; x54])
      = (Ok (socks.mkSockConn (Some Upstream) (socks.DNSResolver example.sock)
                              (socks.Ruler example.sock)), w') /\
    clientOut w'
      = clientOut (example.world
           [x05; x01; x00; x01; x5d; xb8; xd8; x22; x00; x50; x47; x45; x54])
        ++ [x05; x00; x00] :: boundAddress example.lip ++ [[x00; x50]] /\
    upstream w' = net.fresh [] [] (example.www, 80%N) /\
    dialed w'
      = dialed (example.world
           [x05; x01; x00; x01; x5d; xb8; xd8; x22; x00; x50; x47; x45; x54])
        ++ [mkDial "tcp" (example.lip, 0%N)
                   (net.IPv4 x5d xb8 xd8 x22, socks.Uint16 [x00; x50])] /\
    available (net.rx (client w')) = [x47; x45; x54].
Proof.
  split; [reflexivity|]. split; [reflexivity|]. split; [reflexivity|].
  split; [reflexivity|]. split; [reflexivity|].
  apply (connect_ipv4_success (example.os true) example.sock example.lip
           (example.world [x05; x01; x00; x01; x5d; xb8; xd8; x22; x00; x50; x47; x45; x54])
           x00 x5d xb8 xd8 x22 x00 x50 [x47; x45; x54]
           (net.fresh [] [] (example.www, 80%N))); reflexivity.
Defined.

(** X12.  The same request when the dial fails: the client is given one
    failure Reply, of status 0x08 when the error is a
    [net.InvalidAddrError] and of status 0x01 otherwise, and the engine
    panics, with the error of the dial when the Reply could be written. *)
Theorem connect_ipv4_dial_failure os sock lip w (rsv a b c d p1 p2 : byte) rest err :
  socks.conn sock = Some Client ->
  available (net.rx (client w))
    = x05 :: x01 :: rsv :: x01 :: a :: b :: c :: d :: p1 :: p2 :: rest ->
  allowed os sock (net.IPv4 a b c d) = true ->
  DialTCP os "tcp" (lip, 0%N) (net.IPv4 a b c d, socks.Uint16 [p1; p2]) = inr err ->
  exists e w',
    socks.connect os sock lip w = (Panic e, w') /\
    clientOut w' = clientOut w ++ [failureReply match err with
                                                | InvalidAddrError => x08
                                                | _ => x01
                                                end] /\
    dialed w' = dialed w ++ [mkDial "tcp" (lip, 0%N)
                               (net.IPv4 a b c d, socks.Uint16 [p1; p2])] /\
    (writeVerdict (client w) 10 = Ok tt -> e = err).
Proof.
  intros Hc Hav Hok Hdial.
  destruct (connect_ipv4_request os sock lip w rsv a b c d p1 p2 rest Hc Hav)
    as (w3 & Ho & Ha & Hrun).
  rewrite Hrun. clear Hrun.
  pose proof (dialLoop_single os sock lip (socks.Uint16 [p1; p2]) (net.IPv4 a b c d)
                (None, None) w3 Hc Hok) as Hloop.
  change (dialProto (attempt lip (socks.Uint16 [p1; p2]) (net.IPv4 a b c d)))
    with "tcp"%string in Hloop.
  rewrite Hdial in Hloop.
  rewrite (bind_ok _ _ _ _ _ Hloop). cbv beta iota.
  set (w4 := mkWorld (client w3) (upstream w3) (ticks w3) (rng w3)
                     (dialed w3 ++ [attempt lip (socks.Uint16 [p1; p2]) (net.IPv4 a b c d)])
                     (quit w3)).
  set (rsp := match err with InvalidAddrError => x08 | _ => x01 end).
  destruct (@writeError_run unit os sock rsp err w4 Hc) as (e & Hw & He).
  assert (Hstep : match err with
                  | InvalidAddrError =>
                      @socks.writeError os unit sock socks.repNotAddressable InvalidAddrError
                  | e0 => @socks.writeError os unit sock socks.repFailure e0
                  end w4 = (Panic e, written os (failureReply rsp) w4)).
  { rewrite <- Hw. unfold rsp. destruct err; reflexivity. }
  exists e, (written os (failureReply rsp) w4). split.
  - apply bind_panic. exact Hstep.
  - rewrite written_clientOut, written_dialed.
    unfold clientOut, writeVerdict in *. cbn [w4 client dialed] in *.
    pose proof (outside_clientOut _ _ Ho) as Hco. unfold clientOut in Hco.
    rewrite Hco, (outside_dialed _ _ Ho). rewrite (outside_txs _ _ Ho) in He. auto.
Qed.

Lemma connect_ipv4_dial_failure_witness :
  socks.conn example.sock = Some Client /\
  available (net.rx (client (example.world
       [x05; x01; x00; x01; xcb; x00; x71; x09; x00; x50])))
    = x05 :: x01 :: x00 :: x01 :: xcb :: x00 :: x71 :: x09 :: x00 :: x50 :: [] /\
  allowed (example.os true) example.sock (net.IPv4 xcb x00 x71 x09) = true /\
  DialTCP (example.os true) "tcp" (example.lip, 0%N)
          (net.IPv4 xcb x00 x71 x09, socks.Uint16 [x00; x50])
    = inr (OpError false false) /\
  exists e w',
    socks.connect (example.os true) example.sock example.lip
       (example.world [x05; x01; x00; x01; xcb; x00; x71; x09; x00; x50])
      = (Panic e, w') /\
    clientOut w'
      = clientOut (example.world [x05; x01; x00; x01; xcb; x00; x71; x09; x00; x50])
        ++ [failureReply match OpError false false with
                         | InvalidAddrError => x08
                         | _ => x01
                         end] /\
    dialed w'
      = dialed (example.world [x05; x01; x00; x01; xcb; x00; x71; x09; x00; x50])
        ++ [mkDial "tcp" (example.lip, 0%N)
                   (net.IPv4 xcb x00 x71 x09, socks.Uint16 [x00; x50])] /\
    (writeVerdict (client (example.world
        [x05; x01; x00; x01; xcb; x00; x71; x09; x00; x50])) 10 = Ok tt ->
     e = OpError false false).
Proof.
  split; [reflexivity|]. split; [reflexivity|]. split; [reflexivity|].
  split; [reflexivity|].
  apply (connect_ipv4_dial_failure (example.os true) example.sock example.lip
           (example.world [x05; x01; x00; x01; xcb; x00; x71; x09; x00; x50])
           x00 xcb x00 x71 x09 x00 x50 [] (OpError false false)); reflexivity.
Defined.

(** ** The dial phase, without a denial *)

(** X13.  The first allowed candidate whose dial succeeds ends the dial
    phase: the candidates before it were dialed, in order, and failed; the
    candidates after it are neither put to the ruler nor dialed; the client
    has been written nothing. *)
Theorem dial_phase_first_success_wins os sock lip port
        (pre : list net.IP) (rip : net.IP) (post : list net.IP) named w up :
  socks.conn sock = Some Client ->
  Forall (fun rip => allowed os sock rip = true /\ dialFails os lip port rip) pre ->
  allowed os sock rip = true ->
  DialTCP os (dialProto (attempt lip port rip)) (lip, 0%N) (rip, port) = inl up ->
  exists w',
    socks.dialLoop os sock lip port (pre ++ rip :: post) named w
      = (Ok (Some Upstream, None), w') /\
    upstream w' = up /\
    clientOut w' = clientOut w /\
    dialed w' = dialed w ++ map (attempt lip port) (pre ++ [rip]).
Proof.
  intros Hc Hpre Hok Hdial. apply dialLoop_first_success; assumption.
Qed.

Lemma dial_phase_first_success_wins_witness :
  socks.conn example.sock = Some Client /\
  Forall (fun rip => allowed (example.os true) example.sock rip = true /\
                     dialFails (example.os true) example.lip 80 rip) [example.down] /\
  allowed (example.os true) example.sock example.www = true /\
  DialTCP (example.os true) (dialProto (attempt example.lip 80 example.www))
          (example.lip, 0%N) (example.www, 80%N)
    = inl (net.fresh [] [] (example.www, 80%N)) /\
  exists w',
    socks.dialLoop (example.os true) example.sock example.lip 80
                   ([example.down] ++ example.www :: [example.lan]) (None, None)
                   (example.world [])
      = (Ok (Some Upstream, None), w') /\
    upstream w' = net.fresh [] [] (example.www, 80%N) /\
    clientOut w' = clientOut (example.world []) /\
    dialed w' = dialed (example.world [])
                ++ map (attempt example.lip 80) ([example.down] ++ [example.www]).
Proof.
  assert (Hpre : Forall (fun rip => allowed (example.os true) example.sock rip = true /\
                                    dialFails (example.os true) example.lip 80 rip)
                        [example.down]).
  { constructor; [|constructor]. split; [reflexivity|].
    exists (OpError false false). reflexivity. }
  split; [reflexivity|]. split; [exact Hpre|]. split; [reflexivity|].
  split; [reflexivity|].
  apply (dial_phase_first_success_wins (example.os true) example.sock example.lip 80
           [example.down] example.www [example.lan] (None, None) (example.world [])
           (net.fresh [] [] (example.www, 80%N)) eq_refl Hpre eq_refl eq_refl).
Defined.

Lemma dialLoop_all_fail os sock lip port :
  socks.conn sock = Some Client ->
  forall (pre : list net.IP) (rip : net.IP) named w err,
    Forall (fun rip => allowed os sock rip = true /\ dialFails os lip port rip) pre ->
    allowed os sock rip = true ->
    DialTCP os (dialProto (attempt lip port rip)) (lip, 0%N) (rip, port) = inr err ->
    exists w',
      socks.dialLoop os sock lip port (pre ++ [rip]) named w = (Ok (None, Some err), w') /\
      client w' = client w /\
      upstream w' = upstream w /\
      dialed w' = dialed w ++ map (attempt lip port) (pre ++ [rip]).
Proof.
  intros Hc. induction pre as [|cand pre IH]; intros rip named w err Hpre Hok Hdial.
  - cbn [app]. rewrite (dialLoop_single os sock lip port rip named w Hc Hok), Hdial.
    eexists. split; [reflexivity|]. cbn. auto.
  - inversion Hpre as [|? ? [Hallow Hfail] Hrest]; subst.
    cbn [app socks.dialLoop map]. rewrite (bind_ok _ _ _ _ _ (IP_run os sock w Hc)).
    unfold allowed in Hallow.
    destruct (ruler.ConnectionAllowed os (socks.Ruler sock) [] cand); [discriminate|].
    rewrite (bind_ok (ret tt) _ w tt w eq_refl).
    destruct (dial_fails os lip port cand w Hfail) as (e1 & w1 & Hrun1 & Hcl & Hlog).
    unfold attempt at 1, dialProto in Hrun1.
    rewrite (bind_ok _ _ _ _ _ Hrun1). cbn [snd].
    destruct (IH rip (None, Some e1) w1 err Hrest Hok Hdial)
      as (w' & Hrun & Hcl' & Hup' & Hdials).
    exists w'. split; [exact Hrun|].
    assert (Hup1 : upstream w1 = upstream w).
    { unfold dialFails in Hfail. destruct Hfail as (e2 & He2).
      unfold socks.dial in Hrun1. unfold attempt, dialProto in He2.
      rewrite He2 in Hrun1. injection Hrun1 as _ <-. reflexivity. }
    rewrite Hcl', Hcl, Hup', Hup1, Hdials, Hlog, <- app_assoc. auto.
Qed.

(** X14.  When every candidate is allowed and no dial succeeds, every
    candidate is dialed, in order, and the dial phase ends with the error
    of the last dial: the errors of the earlier ones are dropped.  The
    client has been written nothing yet. *)
Theorem dial_phase_keeps_last_error os sock lip port
        (pre : list net.IP) (rip : net.IP) named w err :
  socks.conn sock = Some Client ->
  Forall (fun rip => allowed os sock rip = true /\ dialFails os lip port rip) pre ->
  allowed os sock rip = true ->
  DialTCP os (dialProto (attempt lip port rip)) (lip, 0%N) (rip, port) = inr err ->
  exists w',
    socks.dialLoop os sock lip port (pre ++ [rip]) named w = (Ok (None, Some err), w') /\
    client w' = client w /\
    upstream w' = upstream w /\
    dialed w' = dialed w ++ map (attempt lip port) (pre ++ [rip]).
Proof.
  intros Hc Hpre Hok Hdial. apply dialLoop_all_fail; assumption.
Qed.

Lemma dial_phase_keeps_last_error_witness :
  socks.conn example.sock = Some Client /\
  Forall (fun rip => allowed (example.os true) example.sock rip = true /\
                     dialFails (example.os true) example.lip 80 rip) [example.down] /\
  allowed (example.os true) example.sock example.down = true /\
  DialTCP (example.os true) (dialProto (attempt example.lip 80 example.down))
          (example.lip, 0%N) (example.down, 80%N)
    = inr (OpError false false) /\
  exists w',
    socks.dialLoop (example.os true) example.sock example.lip 80
                   ([example.down] ++ [example.down]) (None, None) (example.world [])
      = (Ok (None, Some (OpError false false)), w') /\
    client w' = client (example.world []) /\
    upstream w' = upstream (example.world []) /\
    dialed w' = dialed (example.world [])
                ++ map (attempt example.lip 80) ([example.down] ++ [example.down]).
Proof.
  assert (Hpre : Forall (fun rip => allowed (example.os true) example.sock rip = true /\
                                    dialFails (example.os true) example.lip 80 rip)
                        [example.down]).
  { constructor; [|constructor]. split; [reflexivity|].
    exists (OpError false false). reflexivity. }
  split; [reflexivity|]. split; [exact Hpre|]. split; [reflexivity|].
  split; [reflexivity|].
  apply (dial_phase_keeps_last_error (example.os true) example.sock example.lip 80
           [example.down] example.down (None, None) (example.world [])
           (OpError false false) eq_refl Hpre eq_refl eq_refl).
Defined.

(** ** The relay, on a healthy destination *)

Lemma get_set_other s d c w : s <> d -> get s (set d c w) = get s w.
Proof. destruct s, d; intros H; try reflexivity; contradiction. Qed.

Lemma get_tick id w : get id (tick w) = get id w.
Proof. destruct id; reflexivity. Qed.

Lemma writeLoop_healthy os dst d turns data rest w :
  socks.conn dst = Some d ->
  net.txs (get d w) = [] ->
  length data <= socks.bufSize ->
  0 < turns ->
  exists w',
    socks.writeLoop os turns dst (data ++ rest) 0 (length data) w = (Ok tt, w') /\
    net.wire (get d w') = net.wire (get d w) ++ data /\
    net.txs (get d w') = [] /\
    (forall s, s <> d -> get s w' = get s w).
Proof.
  intros Hd Htx Hlen Hturns.
  destruct data as [|b data].
  { exists w. rewrite writeLoop_zero, app_nil_r. auto. }
  destruct turns as [|turns]; [lia|].
  cbn [socks.writeLoop]. change (length (b :: data) =? 0) with false. cbv iota.
  unfold bind at 1, socks.window. rewrite Nat.sub_0_r.
  apply Nat.leb_le in Hlen. rewrite Hlen. unfold ret at 1.
  change (skipn 0 ((b :: data) ++ rest)) with ((b :: data) ++ rest).
  rewrite firstn_length_app.
  unfold bind at 1. rewrite (Write_eq os dst d _ w Hd).
  unfold net.Write. cbn [net.SetWriteDeadline net.txs]. rewrite Htx.
  cbn [fst snd]. rewrite Nat.sub_diag.
  unfold bind at 1, socks.reslice. cbn [Nat.leb]. unfold ret at 1.
  rewrite writeLoop_zero.
  eexists. split; [reflexivity|]. rewrite get_set_same.
  cbn [net.wire net.txs net.out]. rewrite firstn_all.
  split; [reflexivity|]. split; [reflexivity|].
  intros s Hne. rewrite (get_set_other s d _ _ Hne). apply get_tick.
Qed.

Lemma copyLoop_delivers os sock dst s d :
  socks.conn sock = Some s ->
  socks.conn dst = Some d ->
  s <> d ->
  forall turns buf w,
    socks.weight (net.rx (get s w)) < turns ->
    net.txs (get d w) = [] ->
    exists w',
      socks.copyLoop os turns sock dst buf w = (Panic (ending (net.rx (get s w))), w') /\
      net.wire (get d w') = net.wire (get d w) ++ relayed (net.rx (get s w)) /\
      net.txs (get d w') = [].
Proof.
  intros Hs Hd Hne. assert (Hne' : d <> s) by congruence.
  induction turns as [|turns IH]; intros buf w Hw Htx; [lia|].
  cbn [socks.copyLoop]. unfold bind at 1. rewrite (Read_eq os sock s _ w Hs).
  set (c := net.SetReadDeadline (deadlineAt os w) (get s w)).
  assert (Hrx : net.rx c = net.rx (get s w)) by reflexivity.
  pose proof (netRead_length socks.bufSize c) as Hlen.
  pose proof (netRead_weight c) as Hlt. rewrite Hrx in Hlt.
  destruct (net.Read socks.bufSize c) as [[data err] c'] eqn:Hread.
  cbn [fst snd] in *.
  set (w1 := set s c' (tick w)).
  assert (Hd1 : get d w1 = get d w).
  { unfold w1. rewrite (get_set_other d s _ _ Hne'). apply get_tick. }
  assert (Hs1 : get s w1 = c') by apply get_set_same.
  unfold bind at 1, socks.sendTurns. rewrite Hd.
  assert (Htx1 : net.txs (get d w1) = []) by (rewrite Hd1; exact Htx).
  rewrite Htx1. cbn [length].
  destruct (writeLoop_healthy os dst d 1 data (skipn (length data) buf) w1 Hd Htx1 Hlen)
    as (w2 & Hrun & Hwire & Htx2 & Hframe); [lia|].
  unfold bind at 1. rewrite Hrun.
  assert (Hwire2 : net.wire (get d w2) = net.wire (get d w) ++ data)
    by (rewrite Hwire, Hd1; reflexivity).
  assert (Hrx2 : net.rx (get s w2) = net.rx c') by (rewrite (Hframe s Hne), Hs1; reflexivity).
  destruct (net.rx (get s w)) as [|[bs | e] rest] eqn:Hscript.
  - rewrite (netRead_end _ c Hrx) in Hread. injection Hread as <- <- <-.
    cbn [transient asNetError]. unfold panic. cbn [ending relayed].
    exists w2. auto.
  - rewrite (netRead_chunk _ c bs rest Hrx) in Hread.
    assert (err = None) as -> by (destruct (length bs <=? socks.bufSize); congruence).
    destruct (IH (data ++ skipn (length data) buf) w2) as (w' & Hgo & Hw' & Htx');
      [rewrite Hrx2; specialize (Hlt ltac:(discriminate)); lia | exact Htx2 |].
    exists w'. rewrite Hgo, Hw', Htx', Hwire2, Hrx2, <- app_assoc.
    destruct (length bs <=? socks.bufSize); injection Hread as <- <-;
      cbn [net.setRx net.rx relayed ending].
    + auto.
    + rewrite (app_assoc (firstn _ _)), firstn_skipn. auto.
  - rewrite (netRead_err _ c e rest Hrx) in Hread. injection Hread as <- <- <-.
    cbn [relayed ending]. destruct (transient e).
    + destruct (IH ([] ++ skipn (length (@nil byte)) buf) w2) as (w' & Hgo & Hw' & Htx');
        [rewrite Hrx2; cbn in *; specialize (Hlt ltac:(discriminate)); lia | exact Htx2 |].
      exists w'. rewrite Hgo, Hw', Htx', Hwire2, Hrx2, app_nil_r. auto.
    + unfold panic. exists w2. rewrite Hwire2, app_nil_r. auto.
Qed.

(** X15.  A direction of the relay whose destination takes every write in
    full hands over the bytes of its source, all of them and in their
    order, up to the end of the stream or the first failure that is not
    transient, and that failure (or [io.EOF]) is what ends it.  This holds
    for either direction of the two. *)
Theorem relay_direction_delivers os sock dst s d w :
  socks.conn sock = Some s ->
  socks.conn dst = Some d ->
  s <> d ->
  net.txs (get d w) = [] ->
  exists w',
    socks.copyFrom os sock dst w = (Ok (Some (ending (net.rx (get s w)))), w') /\
    net.wire (get d w') = net.wire (get d w) ++ relayed (net.rx (get s w)).
Proof.
  intros Hs Hd Hne Htx. unfold socks.copyFrom, socks.recvTurns. rewrite Hs.
  destruct (copyLoop_delivers os sock dst s d Hs Hd Hne
              (S (socks.weight (net.rx (get s w)))) (repeat x00 socks.bufSize) w
              (Nat.lt_succ_diag_r _) Htx) as (w1 & Hrun & Hwire & _).
  rewrite Hrun.
  unfold bind, socks.method, socks.signal, ret. rewrite Hs, Hd.
  eexists. split; [reflexivity|].
  destruct s, d; try contradiction; cbn; auto.
Qed.

Lemma relay_direction_delivers_witness :
  socks.conn example.rsock = Some Upstream /\
  socks.conn example.sock = Some Client /\
  Upstream <> Client /\
  net.txs (get Client
     (mkWorld (net.fresh [] [] (example.ip xc6 x33 x64 x07, 40000%N))
              (net.fresh [net.Chunk [x01; x02]; net.RxErr errTimeout; net.Chunk [x03];
                          net.RxErr (OpError false false); net.Chunk [x04]]
                         [] (example.www, 80%N)) 0 [] [] 0)) = [] /\
  exists w',
    socks.copyFrom (example.os true) example.rsock example.sock
       (mkWorld (net.fresh [] [] (example.ip xc6 x33 x64 x07, 40000%N))
                (net.fresh [net.Chunk [x01; x02]; net.RxErr errTimeout; net.Chunk [x03];
                            net.RxErr (OpError false false); net.Chunk [x04]]
                           [] (example.www, 80%N)) 0 [] [] 0)
      = (Ok (Some (ending (net.rx (get Upstream
           (mkWorld (net.fresh [] [] (example.ip xc6 x33 x64 x07, 40000%N))
                    (net.fresh [net.Chunk [x01; x02]; net.RxErr errTimeout;
                                net.Chunk [x03]; net.RxErr (OpError false false);
                                net.Chunk [x04]]
                               [] (example.www, 80%N)) 0 [] [] 0))))), w') /\
    net.wire (get Client w')
      = net.wire (get Client
           (mkWorld (net.fresh [] [] (example.ip xc6 x33 x64 x07, 40000%N))
                    (net.fresh [net.Chunk [x01; x02]; net.RxErr errTimeout;
                                net.Chunk [x03]; net.RxErr (OpError false false);
                                net.Chunk [x04]]
                               [] (example.www, 80%N)) 0 [] [] 0))
        ++ relayed (net.rx (get Upstream
           (mkWorld (net.fresh [] [] (example.ip xc6 x33 x64 x07, 40000%N))
                    (net.fresh [net.Chunk [x01; x02]; net.RxErr errTimeout;
                                net.Chunk [x03]; net.RxErr (OpError false false);
                                net.Chunk [x04]]
                               [] (example.www, 80%N)) 0 [] [] 0))).
Proof.
  split; [reflexivity|]. split; [reflexivity|]. split; [discriminate|].
  split; [reflexivity|].
  apply (relay_direction_delivers (example.os true) example.rsock example.sock
           Upstream Client _ eq_refl eq_refl); [discriminate | reflexivity].
Defined.

(** ** The two directions keep out of each other's way *)

Lemma keeps_Read_reverse os sock k :
  socks.conn sock = Some Client -> keeps reverse (socks.Read os sock k).
Proof.
  intros Hc w. rewrite (Read_eq os sock Client k w Hc). cbn [snd get].
  unfold net.Read. cbn [net.SetReadDeadline net.rx].
  destruct (net.rx (client w)) as [|[bs | e] rest]; [reflexivity | | reflexivity].
  destruct (length bs <=? k); reflexivity.
Qed.

Lemma keeps_Write_reverse os dst b :
  socks.conn dst = Some Upstream -> keeps reverse (socks.Write os dst b).
Proof.
  intros Hc w. rewrite (Write_eq os dst Upstream b w Hc). cbn [snd get].
  unfold net.Write. cbn [net.SetWriteDeadline net.txs].
  destruct (net.txs (upstream w)) as [|[n e] rest]; reflexivity.
Qed.

Lemma keeps_writeLoop_reverse os dst buf turns :
  socks.conn dst = Some Upstream ->
  forall off nr, keeps reverse (socks.writeLoop os turns dst buf off nr).
Proof.
  intros Hd. induction turns as [|turns IH]; intros off nr; cbn [socks.writeLoop].
  - destruct (nr =? 0); apply keeps_ret.
  - destruct (nr =? 0); [apply keeps_ret|].
    apply keeps_bind.
    { unfold socks.window. destruct (nr <=? _); [apply keeps_ret | apply keeps_panic]. }
    intros p. apply keeps_bind; [apply keeps_Write_reverse, Hd|]. intros [nw werr].
    apply keeps_bind.
    { unfold socks.reslice. destruct (_ <=? _); [apply keeps_ret | apply keeps_panic]. }
    intros off'. destruct werr as [e|]; [|apply IH].
    destruct (transient e); [apply IH | apply keeps_panic].
Qed.

Lemma keeps_copyLoop_reverse os sock dst turns :
  socks.conn sock = Some Client ->
  socks.conn dst = Some Upstream ->
  forall buf, keeps reverse (socks.copyLoop os turns sock dst buf).
Proof.
  intros Hs Hd. induction turns as [|turns IH]; intros buf; cbn [socks.copyLoop].
  - apply keeps_ret.
  - apply keeps_bind; [apply keeps_Read_reverse, Hs|]. intros [data err].
    apply keeps_bind; [intros w; reflexivity|]. intros wturns.
    apply keeps_bind; [apply keeps_writeLoop_reverse, Hd|]. intros _.
    destruct err as [e|]; [|apply IH].
    destruct (transient e); [apply IH | apply keeps_panic].
Qed.

(** X16.  The direction from the client to the upstream side leaves the
    other direction alone, from its first read to its deferred function:
    it takes nothing off what the upstream side delivers, writes nothing to
    the client, moves neither the read deadline of the upstream socket nor
    the write deadline of the client socket, closes neither the reading
    half of the former nor the writing half of the latter, and closes no
    socket as a whole. *)
Theorem relay_direction_keeps_to_itself os sock dst :
  socks.conn sock = Some Client ->
  socks.conn dst = Some Upstream ->
  keeps reverse (socks.copyFrom os sock dst).
Proof.
  intros Hs Hd w. unfold socks.copyFrom.
  pose proof (keeps_copyLoop_reverse os sock dst (socks.recvTurns sock w) Hs Hd
                (repeat x00 socks.bufSize) w) as Hloop.
  destruct (socks.copyLoop os _ sock dst _ w) as [r w1]. cbn [snd] in Hloop.
  rewrite <- Hloop.
  unfold bind, socks.method, socks.signal, ret. rewrite Hs, Hd. reflexivity.
Qed.

Lemma relay_direction_keeps_to_itself_witness :
  socks.conn example.sock = Some Client /\
  socks.conn example.rsock = Some Upstream /\
  keeps reverse (socks.copyFrom (example.os true) example.sock example.rsock).
Proof.
  split; [reflexivity|]. split; [reflexivity|].
  apply (relay_direction_keeps_to_itself (example.os true) example.sock example.rsock);
    reflexivity.
Defined.

(** ** The shuffling resolver, when it returns *)

Lemma length_store {A} i (v : A) l : length (resolver.store i v l) = length l.
Proof.
  revert i. induction l as [|x l IH]; intros [|i]; cbn; auto.
Qed.

Lemma nth_error_store {A} i (v : A) l j :
  nth_error (resolver.store i v l) j
    = if (i =? j) && (i <? length l) then Some v else nth_error l j.
Proof.
  revert i j. induction l as [|x l IH]; intros i j.
  - assert (E : (i <? length (@nil A)) = false) by reflexivity.
    rewrite E, andb_false_r. destruct i; reflexivity.
  - destruct i as [|i], j as [|j]; cbn [resolver.store nth_error]; try reflexivity.
    rewrite IH. reflexivity.
Qed.

(** Exchanging two elements that are there gives a rearrangement. *)
Lemma store_store_Permutation {A} (l : list A) r n ar an :
  nth_error l n = Some an ->
  nth_error l r = Some ar ->
  Permutation l (resolver.store n ar (resolver.store r an l)).
Proof.
  intros Hn Hr.
  assert (Hnl : n < length l) by (apply nth_error_Some; congruence).
  assert (Hrl : r < length l) by (apply nth_error_Some; congruence).
  apply Permutation_nth_error. split.
  { rewrite !length_store. reflexivity. }
  exists (fun j => if j =? n then r else if j =? r then n else j). split.
  - intros x y.
    destruct (Nat.eqb_spec x n), (Nat.eqb_spec x r), (Nat.eqb_spec y n),
      (Nat.eqb_spec y r); lia.
  - intros j. rewrite !nth_error_store, length_store.
    apply Nat.ltb_lt in Hnl, Hrl. rewrite Hnl, Hrl, !andb_true_r.
    rewrite (Nat.eqb_sym n j), (Nat.eqb_sym r j).
    destruct (j =? n); [congruence|]. destruct (j =? r); congruence.
Qed.

(** Started below the length of the slice, the loop runs to its end and
    rearranges the addresses. *)
Lemma shuffle_below n :
  forall addrs w,
    n < length addrs ->
    exists l w', resolver.shuffle n addrs w = (Ok l, w') /\ Permutation addrs l.
Proof.
  induction n as [|n IH]; intros addrs w Hn.
  { exists addrs, w. split; [reflexivity | apply Permutation_refl]. }
  destruct n as [|n].
  { exists addrs, w. split; [reflexivity | apply Permutation_refl]. }
  cbn [resolver.shuffle]. unfold bind at 1, Intn. cbv beta iota.
  set (r := hd 0 (rng w) mod (S (S n) + 1)).
  set (w1 := mkWorld (client w) (upstream w) (ticks w) (tl (rng w)) (dialed w) (quit w)).
  assert (Hr : r < S (S n) + 1) by (apply Nat.mod_upper_bound; lia).
  destruct (r =? S (S n)) eqn:E.
  - rewrite (bind_ok (ret addrs) _ w1 addrs w1 eq_refl). apply IH. lia.
  - unfold resolver.swap.
    destruct (nth_error addrs (S (S n))) as [an|] eqn:Han;
      [|apply nth_error_None in Han; lia].
    destruct (nth_error addrs r) as [ar|] eqn:Har;
      [|apply nth_error_None in Har; lia].
    rewrite (bind_ok (ret _) _ w1 _ w1 eq_refl).
    destruct (IH (resolver.store (S (S n)) ar (resolver.store r an addrs)) w1)
      as (l & w' & Hrun & Hperm); [rewrite !length_store; lia|].
    exists l, w'. split; [exact Hrun|].
    eapply Permutation_trans; [|exact Hperm].
    apply store_store_Permutation; assumption.
Qed.

Lemma shuffle_returns addrs w :
  length addrs <= 1 \/ hd 0 (rng w) mod (length addrs + 1) = length addrs ->
  exists l w',
    resolver.shuffle (length addrs) addrs w = (Ok l, w') /\ Permutation addrs l.
Proof.
  intros [Hshort | Hdraw].
  - exists addrs, w. split; [apply shuffle_short, Hshort | apply Permutation_refl].
  - destruct (length addrs) as [|[|n]] eqn:E.
    + exists addrs, w. split; [reflexivity | apply Permutation_refl].
    + exists addrs, w. split; [reflexivity | apply Permutation_refl].
    + cbn [resolver.shuffle]. unfold bind at 1, Intn. cbv beta iota.
      apply Nat.eqb_eq in Hdraw. rewrite Hdraw.
      rewrite (bind_ok (ret addrs) _ _ addrs _ eq_refl).
      apply (shuffle_below (S n) addrs). lia.
Qed.

(** X17.  When the wrapped resolver gives two addresses or more, the
    shuffling resolver returns only if the first number it draws, reduced
    modulo the count of addresses plus one, is that count; on every other
    draw the call panics with an index out of range. *)
Theorem shuffleResolver_returns_on_one_draw os r host w addrs w1 :
  resolver.LookupIP os r host w = (Ok (addrs, None), w1) ->
  2 <= length addrs ->
  (fst (resolver.LookupIP os (resolver.shuffleResolver r) host w)
     = Panic (runtime IndexOutOfRange)
   <-> hd 0 (rng w1) mod (length addrs + 1) <> length addrs) /\
  ((exists l, fst (resolver.LookupIP os (resolver.shuffleResolver r) host w)
              = Ok (l, None))
   <-> hd 0 (rng w1) mod (length addrs + 1) = length addrs).
Proof.
  intros Hrun Hlen.
  assert (Hstep : resolver.LookupIP os (resolver.shuffleResolver r) host w
                  = (addrs' <- resolver.shuffle (length addrs) addrs ;;
                     ret (addrs', None)) w1).
  { cbn [resolver.LookupIP]. rewrite (bind_ok _ _ _ _ _ Hrun). reflexivity. }
  rewrite Hstep. clear Hstep.
  destruct (Nat.eq_dec (hd 0 (rng w1) mod (length addrs + 1)) (length addrs))
    as [Hdraw | Hdraw].
  - destruct (shuffle_returns addrs w1 (or_intror Hdraw)) as (l & w' & Hsh & _).
    rewrite (bind_ok _ _ _ _ _ Hsh). unfold ret. cbn [fst].
    split; split; intros H; try discriminate; try contradiction; eauto.
  - pose proof (shuffle_first_turn_panics addrs w1 Hlen Hdraw) as Hp.
    unfold bind. destruct (resolver.shuffle (length addrs) addrs w1) as [[l | e] w'];
      cbn [fst] in *; [discriminate|]. injection Hp as ->.
    split; split; intros H; try discriminate; try contradiction; auto.
    destruct H as (l & H). discriminate.
Qed.

Lemma shuffleResolver_returns_on_one_draw_witness :
  resolver.LookupIP (example.os true) resolver.defaultResolver "two.example"
                    (example.drawing [0])
    = (Ok ([example.lan; example.www], None), example.drawing [0]) /\
  2 <= length [example.lan; example.www] /\
  (fst (resolver.LookupIP (example.os true)
          (resolver.shuffleResolver resolver.defaultResolver) "two.example"
          (example.drawing [0]))
     = Panic (runtime IndexOutOfRange)
   <-> hd 0 (rng (example.drawing [0])) mod (length [example.lan; example.www] + 1)
       <> length [example.lan; example.www]) /\
  ((exists l, fst (resolver.LookupIP (example.os true)
                     (resolver.shuffleResolver resolver.defaultResolver) "two.example"
                     (example.drawing [0]))
              = Ok (l, None))
   <-> hd 0 (rng (example.drawing [0])) mod (length [example.lan; example.www] + 1)
       = length [example.lan; example.www]).
Proof.
  split; [reflexivity|]. split; [cbn; lia|].
  apply (shuffleResolver_returns_on_one_draw (example.os true) resolver.defaultResolver
           "two.example" (example.drawing [0]) [example.lan; example.www]
           (example.drawing [0]) eq_refl).
  cbn. lia.
Defined.

(** X18.  When the shuffling resolver returns the addresses of the wrapped
    resolver, it returns a rearrangement of them: no address is lost, added
    or doubled.  It does return when there is one address at most, or when
    the first draw is the one that passes the first turn of the loop. *)
Theorem shuffleResolver_rearranges os r host w addrs w1 :
  resolver.LookupIP os r host w = (Ok (addrs, None), w1) ->
  length addrs <= 1 \/ hd 0 (rng w1) mod (length addrs + 1) = length addrs ->
  exists l w',
    resolver.LookupIP os (resolver.shuffleResolver r) host w = (Ok (l, None), w') /\
    Permutation addrs l.
Proof.
  intros Hrun Hdraw.
  destruct (shuffle_returns addrs w1 Hdraw) as (l & w' & Hsh & Hperm).
  exists l, w'. split; [|exact Hperm].
  cbn [resolver.LookupIP]. rewrite (bind_ok _ _ _ _ _ Hrun). cbv beta iota.
  rewrite (bind_ok _ _ _ _ _ Hsh). reflexivity.
Qed.

Lemma shuffleResolver_rearranges_witness :
  resolver.LookupIP (example.os true)
     (resolver.customResolver
        (fun _ => ([example.lan; example.www; example.down], None)))
     "three.example" (example.drawing [3; 0])
    = (Ok ([example.lan; example.www; example.down], None), example.drawing [3; 0]) /\
  (length [example.lan; example.www; example.down] <= 1 \/
   hd 0 (rng (example.drawing [3; 0]))
     mod (length [example.lan; example.www; example.down] + 1)
     = length [example.lan; example.www; example.down]) /\
  exists l w',
    resolver.LookupIP (example.os true)
       (resolver.shuffleResolver
          (resolver.customResolver
             (fun _ => ([example.lan; example.www; example.down], None))))
       "three.example" (example.drawing [3; 0]) = (Ok (l, None), w') /\
    Permutation [example.lan; example.www; example.down] l.
Proof.
  split; [reflexivity|]. split; [right; reflexivity|].
  apply (shuffleResolver_rearranges (example.os true)
           (resolver.customResolver
              (fun _ => ([example.lan; example.www; example.down], None)))
           "three.example" (example.drawing [3; 0])
           [example.lan; example.www; example.down] (example.drawing [3; 0]) eq_refl).
  right. reflexivity.
Defined.

(** With the draws 3 and 0 the three addresses come back with the first
    and the last exchanged. *)
Example shuffle_three :
  fst (resolver.LookupIP (example.os true)
         (resolver.shuffleResolver
            (resolver.customResolver
               (fun _ => ([example.lan; example.www; example.down], None))))
         "three.example" (example.drawing [3; 0]))
    = Ok ([example.down; example.www; example.lan], None).
Proof. reflexivity. Qed.

(** ** The handler and the socket it dialed *)

Lemma written_txs os p w : net.txs (client (written os p w)) = tl (net.txs (client w)).
Proof.
  unfold written, net.Write. cbn.
  destruct (net.txs (client w)) as [|[n e] rest]; reflexivity.
Qed.

(** A complete handshake message that offers method 0x00, read and
    answered. *)
Lemma handshake_accepts os sock w (n : byte) (methods rest : list byte) :
  socks.conn sock = Some Client ->
  available (net.rx (client w)) = x05 :: n :: methods ++ rest ->
  length methods = Byte.to_nat n ->
  In x00 methods ->
  exists w2,
    outside w2 = outside w /\
    available (net.rx (client w2)) = rest /\
    socks.handshake os sock w = (writeVerdict (client w) 2, written os [x05; x00] w2).
Proof.
  intros Hc Hav Hlen Hin.
  destruct (readAll_stream os sock Client [x05; n] (methods ++ rest) w Hc Hav)
    as (w1 & Hr1 & Ha1 & Ho1).
  destruct (readAll_stream os sock Client methods rest w1 Hc Ha1) as (w2 & Hr2 & Ha2 & Ho2).
  cbn [length get] in *. rewrite Hlen in Hr2.
  exists w2. split; [congruence|]. split; [exact Ha2|].
  unfold socks.handshake. rewrite (bind_ok _ _ _ _ _ Hr1). cbn [nth].
  change (negb (Byte.eqb x05 socks.protoVersion)) with false. cbv iota.
  rewrite (bind_ok _ _ _ _ _ Hr2).
  apply existsb_zero_In in Hin. rewrite Hin.
  rewrite (writeAll_run os sock _ w2 Hc). change (length [x05; x00]) with 2.
  rewrite (writeVerdict_outside w w2 2) by congruence. reflexivity.
Qed.

(** The request is read, the dial succeeds, and the transport of the client
    refuses the first bytes of the success Reply. *)
Lemma connect_ipv4_reply_fails os sock lip w (rsv a b c d p1 p2 : byte) rest up e :
  socks.conn sock = Some Client ->
  available (net.rx (client w))
    = x05 :: x01 :: rsv :: x01 :: a :: b :: c :: d :: p1 :: p2 :: rest ->
  allowed os sock (net.IPv4 a b c d) = true ->
  DialTCP os "tcp" (lip, 0%N) (net.IPv4 a b c d, socks.Uint16 [p1; p2]) = inl up ->
  writeVerdict (client w) 3 = Panic e ->
  exists w',
    socks.connect os sock lip w = (Panic e, w') /\
    upstream w' = up /\
    clientOut w' = clientOut w ++ [[x05; x00; x00]] /\
    dialed w' = dialed w ++ [mkDial "tcp" (lip, 0%N)
                               (net.IPv4 a b c d, socks.Uint16 [p1; p2])].
Proof.
  intros Hc Hav Hok Hdial Hfail.
  destruct (connect_ipv4_request os sock lip w rsv a b c d p1 p2 rest Hc Hav)
    as (w3 & Ho & Ha & Hrun).
  rewrite Hrun. clear Hrun.
  pose proof (dialLoop_single os sock lip (socks.Uint16 [p1; p2]) (net.IPv4 a b c d)
                (None, None) w3 Hc Hok) as Hloop.
  change (dialProto (attempt lip (socks.Uint16 [p1; p2]) (net.IPv4 a b c d)))
    with "tcp"%string in Hloop.
  rewrite Hdial in Hloop.
  rewrite (bind_ok _ _ _ _ _ Hloop). cbv beta iota.
  set (w4 := mkWorld (client w3) up (ticks w3) (rng w3)
                     (dialed w3 ++ [attempt lip (socks.Uint16 [p1; p2]) (net.IPv4 a b c d)])
                     (quit w3)).
  rewrite (bind_ok (ret tt) _ w4 tt w4 eq_refl).
  rewrite (bind_ok _ _ _ _ _ (newSockConn_run os Upstream _ _ w4)).
  assert (Hw : socks.writeAll os sock [socks.protoVersion; socks.repSuccess; x00] w4
               = (Panic e, written os [x05; x00; x00] w4)).
  { rewrite (writeAll_run os sock _ w4 Hc). change (length _) with 3.
    change (client w4) with (client w3).
    rewrite (writeVerdict_outside w w3 3 Ho), Hfail. reflexivity. }
  rewrite (bind_panic _ _ _ _ _ Hw).
  exists (written os [x05; x00; x00] w4). split; [reflexivity|].
  rewrite written_upstream, written_clientOut, written_dialed.
  unfold clientOut. cbn [w4 client upstream dialed].
  pose proof (outside_clientOut _ _ Ho) as Hco. unfold clientOut in Hco.
  rewrite Hco, (outside_dialed _ _ Ho). auto.
Qed.

(** X19.  The socket [connect] dialed is closed by [handle] only once
    [connect] has returned.  A client that takes the answer of the
    handshake and whose transport then fails on the first bytes of the
    success Reply makes [connect] panic after the dial: the handler
    recovers and closes the client's socket, and the dialed socket is left
    exactly as the dialer handed it over, open and with nothing written to
    it. *)
Theorem handle_leaves_dialed_socket_open os sock lip w
        (n : byte) (methods : list byte) (rsv a b c d p1 p2 : byte) rest
        k k' e more up :
  socks.conn sock = Some Client ->
  available (net.rx (client w))
    = x05 :: n :: methods
      ++ x05 :: x01 :: rsv :: x01 :: a :: b :: c :: d :: p1 :: p2 :: rest ->
  length methods = Byte.to_nat n ->
  In x00 methods ->
  net.txs (client w) = (k, None) :: (k', Some e) :: more ->
  2 <= k ->
  allowed os sock (net.IPv4 a b c d) = true ->
  DialTCP os "tcp" (lip, 0%N) (net.IPv4 a b c d, socks.Uint16 [p1; p2]) = inl up ->
  exists w',
    socks.handleUntilRelay os sock lip w = (Ok (inr e), w') /\
    net.closed (client w') = true /\
    upstream w' = up /\
    clientOut w' = clientOut w ++ [[x05; x00]; [x05; x00; x00]].
Proof.
  intros Hc Hav Hlen Hin Htx Hk Hok Hdial.
  destruct (handshake_accepts os sock w n methods _ Hc Hav Hlen Hin)
    as (w2 & Ho2 & Ha2 & Hhs).
  assert (Hv : writeVerdict (client w) 2 = Ok tt).
  { unfold writeVerdict. rewrite Htx.
    replace (Nat.min k 2) with 2 by lia. reflexivity. }
  rewrite Hv in Hhs.
  set (w3 := written os [x05; x00] w2) in *.
  assert (Htx3 : net.txs (client w3) = (k', Some e) :: more).
  { unfold w3. rewrite written_txs, (outside_txs _ _ Ho2), Htx. reflexivity. }
  assert (Hfail : writeVerdict (client w3) 3 = Panic e).
  { unfold writeVerdict. rewrite Htx3. reflexivity. }
  assert (Ha3 : available (net.rx (client w3))
                = x05 :: x01 :: rsv :: x01 :: a :: b :: c :: d :: p1 :: p2 :: rest).
  { unfold w3. rewrite written_rx. exact Ha2. }
  destruct (connect_ipv4_reply_fails os sock lip w3 rsv a b c d p1 p2 rest up e
              Hc Ha3 Hok Hdial Hfail) as (w' & Hrun & Hup & Hout & _).
  assert (Hneg : socks.negotiate os sock lip w = (Panic e, w')).
  { unfold socks.negotiate.
    rewrite (bind_ok _ _ _ _ _ (setNoDelay_run os sock Client w Hc)).
    rewrite (bind_ok _ _ _ _ _ Hhs). exact Hrun. }
  exists (set Client (net.Close (client w')) w'). split.
  - unfold socks.handleUntilRelay. rewrite Hneg.
    unfold bind, socks.method, ret. rewrite Hc. reflexivity.
  - cbn [set get client upstream net.Close net.closed]. split; [reflexivity|].
    split; [exact Hup|].
    unfold clientOut in *. cbn [client net.out net.Close]. rewrite Hout.
    unfold w3. pose proof (written_clientOut os [x05; x00] w2) as Hw.
    unfold clientOut in Hw. rewrite Hw.
    pose proof (outside_clientOut _ _ Ho2) as Hco. unfold clientOut in Hco.
    rewrite Hco, <- app_assoc. reflexivity.
Qed.

Lemma handle_leaves_dialed_socket_open_witness :
  socks.conn example.sock = Some Client /\
  available (net.rx (client
     (mkWorld (net.fresh [net.Chunk [x05; x01; x00; x05; x01; x00; x01;
                                     x5d; xb8; xd8; x22; x00; x50]]
                         [(2, None); (0, Some (OpError false false))]
                         (example.ip xc6 x33 x64 x07, 40000%N))
              (net.fresh [] [] ([], 0%N)) 0 [] [] 0)))
    = x05 :: x01 :: [x00]
      ++ x05 :: x01 :: x00 :: x01 :: x5d :: xb8 :: xd8 :: x22 :: x00 :: x50 :: [] /\
  length [x00] = Byte.to_nat x01 /\
  In x00 [x00] /\
  net.txs (client
     (mkWorld (net.fresh [net.Chunk [x05; x01; x00; x05; x01; x00; x01;
                                     x5d; xb8; xd8; x22; x00; x50]]
                         [(2, None); (0, Some (OpError false false))]
                         (example.ip xc6 x33 x64 x07, 40000%N))
              (net.fresh [] [] ([], 0%N)) 0 [] [] 0))
    = (2, None) :: (0, Some (OpError false false)) :: [] /\
  2 <= 2 /\
  allowed (example.os true) example.sock (net.IPv4 x5d xb8 xd8 x22) = true /\
  DialTCP (example.os true) "tcp" (example.lip, 0%N)
          (net.IPv4 x5d xb8 xd8 x22, socks.Uint16 [x00; x50])
    = inl (net.fresh [] [] (example.www, 80%N)) /\
  exists w',
    socks.handleUntilRelay (example.os true) example.sock example.lip
       (mkWorld (net.fresh [net.Chunk [x05; x01; x00; x05; x01; x00; x01;
                                       x5d; xb8; xd8; x22; x00; x50]]
                           [(2, None); (0, Some (OpError false false))]
                           (example.ip xc6 x33 x64 x07, 40000%N))
                (net.fresh [] [] ([], 0%N)) 0 [] [] 0)
      = (Ok (inr (OpError false false)), w') /\
    net.closed (client w') = true /\
    upstream w' = net.fresh [] [] (example.www, 80%N) /\
    clientOut w'
      = clientOut
          (mkWorld (net.fresh [net.Chunk [x05; x01; x00; x05; x01; x00; x01;
                                          x5d; xb8; xd8; x22; x00; x50]]
                              [(2, None); (0, Some (OpError false false))]
                              (example.ip xc6 x33 x64 x07, 40000%N))
                   (net.fresh [] [] ([], 0%N)) 0 [] [] 0)
        ++ [[x05; x00]; [x05; x00; x00]].
Proof.
  split; [reflexivity|]. split; [reflexivity|]. split; [reflexivity|].
  split; [left; reflexivity|]. split; [reflexivity|]. split; [lia|].
  split; [reflexivity|]. split; [reflexivity|].
  apply (handle_leaves_dialed_socket_open (example.os true) example.sock example.lip
           _ x01 [x00] x00 x5d xb8 xd8 x22 x00 x50 [] 2 0 (OpError false false) []
           (net.fresh [] [] (example.www, 80%N)));
    first [reflexivity | left; reflexivity | lia].
Defined.

(** ** The server: listeners and the counter *)

(** X20.  In every state the server can reach, the counter of instances
    is the number of listeners that are open: a call of [ListenAndServe]
    counts from its successful [listen] to the stop signal it receives, and
    again from a successful new [listen] on a continue signal. *)
Theorem instances_counts_open_listeners self ls :
  reachable self ls -> server.instances self = listening ls.
Proof.
  intros H. apply (reachable_instances self ls H).
Qed.

Lemma instances_counts_open_listeners_witness :
  reachable example.busy [true] /\
  server.instances example.busy = listening [true].
Proof.
  split; [exact busy_is_reachable|].
  apply (instances_counts_open_listeners example.busy [true] busy_is_reachable).
Defined.

(** ** The goroutine that accepts *)

Lemma acceptLoop_survives pre :
  Forall survivable pre ->
  forall post c closed,
    server.acceptLoop (pre ++ post) c closed
      = server.acceptLoop post (c ++ tcpConns pre) (closed + others pre).
Proof.
  induction 1 as [|a pre Ha _ IH]; intros post c closed.
  - cbn. rewrite app_nil_r, Nat.add_0_r. reflexivity.
  - destruct a as [conn | | err]; cbn [app server.acceptLoop tcpConns others].
    + rewrite IH, <- app_assoc. reflexivity.
    + rewrite IH. f_equal. lia.
    + cbn [survivable] in Ha. rewrite Ha. apply IH.
Qed.

(** X22.  The goroutine of [listen] gets over every temporary error of
    [Accept]; it sends the TCP connections on the channel in the order they
    were accepted and closes the connections of another kind.  The first
    error that is not temporary ends it: the nil connection that comes with
    the error is taken for a connection of another kind and closed, which
    is a nil dereference. *)
Theorem accept_loop_ends_on_permanent_error pre err post c closed :
  Forall survivable pre ->
  server.temporary err = false ->
  server.acceptLoop pre c closed
    = (c ++ tcpConns pre, closed + others pre, None) /\
  server.acceptLoop (pre ++ server.acceptFailed err :: post) c closed
    = (c ++ tcpConns pre, closed + others pre, Some (runtime NilDereference)).
Proof.
  intros Hpre Herr. split.
  - rewrite <- (app_nil_r pre) at 1. rewrite (acceptLoop_survives pre Hpre). reflexivity.
  - rewrite (acceptLoop_survives pre Hpre). cbn [server.acceptLoop].
    rewrite Herr. reflexivity.
Qed.

Lemma accept_loop_ends_on_permanent_error_witness :
  Forall survivable
    [server.acceptedTCP (example.clientConn [x05]);
     server.acceptFailed (OpError false true);
     server.acceptedOther;
     server.acceptedTCP (example.clientConn [x04])] /\
  server.temporary (OpError false false) = false /\
  server.acceptLoop
      [server.acceptedTCP (example.clientConn [x05]);
       server.acceptFailed (OpError false true);
       server.acceptedOther;
       server.acceptedTCP (example.clientConn [x04])] [] 0
    = ([] ++ tcpConns
          [server.acceptedTCP (example.clientConn [x05]);
           server.acceptFailed (OpError false true);
           server.acceptedOther;
           server.acceptedTCP (example.clientConn [x04])],
       0 + others
          [server.acceptedTCP (example.clientConn [x05]);
           server.acceptFailed (OpError false true);
           server.acceptedOther;
           server.acceptedTCP (example.clientConn [x04])], None) /\
  server.acceptLoop
      ([server.acceptedTCP (example.clientConn [x05]);
        server.acceptFailed (OpError false true);
        server.acceptedOther;
        server.acceptedTCP (example.clientConn [x04])]
       ++ server.acceptFailed (OpError false false)
       :: [server.acceptedTCP (example.clientConn [x03])]) [] 0
    = ([] ++ tcpConns
          [server.acceptedTCP (example.clientConn [x05]);
           server.acceptFailed (OpError false true);
           server.acceptedOther;
           server.acceptedTCP (example.clientConn [x04])],
       0 + others
          [server.acceptedTCP (example.clientConn [x05]);
           server.acceptFailed (OpError false true);
           server.acceptedOther;
           server.acceptedTCP (example.clientConn [x04])],
       Some (runtime NilDereference)).
Proof.
  assert (Hpre : Forall survivable
            [server.acceptedTCP (example.clientConn [x05]);
             server.acceptFailed (OpError false true);
             server.acceptedOther;
             server.acceptedTCP (example.clientConn [x04])]).
  { repeat constructor. }
  split; [exact Hpre|]. split; [reflexivity|].
  apply (accept_loop_ends_on_permanent_error _ (OpError false false)
           [server.acceptedTCP (example.clientConn [x03])] [] 0 Hpre eq_refl).
Defined.

(** ** The loggers *)

Lemma decorate_cons p ps s :
  decorate (p :: ps) s = decorate ps (p ++ " - " ++ s)%string.
Proof. reflexivity. Qed.

(** X23.  A message given to a chain of prefix loggers reaches the sink at
    the end of the chain once, with the call depth it was given and with
    every prefix of the chain before it, the innermost prefix first; what
    the sink answers is what [Output] returns.  A chain that ends in the
    null logger gives the message to nobody and returns nil. *)
Theorem Output_reaches_sink answer l calldepth s :
  logger.Output answer l calldepth s
    = match sinkOf l with
      | Some sink => ([(sink, calldepth, decorate (prefixes l) s)],
                      answer sink calldepth (decorate (prefixes l) s))
      | None => ([], None)
      end.
Proof.
  revert s. induction l as [ | prefix inner IH | | name]; intros s;
    cbn [logger.Output sinkOf prefixes]; try reflexivity.
  rewrite IH, decorate_cons. reflexivity.
Qed.

(** The logger of a connection over the default logger of the server: the
    prefix of the server comes first. *)
Example sock_logger_line :
  logger.prefixLogger_Print (fun _ _ _ => None)
      "[10.0.0.1:1080 -> 198.51.100.7:40000]" logger.DefaultLogger "Handshake OK"
    = [(logger.stderr, 2%Z,
        "socksv5d - [10.0.0.1:1080 -> 198.51.100.7:40000] - Handshake OK"%string)].
Proof. reflexivity. Qed.

(** ** A request by name *)

Lemma dialLoop_reaches os sock lip port :
  socks.conn sock = Some Client ->
  forall (pre : list net.IP) (rip : net.IP) (post : list net.IP) named w up,
    Forall (fun rip => allowed os sock rip = true /\ dialFails os lip port rip) pre ->
    allowed os sock rip = true ->
    DialTCP os (dialProto (attempt lip port rip)) (lip, 0%N) (rip, port) = inl up ->
    exists w',
      socks.dialLoop os sock lip port (pre ++ rip :: post) named w
        = (Ok (Some Upstream, None), w') /\
      client w' = client w /\
      upstream w' = up /\
      dialed w' = dialed w ++ map (attempt lip port) (pre ++ [rip]).
Proof.
  intros Hc. induction pre as [|cand pre IH]; intros rip post named w up Hpre Hok Hdial.
  - cbn [app socks.dialLoop map]. rewrite (bind_ok _ _ _ _ _ (IP_run os sock w Hc)).
    unfold allowed in Hok.
    destruct (ruler.ConnectionAllowed os (socks.Ruler sock) [] rip); [discriminate|].
    rewrite (bind_ok (ret tt) _ w tt w eq_refl).
    unfold bind, socks.dial. unfold attempt, dialProto in Hdial. rewrite Hdial. cbn [snd].
    eexists. split; [reflexivity|]. cbn. auto.
  - inversion Hpre as [|? ? [Hallow Hfail] Hrest]; subst.
    cbn [app socks.dialLoop map]. rewrite (bind_ok _ _ _ _ _ (IP_run os sock w Hc)).
    unfold allowed in Hallow.
    destruct (ruler.ConnectionAllowed os (socks.Ruler sock) [] cand); [discriminate|].
    rewrite (bind_ok (ret tt) _ w tt w eq_refl).
    destruct (dial_fails os lip port cand w Hfail) as (e1 & w1 & Hrun1 & Hcl & Hlog).
    unfold attempt at 1, dialProto in Hrun1.
    rewrite (bind_ok _ _ _ _ _ Hrun1). cbn [snd].
    destruct (IH rip post (None, Some e1) w1 up Hrest Hok Hdial)
      as (w' & Hrun & Hcl' & Hup & Hdials).
    exists w'. split; [exact Hrun|].
    rewrite Hcl', Hcl, Hup, Hdials, Hlog, <- app_assoc. auto.
Qed.

(** X24.  A CONNECT request by name, from a client whose transport takes
    every write: the name is put to the resolver as the bytes of the
    request spell it, the addresses are dialed in the order the resolver
    gave them, on the port of the request, and the first one that answers
    becomes the upstream side; the addresses after it are not tried.  The
    client gets the success Reply, with the server's local address and the
    port of the request. *)
Theorem connect_by_name os sock lip w (rsv len : byte) (name : list byte)
        (p1 p2 : byte) rest pre rip post up :
  socks.conn sock = Some Client ->
  available (net.rx (client w))
    = x05 :: x01 :: rsv :: x03 :: len :: name ++ p1 :: p2 :: rest ->
  length name = Byte.to_nat len ->
  net.txs (client w) = [] ->
  (forall w0, fst (resolver.LookupIP os (socks.DNSResolver sock)
                     (string_of_list_byte name) w0) = Ok (pre ++ rip :: post, None)) ->
  Forall (fun rip => allowed os sock rip = true /\
                     dialFails os lip (socks.Uint16 [p1; p2]) rip) pre ->
  allowed os sock rip = true ->
  DialTCP os (dialProto (attempt lip (socks.Uint16 [p1; p2]) rip)) (lip, 0%N)
          (rip, socks.Uint16 [p1; p2]) = inl up ->
  exists w',
    socks.connect os sock lip w
      = (Ok (socks.mkSockConn (Some Upstream) (socks.DNSResolver sock) (socks.Ruler sock)),
         w') /\
    clientOut w' = clientOut w ++ [x05; x00; x00] :: boundAddress lip ++ [[p1; p2]] /\
    upstream w' = up /\
    dialed w' = dialed w ++ map (attempt lip (socks.Uint16 [p1; p2])) (pre ++ [rip]) /\
    available (net.rx (client w')) = rest.
Proof.
  intros Hc Hav Hlen Htx Hlook Hpre Hok Hdial.
  destruct (connect_header os sock w x01 rsv x03 (len :: name ++ p1 :: p2 :: rest) Hc Hav)
    as (w1 & Hr1 & Ha1 & Ho1).
  destruct (readAll_stream os sock Client [len] (name ++ p1 :: p2 :: rest) w1 Hc Ha1)
    as (w2 & Hr2 & Ha2 & Ho2).
  destruct (readAll_stream os sock Client name (p1 :: p2 :: rest) w2 Hc Ha2)
    as (w3 & Hr3 & Ha3 & Ho3).
  cbn [length get] in *. rewrite Hlen in Hr3.
  pose proof (Hlook w3) as Hl.
  pose proof (keeps_LookupIP_butRng os (socks.DNSResolver sock)
                (string_of_list_byte name) w3) as Hk.
  destruct (resolver.LookupIP os (socks.DNSResolver sock) (string_of_list_byte name) w3)
    as [r w4] eqn:Hrun.
  cbn [fst snd] in Hl, Hk. subst r.
  assert (Ha4 : available (net.rx (get Client w4)) = [p1; p2] ++ rest).
  { cbn [get]. rewrite (butRng_client _ _ Hk). exact Ha3. }
  destruct (readAll_stream os sock Client [p1; p2] rest w4 Hc Ha4) as (w5 & Hr5 & Ha5 & Ho5).
  cbn [length get] in *.
  destruct (dialLoop_reaches os sock lip (socks.Uint16 [p1; p2]) Hc pre rip post
              (None, None) w5 up Hpre Hok Hdial) as (w6 & Hloop & Hcl6 & Hup6 & Hd6).
  assert (Hout3 : outside w3 = outside w) by congruence.
  assert (Htx6 : net.txs (client w6) = []).
  { rewrite Hcl6, (outside_txs _ _ Ho5), (butRng_client _ _ Hk), (outside_txs _ _ Hout3).
    exact Htx. }
  destruct (successReply_run os sock lip (socks.Uint16 [p1; p2])
              (socks.mkSockConn (Some Upstream) (socks.DNSResolver sock) (socks.Ruler sock))
              w6 Hc Htx6) as (w' & Hreply & Hout & Hrx & Hup & Hdl).
  exists w'. split.
  - unfold socks.connect. rewrite (bind_ok _ _ _ _ _ Hr1). cbn [nth].
    change (negb (Byte.eqb x05 socks.protoVersion)) with false. cbv iota.
    change (Byte.eqb x01 socks.cmdConnect) with true. cbv iota.
    rewrite (bind_ok (ret tt) _ w1 tt w1 eq_refl).
    change (Byte.eqb x03 socks.atypeIPV4) with false.
    change (Byte.eqb x03 socks.atypeIPV6) with false.
    change (Byte.eqb x03 socks.atypeDomain) with true. cbv iota.
    rewrite (bind_ok _ _ w1 (pre ++ rip :: post) w4).
    2:{ rewrite (bind_ok _ _ _ _ _ Hr2). cbn [nth].
        rewrite (bind_ok _ _ _ _ _ Hr3).
        rewrite (bind_ok _ _ _ _ _ Hrun). reflexivity. }
    rewrite (bind_ok _ _ _ _ _ Hr5).
    rewrite (bind_ok _ _ _ _ _ Hloop). cbv beta iota.
    rewrite (bind_ok (ret tt) _ w6 tt w6 eq_refl).
    rewrite (bind_ok _ _ _ _ _ (newSockConn_run os Upstream _ _ w6)).
    exact Hreply.
  - rewrite Hout, Hrx, Hup, Hdl, port_round_trip, Hup6, Hd6, Hcl6.
    unfold clientOut. rewrite Hcl6.
    pose proof (outside_clientOut _ _ Ho5) as Hco5. unfold clientOut in Hco5.
    pose proof (outside_clientOut _ _ Hout3) as Hco3. unfold clientOut in Hco3.
    rewrite Hco5, (butRng_client _ _ Hk), Hco3.
    rewrite (outside_dialed _ _ Ho5), (butRng_dialed _ _ Hk), (outside_dialed _ _ Hout3).
    auto.
Qed.

Lemma connect_by_name_witness :
  socks.conn (socks.mkSockConn (Some Client)
                (resolver.customResolver
                   (fun _ => ([example.down; example.www; example.lan], None)))
                ruler.defaultRuler) = Some Client /\
  available (net.rx (client (example.world (example.connectTo "a.example"))))
    = x05 :: x01 :: x00 :: x03 :: x09 :: list_byte_of_string "a.example"
      ++ x00 :: x50 :: [] /\
  length (list_byte_of_string "a.example") = Byte.to_nat x09 /\
  net.txs (client (example.world (example.connectTo "a.example"))) = [] /\
  (forall w0,
     fst (resolver.LookupIP (example.os true)
            (socks.DNSResolver
               (socks.mkSockConn (Some Client)
                  (resolver.customResolver
                     (fun _ => ([example.down; example.www; example.lan], None)))
                  ruler.defaultRuler))
            (string_of_list_byte (list_byte_of_string "a.example")) w0)
     = Ok ([example.down] ++ example.www :: [example.lan], None)) /\
  Forall (fun rip =>
            allowed (example.os true)
              (socks.mkSockConn (Some Client)
                 (resolver.customResolver
                    (fun _ => ([example.down; example.www; example.lan], None)))
                 ruler.defaultRuler) rip = true /\
            dialFails (example.os true) example.lip (socks.Uint16 [x00; x50]) rip)
         [example.down] /\
  allowed (example.os true)
    (socks.mkSockConn (Some Client)
       (resolver.customResolver
          (fun _ => ([example.down; example.www; example.lan], None)))
       ruler.defaultRuler) example.www = true /\
  DialTCP (example.os true)
          (dialProto (attempt example.lip (socks.Uint16 [x00; x50]) example.www))
          (example.lip, 0%N) (example.www, socks.Uint16 [x00; x50])
    = inl (net.fresh [] [] (example.www, 80%N)) /\
  exists w',
    socks.connect (example.os true)
        (socks.mkSockConn (Some Client)
           (resolver.customResolver
              (fun _ => ([example.down; example.www; example.lan], None)))
           ruler.defaultRuler)
        example.lip (example.world (example.connectTo "a.example"))
      = (Ok (socks.mkSockConn (Some Upstream)
               (socks.DNSResolver
                  (socks.mkSockConn (Some Client)
                     (resolver.customResolver
                        (fun _ => ([example.down; example.www; example.lan], None)))
                     ruler.defaultRuler))
               (socks.Ruler
                  (socks.mkSockConn (Some Client)
                     (resolver.customResolver
                        (fun _ => ([example.down; example.www; example.lan], None)))
                     ruler.defaultRuler))),
         w') /\
    clientOut w' = clientOut (example.world (example.connectTo "a.example"))
                   ++ [x05; x00; x00] :: boundAddress example.lip ++ [[x00; x50]] /\
    upstream w' = net.fresh [] [] (example.www, 80%N) /\
    dialed w' = dialed (example.world (example.connectTo "a.example"))
                ++ map (attempt example.lip (socks.Uint16 [x00; x50]))
                       ([example.down] ++ [example.www]) /\
    available (net.rx (client w')) = [].
Proof.
  assert (Hlook : forall w0,
     fst (resolver.LookupIP (example.os true)
            (socks.DNSResolver
               (socks.mkSockConn (Some Client)
                  (resolver.customResolver
                     (fun _ => ([example.down; example.www; example.lan], None)))
                  ruler.defaultRuler))
            (string_of_list_byte (list_byte_of_string "a.example")) w0)
     = Ok ([example.down] ++ example.www :: [example.lan], None))
    by (intros w0; reflexivity).
  assert (Hpre : Forall (fun rip =>
            allowed (example.os true)
              (socks.mkSockConn (Some Client)
                 (resolver.customResolver
                    (fun _ => ([example.down; example.www; example.lan], None)))
                 ruler.defaultRuler) rip = true /\
            dialFails (example.os true) example.lip (socks.Uint16 [x00; x50]) rip)
         [example.down]).
  { constructor; [|constructor]. split; [reflexivity|].
    exists (OpError false false). reflexivity. }
  split; [reflexivity|]. split; [reflexivity|]. split; [reflexivity|].
  split; [reflexivity|]. split; [exact Hlook|]. split; [exact Hpre|].
  split; [reflexivity|]. split; [reflexivity|].
  apply (connect_by_name (example.os true)
           (socks.mkSockConn (Some Client)
              (resolver.customResolver
                 (fun _ => ([example.down; example.www; example.lan], None)))
              ruler.defaultRuler)
           example.lip
           (example.world (example.connectTo "a.example")) x00 x09
           (list_byte_of_string "a.example") x00 x50 []
           [example.down] example.www [example.lan]
           (net.fresh [] [] (example.www, 80%N))
           eq_refl eq_refl eq_refl eq_refl Hlook Hpre eq_refl eq_refl).
Defined.

(* ================================================================== *)
(** * What ends a direction of the relay *)



















(** A run on a destination that takes every write: the timeout is read
    over, the three bytes are handed over, and the direction ends with the
    failure that follows them. *)
Example relay_run :
  fst (socks.copyFrom (example.os true) example.sock example.rsock
         (example.relay [net.RxErr errTimeout; net.Chunk [x01; x02; x03];
                         net.RxErr (OpError false false); net.Chunk [x04]] []))
    = Ok (Some (OpError false false)) /\
  net.wire (upstream (snd (socks.copyFrom (example.os true) example.sock example.rsock
         (example.relay [net.RxErr errTimeout; net.Chunk [x01; x02; x03];
                         net.RxErr (OpError false false); net.Chunk [x04]] []))))
    = [x01; x02; x03].
Proof. split; vm_compute; reflexivity. Qed.

(** A write that runs into its deadline with bytes left does not end the
    direction with the timeout, but the next turn of the inner loop slices
    the buffer past its end: 40000 bytes are read, the write takes none of
    them, and the direction ends with the run-time error. *)
Example write_timeout_ends_in_slice_error :
  fst (socks.copyFrom (example.os true) example.sock example.rsock
         (example.relay [net.Chunk (repeat x01 (40 * 1000))] [(0, Some errTimeout)]))
    = Ok (Some (runtime SliceBoundsOutOfRange)) /\
  net.wire (upstream (snd (socks.copyFrom (example.os true) example.sock example.rsock
         (example.relay [net.Chunk (repeat x01 (40 * 1000))] [(0, Some errTimeout)]))))
    = [].
Proof. split; vm_compute; reflexivity. Qed.

(* ================================================================== *)
(** * The default ruler, by address ranges *)

Lemma bytesEqual_eq p q : net.bytesEqual p q = true <-> p = q.
Proof.
  revert q. induction p as [|x p IH]; intros [|y q]; cbn [net.bytesEqual];
    try (split; [discriminate | discriminate]); [split; reflexivity|].
  rewrite andb_true_iff, IH. split.
  - intros [H ->]. apply Byte.byte_dec_bl in H. subst. reflexivity.
  - intros H. injection H as -> ->. split; [apply Byte.byte_dec_lb|]; reflexivity.
Qed.

Lemma eqb_eq (a b : byte) : Byte.eqb a b = true <-> a = b.
Proof. split; [apply Byte.byte_dec_bl | apply Byte.byte_dec_lb]. Qed.

(** The mask 0xf0 gives 0xe0 on the first bytes from 224 to 239. *)
Lemma multicast_range (a : byte) :
  N.eqb (net.band a xf0) 224 = true <-> (224 <= Byte.to_N a <= 239)%N.
Proof.
  assert (E : N.eqb (net.band a xf0) 224
              = ((224 <=? Byte.to_N a) && (Byte.to_N a <=? 239))%N)
    by (destruct a; reflexivity).
  rewrite E, andb_true_iff, !N.leb_le. reflexivity.
Qed.

(** The mask 0xc0 gives 0x80 on the second bytes from 128 to 191. *)
Lemma linklocal_range (a : byte) :
  N.eqb (net.band a xc0) 128 = true <-> (128 <= Byte.to_N a <= 191)%N.
Proof.
  assert (E : N.eqb (net.band a xc0) 128
              = ((128 <=? Byte.to_N a) && (Byte.to_N a <=? 191))%N)
    by (destruct a; reflexivity).
  rewrite E, andb_true_iff, !N.leb_le. reflexivity.
Qed.

(** The five tests of [IsGlobalUnicast] on an IPv4 address, in either of
    its forms. *)
Lemma IsGlobalUnicast_v4_tests (ip : net.IP) (a b c d : byte) :
  ip = [a; b; c; d] \/ ip = net.IPv4 a b c d ->
  net.IsGlobalUnicast ip
    = negb (net.bytesEqual [a; b; c; d] [xff; xff; xff; xff])
      && negb (net.bytesEqual [a; b; c; d] [x00; x00; x00; x00])
      && negb (Byte.eqb a x7f)
      && negb (N.eqb (net.band a xf0) 224)
      && negb (Byte.eqb a xa9 && Byte.eqb b xfe).
Proof.
  intros [-> | ->]; unfold net.IsGlobalUnicast, net.IsUnspecified, net.IsLoopback,
    net.IsMulticast, net.IsLinkLocalUnicast; cbn; rewrite ?orb_false_r; reflexivity.
Qed.

Lemma four_equal (a b c d k : byte) :
  net.bytesEqual [a; b; c; d] [k; k; k; k] = true <-> a = k /\ b = k /\ c = k /\ d = k.
Proof.
  rewrite bytesEqual_eq. split.
  - intros H. injection H as -> -> -> ->. auto.
  - intros (-> & -> & -> & ->). reflexivity.
Qed.

Lemma IsGlobalUnicast_v4 (ip : net.IP) (a b c d : byte) :
  ip = [a; b; c; d] \/ ip = net.IPv4 a b c d ->
  net.IsGlobalUnicast ip = true <-> ~ special4 a b c d.
Proof.
  intros Hform. rewrite (IsGlobalUnicast_v4_tests ip a b c d Hform).
  pose proof (four_equal a b c d xff) as H1.
  pose proof (four_equal a b c d x00) as H2.
  pose proof (eqb_eq a x7f) as H3.
  pose proof (multicast_range a) as H4.
  assert (H5 : Byte.eqb a xa9 && Byte.eqb b xfe = true <-> a = xa9 /\ b = xfe)
    by (rewrite andb_true_iff, !eqb_eq; reflexivity).
  unfold special4. unfold byte in *.
  set (t1 := net.bytesEqual [a; b; c; d] [xff; xff; xff; xff]) in *.
  set (t2 := net.bytesEqual [a; b; c; d] [x00; x00; x00; x00]) in *.
  set (t3 := Byte.eqb a x7f) in *.
  set (t4 := N.eqb (net.band a xf0) 224) in *.
  set (t5 := Byte.eqb a xa9 && Byte.eqb b xfe) in *.
  clearbody t1 t2 t3 t4 t5.
  destruct t1, t2, t3, t4, t5; cbn [negb andb]; intuition congruence.
Qed.

(** The tests on an address of sixteen bytes that is no IPv4 address. *)
Lemma IsGlobalUnicast_v6_tests (ip : net.IP) :
  length ip = 16 ->
  firstn 12 ip <> net.v4InV6Prefix ->
  net.IsGlobalUnicast ip
    = negb (net.bytesEqual ip (repeat x00 16))
      && negb (net.bytesEqual ip (repeat x00 15 ++ [x01]))
      && negb (Byte.eqb (nth 0 ip x00) xff)
      && negb (Byte.eqb (nth 0 ip x00) xfe && N.eqb (net.band (nth 1 ip x00) xc0) 128).
Proof.
  intros Hlen Hnot.
  assert (Hpre : net.bytesEqual (firstn 12 ip) net.v4InV6Prefix = false).
  { destruct (net.bytesEqual (firstn 12 ip) net.v4InV6Prefix) eqn:E; [|reflexivity].
    apply bytesEqual_eq in E. contradiction. }
  assert (Hto4 : net.To4 ip = None).
  { unfold net.To4. rewrite Hlen, Hpre. reflexivity. }
  assert (Hv4 : forall a b c d, net.Equal ip (net.IPv4 a b c d) = false).
  { intros a b c d. unfold net.Equal. rewrite Hlen. cbn [length net.IPv4 app Nat.eqb].
    destruct (net.bytesEqual ip _) eqn:E; [|reflexivity].
    apply bytesEqual_eq in E. subst ip. elim Hnot. reflexivity. }
  unfold net.IsGlobalUnicast, net.IsUnspecified, net.IsLoopback, net.IsMulticast,
    net.IsLinkLocalUnicast.
  rewrite Hto4. unfold net.IPv4bcast, net.IPv4zero. rewrite !Hv4.
  unfold net.Equal, net.IPv6unspecified, net.IPv6loopback. rewrite Hlen.
  cbn [length repeat app Nat.eqb net.IPv6len net.IPv4len orb andb negb].
  reflexivity.
Qed.

Lemma IsGlobalUnicast_v6 (ip : net.IP) :
  length ip = 16 ->
  firstn 12 ip <> net.v4InV6Prefix ->
  net.IsGlobalUnicast ip = true <-> ~ special6 ip.
Proof.
  intros Hlen Hnot. rewrite (IsGlobalUnicast_v6_tests ip Hlen Hnot).
  pose proof (bytesEqual_eq ip (repeat x00 16)) as H1.
  pose proof (bytesEqual_eq ip (repeat x00 15 ++ [x01])) as H2.
  pose proof (eqb_eq (nth 0 ip x00) xff) as H3.
  assert (H4 : Byte.eqb (nth 0 ip x00) xfe && N.eqb (net.band (nth 1 ip x00) xc0) 128
               = true
               <-> nth 0 ip x00 = xfe /\ (128 <= Byte.to_N (nth 1 ip x00) <= 191)%N)
    by (rewrite andb_true_iff, eqb_eq, linklocal_range; reflexivity).
  unfold special6. unfold net.IP in *. unfold byte in *.
  set (t1 := net.bytesEqual ip (repeat x00 16)) in *.
  set (t2 := net.bytesEqual ip (repeat x00 15 ++ [x01])) in *.
  set (t3 := Byte.eqb (nth 0 ip x00) xff) in *.
  set (t4 := Byte.eqb (nth 0 ip x00) xfe && N.eqb (net.band (nth 1 ip x00) xc0) 128) in *.
  clearbody t1 t2 t3 t4.
  destruct t1, t2, t3, t4; cbn [negb andb]; intuition congruence.
Qed.

Lemma IsGlobalUnicast_length (ip : net.IP) :
  length ip <> 4 -> length ip <> 16 -> net.IsGlobalUnicast ip = false.
Proof.
  intros H4 H16. unfold net.IsGlobalUnicast, net.IPv4len, net.IPv6len.
  apply Nat.eqb_neq in H4, H16. rewrite H4, H16. reflexivity.
Qed.

(** What [IsGlobalUnicast] lets pass, by address ranges. *)
Lemma IsGlobalUnicast_ranges (ip : net.IP) :
  net.IsGlobalUnicast ip = true <-> ~ turnedAway ip.
Proof.
  destruct (Nat.eq_dec (length ip) 4) as [H4 | H4].
  { destruct ip as [|a [|b [|c [|d [|? ?]]]]]; try discriminate.
    rewrite (IsGlobalUnicast_v4 [a; b; c; d] a b c d (or_introl eq_refl)).
    unfold turnedAway. split.
    - intros Hn [(a' & b' & c' & d' & [E | E] & Hs) | [(Hl & _) | (Hl & _)]].
      + injection E as -> -> -> ->. contradiction.
      + discriminate E.
      + discriminate Hl.
      + elim Hl. reflexivity.
    - intros Hn Hs. apply Hn. left. exists a, b, c, d. auto. }
  destruct (Nat.eq_dec (length ip) 16) as [H16 | H16].
  2:{ rewrite (IsGlobalUnicast_length ip H4 H16). unfold turnedAway.
      split; [discriminate|]. intros Hn. elim Hn. auto. }
  destruct (list_eq_dec Byte.byte_eq_dec (firstn 12 ip) net.v4InV6Prefix) as [Hp | Hp].
  - assert (Hform : exists a b c d, ip = net.IPv4 a b c d).
    { rewrite <- (firstn_skipn 12 ip), Hp.
      assert (Hl : length (skipn 12 ip) = 4) by (rewrite length_skipn; lia).
      destruct (skipn 12 ip) as [|a [|b [|c [|d [|? ?]]]]]; try discriminate.
      exists a, b, c, d. reflexivity. }
    destruct Hform as (a & b & c & d & ->).
    rewrite (IsGlobalUnicast_v4 _ a b c d (or_intror eq_refl)).
    unfold turnedAway. split.
    + intros Hn [(a' & b' & c' & d' & [E | E] & Hs) | [(_ & Hq & _) | (_ & Hl)]].
      * discriminate E.
      * injection E as -> -> -> ->. contradiction.
      * elim Hq. reflexivity.
      * elim Hl. reflexivity.
    + intros Hn Hs. apply Hn. left. exists a, b, c, d. auto.
  - rewrite (IsGlobalUnicast_v6 ip H16 Hp). unfold turnedAway. split.
    + intros Hn [(a' & b' & c' & d' & [E | E] & Hs) | [(_ & _ & Hs) | (_ & Hl)]].
      * subst ip. discriminate H16.
      * subst ip. elim Hp. reflexivity.
      * contradiction.
      * contradiction.
    + intros Hn Hs. apply Hn. right. left. auto.
Qed.

(** C8, as the code has it.  The default ruler allows a pair exactly when
    three things hold.  The requested address is an IPv4 or an IPv6
    address outside the classes of the first test: it is not the
    unspecified address (0.0.0.0, [::]), not the IPv4 broadcast address
    255.255.255.255, not a loopback address (127.0.0.0/8, [::1]), not a
    multicast address (224.0.0.0/4, ff00::/8) and not a link-local unicast
    address (169.254.0.0/16, fe80::/10).  The interfaces could be
    enumerated.  And no interface address equals the requested address and
    no interface network contains it.  In every other case, the failure to
    enumerate the interfaces among them, it denies.  The requester plays
    no part, and neither does any other range of addresses: an address of
    a private-use block is allowed unless a network of an interface covers
    it. *)
Theorem defaultRuler_allows_by_address_class os requestee requested :
  (ruler.ConnectionAllowed os ruler.defaultRuler requestee requested
     = ruler.AllowConnection
   <-> ~ turnedAway requested /\
       snd (InterfaceAddrs os) = None /\
       Forall (clearOf requested) (fst (InterfaceAddrs os)))
  /\
  (ruler.ConnectionAllowed os ruler.defaultRuler requestee requested
     = ruler.DenyConnection
   <-> ~ (~ turnedAway requested /\
          snd (InterfaceAddrs os) = None /\
          Forall (clearOf requested) (fst (InterfaceAddrs os)))).
Proof.
  destruct (defaultRuler_tests os requestee requested) as [Hallow Hdeny].
  rewrite (IsGlobalUnicast_ranges requested) in Hallow, Hdeny.
  split; assumption.
Qed.

(** C8 as stated fails.  On the example host, whose interfaces are
    192.168.1.10/24 and 127.0.0.1/8, the address 10.1.2.3 is of the
    private-use block 10.0.0.0/8, so it is no globally routable address;
    no interface equals it or covers it, and the default ruler allows
    it. *)
Lemma private_address_is_allowed :
  existsb (fun n => net.Contains n (example.ip x0a x01 x02 x03)) privateUse = true /\
  globallyRoutable (example.ip x0a x01 x02 x03) = false /\
  InterfaceAddrs (example.os true) = (example.interfaces, None) /\
  ruler.ConnectionAllowed (example.os true) ruler.defaultRuler []
                          (example.ip x0a x01 x02 x03) = ruler.AllowConnection.
Proof. repeat split. Qed.

(** Other addresses that are not globally routable and pass the first
    test: 172.16.0.1, 100.64.0.1, 240.0.0.1 and fd00::1. *)
Example unroutable_addresses_pass :
  net.IsGlobalUnicast (example.ip xac x10 x00 x01) = true /\
  net.IsGlobalUnicast (example.ip x64 x40 x00 x01) = true /\
  net.IsGlobalUnicast (example.ip xf0 x00 x00 x01) = true /\
  net.IsGlobalUnicast (xfd :: repeat x00 14 ++ [x01]) = true.
Proof. repeat split. Qed.
